(** * hono-commerce: session, token and rate-limit core

    A shallow embedding of the session manager
    ([infrastructure/auth/session.service.ts]), the token service
    ([infrastructure/auth/jwt.service.ts]), the rate limiter
    ([infrastructure/cache/rate-limit.service.ts]), the [authenticate]
    middleware and [AuthService.refreshToken], with the properties the
    specification states about them.

    Conventions of the embedding.
    - Time is the millisecond clock of [Date.now()]; every operation takes
      the reading [now] of the clock during the call.
    - The PostgreSQL tables are lists of rows in insertion order; a query
      without [orderBy] returns the rows in table order, [orderBy] is a
      stable sort, [limit(1)] keeps the head.  The database answers every
      query (its failures are not modelled); Redis may be unreachable, in
      which case every command throws, as the [try/catch] blocks of the
      services expect.
    - JavaScript values that the code coerces ([Number(..)], [!x],
      [x * 1000], [||]) are modelled with the coercions of the language
      written out.  Numbers are exact decimals [m * 10^e]; the rounding of
      doubles is not modelled. *)

From Stdlib Require Import ZArith String Ascii List Bool Lia.
From Stdlib Require Sorted.
From stdpp Require Import base option gmap strings list fin_maps pretty.

Local Open Scope string_scope.
Local Open Scope list_scope.
Local Open Scope Z_scope.

#[local] Set Warnings "-register-all".

(* ===================================================================== *)
(** * JavaScript numbers and the String-to-Number conversion *)
(* ===================================================================== *)

Module JS.

(** A JavaScript number: NaN, the infinities, or the decimal [m * 10^e]. *)
Inductive JSNum : Type :=
| NaN
| PosInf
| NegInf
| Dec (m e : Z).

Definition of_Z (z : Z) : JSNum := Dec z 0.

(** [m1 * 10^e1 < m2 * 10^e2], both sides scaled to the smaller exponent. *)
Definition dec_ltb (m1 e1 m2 e2 : Z) : bool :=
  let e := Z.min e1 e2 in
  (m1 * 10 ^ (e1 - e)) <? (m2 * 10 ^ (e2 - e)).

(** The abstract relational comparison [x < y]; [None] is "undefined",
    the answer when an operand is NaN. *)
Definition compare_lt (x y : JSNum) : option bool :=
  match x, y with
  | NaN, _ | _, NaN => None
  | PosInf, _ => Some false
  | _, PosInf => Some true
  | _, NegInf => Some false
  | NegInf, _ => Some true
  | Dec m1 e1, Dec m2 e2 => Some (dec_ltb m1 e1 m2 e2)
  end.

(** [x < y] *)
Definition lt (x y : JSNum) : bool :=
  match compare_lt x y with Some b => b | None => false end.

(** [x >= y]: the negation of [x < y], but false when that is undefined. *)
Definition ge (x y : JSNum) : bool :=
  match compare_lt x y with Some b => negb b | None => false end.

(** [x * k] for an integer constant [k > 0]. *)
Definition mul_const (x : JSNum) (k : Z) : JSNum :=
  match x with
  | Dec m e => Dec (m * k) e
  | other => other
  end.

Definition neg (x : JSNum) : JSNum :=
  match x with
  | NaN => NaN
  | PosInf => NegInf
  | NegInf => PosInf
  | Dec m e => Dec (- m) e
  end.

(** ** Characters *)

Definition code (c : ascii) : Z := Z.of_N (N_of_ascii c).

Definition is_digit (c : ascii) : bool := (48 <=? code c) && (code c <=? 57).

Definition is_hex (c : ascii) : bool :=
  is_digit c || ((97 <=? code c) && (code c <=? 102))
             || ((65 <=? code c) && (code c <=? 70)).

Definition digit_val (c : ascii) : Z := code c - 48.

Definition hex_val (c : ascii) : Z :=
  if is_digit c then code c - 48
  else if 97 <=? code c then code c - 87
  else code c - 55.

(** StrWhiteSpaceChar, restricted to one-byte characters:
    TAB, LF, VT, FF, CR and SP. *)
Definition is_str_ws (c : ascii) : bool :=
  ((9 <=? code c) && (code c <=? 13)) || (code c =? 32).

Fixpoint span (p : ascii -> bool) (l : list ascii) : list ascii * list ascii :=
  match l with
  | c :: r => if p c then let (a, b) := span p r in (c :: a, b) else ([], l)
  | [] => ([], [])
  end.

Fixpoint drop_while (p : ascii -> bool) (l : list ascii) : list ascii :=
  match l with
  | c :: r => if p c then drop_while p r else l
  | [] => []
  end.

Definition trim (l : list ascii) : list ascii :=
  rev (drop_while is_str_ws (rev (drop_while is_str_ws l))).

(** The value of a run of digits in the given radix. *)
Definition digits_val (radix : Z) (val : ascii -> Z) (ds : list ascii) : Z :=
  fold_left (fun a c => radix * a + val c) ds 0.

Definition is_empty (l : list ascii) : bool :=
  match l with [] => true | _ => false end.

(** ** StringToNumber (ECMA-262, 7.1.4.1) *)

(** [ExponentPart_opt] followed by the end of the literal: the exponent, or
    [None] when the text is not of that form. *)
Definition exponent_part (l : list ascii) : option Z :=
  match l with
  | [] => Some 0
  | c :: r =>
      if (code c =? 101) || (code c =? 69) then
        let '(sgn, r') :=
          match r with
          | s :: r0 =>
              if code s =? 43 then (1, r0)
              else if code s =? 45 then (-1, r0)
              else (1, r)
          | [] => (1, r)
          end in
        let (ds, rest) := span is_digit r' in
        if is_empty ds || negb (is_empty rest) then None
        else Some (sgn * digits_val 10 digit_val ds)
      else None
  end.

(** [StrUnsignedDecimalLiteral]. *)
Definition unsigned_decimal (l : list ascii) : option JSNum :=
  if String.eqb (string_of_list_ascii l) "Infinity" then Some PosInf
  else
    let (ip, r1) := span is_digit l in
    let (fp, r2) :=
      match r1 with
      | c :: r => if code c =? 46 then span is_digit r else ([], r1)
      | [] => ([], r1)
      end in
    if is_empty ip && is_empty fp then None
    else
      match exponent_part r2 with
      | Some x =>
          Some (Dec (digits_val 10 digit_val (ip ++ fp)) (x - Z.of_nat (length fp)))
      | None => None
      end.

(** [StrDecimalLiteral]: an optional sign and an unsigned literal. *)
Definition str_decimal (l : list ascii) : option JSNum :=
  match l with
  | c :: r =>
      if code c =? 43 then unsigned_decimal r
      else if code c =? 45 then neg <$> unsigned_decimal r
      else unsigned_decimal l
  | [] => None
  end.

Definition is_bin (c : ascii) : bool := (code c =? 48) || (code c =? 49).
Definition is_oct (c : ascii) : bool := (48 <=? code c) && (code c <=? 55).

(** [NonDecimalIntegerLiteral]: [0x], [0o] and [0b] literals, unsigned. *)
Definition non_decimal (l : list ascii) : option JSNum :=
  match l with
  | z :: x :: ds =>
      if (code z =? 48) && negb (is_empty ds) then
        if ((code x =? 120) || (code x =? 88)) && forallb is_hex ds
        then Some (of_Z (digits_val 16 hex_val ds))
        else if ((code x =? 111) || (code x =? 79)) && forallb is_oct ds
        then Some (of_Z (digits_val 8 digit_val ds))
        else if ((code x =? 98) || (code x =? 66)) && forallb is_bin ds
        then Some (of_Z (digits_val 2 digit_val ds))
        else None
      else None
  | _ => None
  end.

(** [Number(s)] for a string [s]: white space is trimmed, the empty string
    is [0], a numeric literal is its value, anything else is NaN. *)
Definition StringToNumber (s : string) : JSNum :=
  let l := trim (list_ascii_of_string s) in
  if is_empty l then of_Z 0
  else
    match non_decimal l with
    | Some n => n
    | None =>
        match str_decimal l with
        | Some n => n
        | None => NaN
        end
    end.

(** ** Values, truthiness and ToNumber *)

Inductive JSValue : Type :=
| JSUndefined
| JSNull
| JSBool (b : bool)
| JSNumber (n : JSNum)
| JSString (s : string)
| JSArray (xs : list JSValue)
| JSObject (fields : list (string * JSValue)).

(** [!!v] *)
Definition ToBoolean (v : JSValue) : bool :=
  match v with
  | JSUndefined | JSNull => false
  | JSBool b => b
  | JSNumber NaN => false
  | JSNumber (Dec m _) => negb (m =? 0)
  | JSNumber _ => true
  | JSString s => negb (String.eqb s EmptyString)
  | JSArray _ | JSObject _ => true
  end.

(** [a || b] *)
Definition or_else (a b : JSValue) : JSValue := if ToBoolean a then a else b.

(** [Number(v)].  An object converts through its [toString]: a plain
    object gives "[object Object]", hence NaN; an array gives its elements
    joined by commas, which is a numeric literal only when there is at most
    one element ([null] and [undefined] elements print as the empty
    string). *)
Fixpoint ToNumber (v : JSValue) : JSNum :=
  match v with
  | JSUndefined => NaN
  | JSNull => of_Z 0
  | JSBool b => of_Z (if b then 1 else 0)
  | JSNumber n => n
  | JSString s => StringToNumber s
  | JSObject _ => NaN
  | JSArray [] => of_Z 0
  | JSArray [x] =>
      match x with
      | JSUndefined | JSNull => of_Z 0
      | JSBool _ | JSObject _ => NaN
      | _ => ToNumber x
      end
  | JSArray _ => NaN
  end.

(** [v.k] for a value that is not [null] or [undefined] and a key that no
    prototype defines: the own property of an object (the last one when
    the text repeated the key), [undefined] on anything else. *)
Definition get_property (v : JSValue) (k : string) : JSValue :=
  match v with
  | JSObject fields =>
      match List.find (fun kv => String.eqb (fst kv) k) (rev fields) with
      | Some kv => snd kv
      | None => JSUndefined
      end
  | _ => JSUndefined
  end.

(** ** JSON.parse *)

Definition is_json_ws (c : ascii) : bool :=
  (code c =? 32) || (code c =? 9) || (code c =? 10) || (code c =? 13).

Definition skip_ws (l : list ascii) : list ascii := drop_while is_json_ws l.

Definition ascii_of_Z (z : Z) : ascii := ascii_of_N (Z.to_N z).

(** The UTF-8 bytes of a code unit of the basic plane (a [\uXXXX] escape). *)
Definition utf8_encode (n : Z) : list ascii :=
  if n <? 128 then [ascii_of_Z n]
  else if n <? 2048 then
    [ascii_of_Z (192 + n / 64); ascii_of_Z (128 + n mod 64)]
  else
    [ascii_of_Z (224 + n / 4096); ascii_of_Z (128 + (n / 64) mod 64);
     ascii_of_Z (128 + n mod 64)].

(** The character a two-character escape stands for. *)
Definition simple_escape (c : ascii) : option ascii :=
  if code c =? 34 then Some c          (* quote *)
  else if code c =? 92 then Some c     (* backslash *)
  else if code c =? 47 then Some c     (* slash *)
  else if code c =? 98 then Some (ascii_of_Z 8)
  else if code c =? 102 then Some (ascii_of_Z 12)
  else if code c =? 110 then Some (ascii_of_Z 10)
  else if code c =? 114 then Some (ascii_of_Z 13)
  else if code c =? 116 then Some (ascii_of_Z 9)
  else None.

(** The characters of a string literal after its opening quote, up to the
    closing quote; [acc] holds the characters read so far, reversed. *)
Fixpoint json_string (l : list ascii) (acc : list ascii)
  : option (list ascii * list ascii) :=
  match l with
  | [] => None
  | c :: r =>
      if code c =? 34 then Some (rev acc, r)
      else if code c <? 32 then None
      else if code c =? 92 then
        match r with
        | e :: r1 =>
            if code e =? 117 then
              match r1 with
              | h1 :: h2 :: h3 :: h4 :: r2 =>
                  if forallb is_hex [h1; h2; h3; h4] then
                    json_string r2
                      (rev (utf8_encode (digits_val 16 hex_val [h1; h2; h3; h4]))
                         ++ acc)
                  else None
              | _ => None
              end
            else
              match simple_escape e with
              | Some x => json_string r1 (x :: acc)
              | None => None
              end
        | [] => None
        end
      else json_string r (c :: acc)
  end.

(** A JSON number: [-? int frac? exp?], with no leading zero in [int]. *)
Definition json_number (l : list ascii) : option (JSNum * list ascii) :=
  let '(sgn, l1) :=
    match l with
    | c :: r => if code c =? 45 then (-1, r) else (1, l)
    | [] => (1, l)
    end in
  match l1 with
  | [] => None
  | d :: r0 =>
      if negb (is_digit d) then None
      else
        let (ip, r1) := if code d =? 48 then ([d], r0) else span is_digit l1 in
        let frac :=
          match r1 with
          | c :: r =>
              if code c =? 46 then
                let (fp, r2) := span is_digit r in
                if is_empty fp then None else Some (fp, r2)
              else Some ([], r1)
          | [] => Some ([], r1)
          end in
        match frac with
        | None => None
        | Some (fp, r2) =>
            let ex :=
              match r2 with
              | c :: r =>
                  if (code c =? 101) || (code c =? 69) then
                    let '(es, r3) :=
                      match r with
                      | s :: r' =>
                          if code s =? 43 then (1, r')
                          else if code s =? 45 then (-1, r')
                          else (1, r)
                      | [] => (1, r)
                      end in
                    let (ed, r4) := span is_digit r3 in
                    if is_empty ed then None
                    else Some (es * digits_val 10 digit_val ed, r4)
                  else Some (0, r2)
              | [] => Some (0, r2)
              end in
            match ex with
            | None => None
            | Some (x, r5) =>
                Some (Dec (sgn * digits_val 10 digit_val (ip ++ fp))
                          (x - Z.of_nat (length fp)), r5)
            end
        end
  end.

(** [l] without the prefix [p], when it starts with it. *)
Fixpoint strip_prefix (p l : list ascii) : option (list ascii) :=
  match p, l with
  | [], _ => Some l
  | a :: p', b :: l' => if Ascii.eqb a b then strip_prefix p' l' else None
  | _ :: _, [] => None
  end.

(** A JSON value, the elements of an array after its first bracket and the
    members of an object after its first brace.  Every call spends one unit
    of [fuel]; a text of [n] characters needs at most [2 * n + 2]. *)
Fixpoint json_value (fuel : nat) (l : list ascii) {struct fuel}
  : option (JSValue * list ascii) :=
  match fuel with
  | O => None
  | S f =>
      match skip_ws l with
      | [] => None
      | c :: r =>
          if code c =? 34 then
            match json_string r [] with
            | Some (s, r') => Some (JSString (string_of_list_ascii s), r')
            | None => None
            end
          else if code c =? 91 then
            match skip_ws r with
            | c' :: r' =>
                if code c' =? 93 then Some (JSArray [], r')
                else json_elements f r []
            | [] => None
            end
          else if code c =? 123 then
            match skip_ws r with
            | c' :: r' =>
                if code c' =? 125 then Some (JSObject [], r')
                else json_members f r []
            | [] => None
            end
          else
            match strip_prefix (list_ascii_of_string "null") (c :: r) with
            | Some r' => Some (JSNull, r')
            | None =>
            match strip_prefix (list_ascii_of_string "true") (c :: r) with
            | Some r' => Some (JSBool true, r')
            | None =>
            match strip_prefix (list_ascii_of_string "false") (c :: r) with
            | Some r' => Some (JSBool false, r')
            | None =>
            match json_number (c :: r) with
            | Some (n, r') => Some (JSNumber n, r')
            | None => None
            end end end end
      end
  end
with json_elements (fuel : nat) (l : list ascii) (acc : list JSValue)
  {struct fuel} : option (JSValue * list ascii) :=
  match fuel with
  | O => None
  | S f =>
      match json_value f l with
      | Some (v, r) =>
          match skip_ws r with
          | c :: r' =>
              if code c =? 44 then json_elements f r' (v :: acc)
              else if code c =? 93 then Some (JSArray (rev (v :: acc)), r')
              else None
          | [] => None
          end
      | None => None
      end
  end
with json_members (fuel : nat) (l : list ascii)
  (acc : list (string * JSValue)) {struct fuel}
  : option (JSValue * list ascii) :=
  match fuel with
  | O => None
  | S f =>
      match skip_ws l with
      | q :: r =>
          if code q =? 34 then
            match json_string r [] with
            | Some (k, r1) =>
                match skip_ws r1 with
                | c :: r2 =>
                    if code c =? 58 then
                      match json_value f r2 with
                      | Some (v, r3) =>
                          let acc' := (string_of_list_ascii k, v) :: acc in
                          match skip_ws r3 with
                          | c3 :: r4 =>
                              if code c3 =? 44 then json_members f r4 acc'
                              else if code c3 =? 125
                              then Some (JSObject (rev acc'), r4)
                              else None
                          | [] => None
                          end
                      | None => None
                      end
                    else None
                | [] => None
                end
            | None => None
            end
          else None
      | [] => None
      end
  end.

(** [JSON.parse(s)]; [None] is a thrown [SyntaxError]. *)
Definition JSON_parse (s : string) : option JSValue :=
  let l := list_ascii_of_string s in
  match json_value (2 * length l + 2) l with
  | Some (v, r) => if is_empty (skip_ws r) then Some v else None
  | None => None
  end.

(** ** Buffer.from(s, 'base64') *)

(** The six bits of a base64 character; both alphabets are accepted. *)
Definition unbase64 (c : ascii) : option Z :=
  let n := code c in
  if (65 <=? n) && (n <=? 90) then Some (n - 65)
  else if (97 <=? n) && (n <=? 122) then Some (n - 71)
  else if (48 <=? n) && (n <=? 57) then Some (n + 4)
  else if (n =? 43) || (n =? 45) then Some 62
  else if (n =? 47) || (n =? 95) then Some 63
  else None.

(** The sextets of the input: decoding stops at the first [=] and skips
    every other character outside the alphabet. *)
Fixpoint base64_sextets (l : list ascii) : list Z :=
  match l with
  | [] => []
  | c :: r =>
      if code c =? 61 then []
      else
        match unbase64 c with
        | Some v => v :: base64_sextets r
        | None => base64_sextets r
        end
  end.

(** Four sextets give three bytes; a tail of three gives two bytes, a tail
    of two gives one, a single sextet gives none. *)
Fixpoint base64_bytes (fuel : nat) (s : list Z) : list ascii :=
  match fuel with
  | O => []
  | S f =>
      match s with
      | a :: b :: c :: d :: r =>
          ascii_of_Z (a * 4 + b / 16)
            :: ascii_of_Z ((b mod 16) * 16 + c / 4)
            :: ascii_of_Z ((c mod 4) * 64 + d)
            :: base64_bytes f r
      | [a; b; c] =>
          [ascii_of_Z (a * 4 + b / 16); ascii_of_Z ((b mod 16) * 16 + c / 4)]
      | [a; b] => [ascii_of_Z (a * 4 + b / 16)]
      | _ => []
      end
  end.

(** [Buffer.from(s, 'base64').toString()], byte for byte. *)
Definition base64_decode (s : string) : string :=
  let sx := base64_sextets (list_ascii_of_string s) in
  string_of_list_ascii (base64_bytes (length sx) sx).

End JS.

(* ===================================================================== *)
(** * Errors, configuration and the JWT library *)
(* ===================================================================== *)

(** The error classes of [types/common.ts] that the modelled code throws,
    with their message. *)
Inductive AppError : Type :=
| AuthenticationError (message : string)
| RateLimitError (message : string).

Definition Result (A : Type) : Type := AppError + A.

(** The payload of a token ([JWTPayload] of jwt.service.ts).  A refresh
    token carries no [role]. *)
Record JWTPayload : Type := mkJWTPayload {
  payload_userId : string;
  payload_sessionId : string;
  payload_role : option string;
  payload_iat : option Z;
  payload_exp : option Z
}.

(** The part of the [jose] library the token service calls.
    [jws_sign secret payload] is [new SignJWT(payload)...sign(secret)];
    [jws_verify secret token] is the signature check and payload decoding
    of [jwtVerify] ([None] when it throws); [jose_failure_message] and
    [jose_expired_message] are the [message] of the errors it throws. *)
Class Jose : Type := {
  jws_sign : string -> JWTPayload -> string;
  jws_verify : string -> string -> option JWTPayload;
  jose_failure_message : string -> string;
  jose_expired_message : string
}.

(** What the library promises: a token verifies under the secret that
    signed it and yields the payload that was signed. *)
Definition JoseCorrect (jose : Jose) : Prop :=
  forall secret payload, jws_verify secret (jws_sign secret payload) = Some payload.

(** [config.jwt] of config/env.ts, with the expiry spans ("15m", "7d")
    in seconds, and the constants of utils/constants.ts that the services
    read. *)
Class Config : Type := {
  jwt_accessSecret : string;
  jwt_refreshSecret : string;
  jwt_accessExpiry : Z;
  jwt_refreshExpiry : Z;
  MAX_SESSIONS_PER_USER : Z;
  REDIS_TTL_SESSION : Z
}.

(** The seconds clock of the JWT library: [Math.floor(ms / 1000)]. *)
Definition epoch (now : Z) : Z := now / 1000.

(** [haystack.includes(needle)] *)
Definition includes (haystack needle : string) : bool :=
  match String.index 0 needle haystack with
  | Some _ => true
  | None => false
  end.

(* ===================================================================== *)
(** * jwt.service.ts *)
(* ===================================================================== *)

Section JWTService.
Context {jose : Jose} {config : Config}.

(** [jwtVerify(token, secret)]: the signature, then the [exp] claim against
    the seconds clock.  [inl] carries the message of the thrown error. *)
Definition jwtVerify (token secret : string) (now : Z) : string + JWTPayload :=
  match jws_verify secret token with
  | None => inl (jose_failure_message token)
  | Some payload =>
      match payload_exp payload with
      | Some e => if e <=? epoch now then inl jose_expired_message else inr payload
      | None => inr payload
      end
  end.

Definition generateAccessToken (userId sessionId role : string) (now : Z) : string :=
  jws_sign jwt_accessSecret
    {| payload_userId := userId;
       payload_sessionId := sessionId;
       payload_role := Some role;
       payload_iat := Some (epoch now);
       payload_exp := Some (epoch now + jwt_accessExpiry) |}.

Definition generateRefreshToken (userId sessionId : string) (now : Z) : string :=
  jws_sign jwt_refreshSecret
    {| payload_userId := userId;
       payload_sessionId := sessionId;
       payload_role := None;
       payload_iat := Some (epoch now);
       payload_exp := Some (epoch now + jwt_refreshExpiry) |}.

Definition verifyAccessToken (token : string) (now : Z) : Result JWTPayload :=
  match jwtVerify token jwt_accessSecret now with
  | inr payload => inr payload
  | inl message =>
      if includes message "expired"
      then inl (AuthenticationError "Access token has expired")
      else inl (AuthenticationError "Invalid access token")
  end.

(** Returns [{userId, sessionId}]: the pair. *)
Definition verifyRefreshToken (token : string) (now : Z) : Result (string * string) :=
  match jwtVerify token jwt_refreshSecret now with
  | inr payload => inr (payload_userId payload, payload_sessionId payload)
  | inl message =>
      if includes message "expired"
      then inl (AuthenticationError "Refresh token has expired")
      else inl (AuthenticationError "Invalid refresh token")
  end.

End JWTService.

(** [token.split('.')] on the characters of the token. *)
Fixpoint split_on (sep : ascii) (l cur : list ascii) : list (list ascii) :=
  match l with
  | [] => [rev cur]
  | c :: r =>
      if Ascii.eqb c sep then rev cur :: split_on sep r []
      else split_on sep r (c :: cur)
  end.

(** [s.replace(/a/g, b)] for single characters. *)
Definition replace_char (a b : ascii) (l : list ascii) : list ascii :=
  map (fun c => if Ascii.eqb c a then b else c) l.

(** [decodeToken]: the payload part of the token, base64-decoded and parsed
    as JSON, with no signature check; [JSNull] is the [null] returned for a
    token that has not three parts, has an empty payload part, or whose
    payload does not parse. *)
Definition decodeToken (token : string) : JS.JSValue :=
  match split_on "."%char (list_ascii_of_string token) [] with
  | [_; part1; _] =>
      if JS.is_empty part1 then JS.JSNull
      else
        let base64Payload :=
          replace_char "_"%char "/"%char (replace_char "-"%char "+"%char part1) in
        let paddedPayload :=
          (base64Payload
             ++ repeat "="%char ((4 - List.length base64Payload mod 4) mod 4)%nat)%list in
        let decoded := JS.base64_decode (string_of_list_ascii paddedPayload) in
        match JS.JSON_parse decoded with
        | Some payload => payload
        | None => JS.JSNull
        end
  | _ => JS.JSNull
  end.

Definition isTokenExpired (token : string) (now : Z) : bool :=
  let decoded := decodeToken token in
  if negb (JS.ToBoolean decoded)
     || negb (JS.ToBoolean (JS.get_property decoded "exp"))
  then true
  else JS.lt (JS.mul_const (JS.ToNumber (JS.get_property decoded "exp")) 1000)
             (JS.of_Z now).

(* ===================================================================== *)
(** * The persistent store and the cache *)
(* ===================================================================== *)

(** A row of the [sessions] table (sessions.schema.ts). *)
Record Session : Type := mkSession {
  session_id : string;
  session_userId : string;
  session_accessToken : string;
  session_refreshToken : string;
  session_deviceId : option string;
  session_userAgent : option string;
  session_ipAddress : option string;
  session_expiresAt : Z;
  session_createdAt : Z;
  session_updatedAt : Z
}.

(** The columns of the [users] table that the modelled code reads. *)
Record User : Type := mkUser {
  user_id : string;
  user_email : string;
  user_name : string;
  user_role : string
}.

(** What [getSession] returns, and what the cache holds of it under
    [session:<id>] (the [id] is the key; [JSON.stringify] and [JSON.parse]
    of the four other fields are taken to be inverse). *)
Record SessionData : Type := mkSessionData {
  data_id : string;
  data_userId : string;
  data_accessToken : string;
  data_refreshToken : string;
  data_expiresAt : Z
}.

(** A Redis key with an expiry: the value and the instant (ms) from which
    the key no longer exists. *)
Record Expiring (A : Type) : Type := mkExpiring {
  value : A;
  deadline : Z
}.
Arguments mkExpiring {A} _ _.
Arguments value {A} _.
Arguments deadline {A} _.

(** The Redis server: whether it answers, its string keys (the session
    cache, under the prefix [session:]) and its sorted sets, member to
    score (the rate-limit windows, under the prefix [ratelimit:]).  The
    prefixes keep the two kinds of key apart, so each has its own map. *)
Record Redis : Type := mkRedis {
  reachable : bool;
  strings_db : gmap string (Expiring SessionData);
  zsets_db : gmap string (Expiring (gmap string Z))
}.

Record State : Type := mkState {
  sessions : list Session;
  users : list User;
  redis : Redis
}.

Definition set_sessions (tbl : list Session) (st : State) : State :=
  {| sessions := tbl; users := users st; redis := redis st |}.

Definition set_redis (r : Redis) (st : State) : State :=
  {| sessions := sessions st; users := users st; redis := r |}.

(** [db.select().from(users).where(eq(users.id, userId)).limit(1)] *)
Definition find_user (userId : string) (tbl : list User) : option User :=
  List.find (fun u => String.eqb (user_id u) userId) tbl.

(** ** Redis commands; [None] is a rejected promise *)

Definition live {A : Type} (now : Z) (e : option (Expiring A)) : option A :=
  match e with
  | Some x => if now <? deadline x then Some (value x) else None
  | None => None
  end.

(** [GET key]: [Some None] is the [null] reply. *)
Definition redis_get (key : string) (now : Z) (r : Redis)
  : option (option SessionData) :=
  if reachable r then Some (live now (strings_db r !! key)) else None.

(** [SETEX key seconds value] *)
Definition redis_setex (key : string) (seconds : Z) (v : SessionData)
  (now : Z) (r : Redis) : option Redis :=
  if reachable r then
    Some {| reachable := reachable r;
            strings_db :=
              <[key := mkExpiring v (now + 1000 * seconds)]> (strings_db r);
            zsets_db := zsets_db r |}
  else None.

(** [DEL key] *)
Definition redis_del (key : string) (r : Redis) : option Redis :=
  if reachable r then
    Some {| reachable := reachable r;
            strings_db := delete key (strings_db r);
            zsets_db := delete key (zsets_db r) |}
  else None.

(** The sorted set at [key], empty when the key does not exist. *)
Definition zset_at (key : string) (now : Z) (r : Redis) : gmap string Z :=
  match live now (zsets_db r !! key) with
  | Some z => z
  | None => ∅
  end.

(** [ZREMRANGEBYSCORE key -inf max]: the members with a score above [max]
    stay. *)
Definition zremrangebyscore_upto (max : Z) (z : gmap string Z) : gmap string Z :=
  filter (fun kv => max < kv.2) z.

(** [Math.ceil(ms / 1000)] *)
Definition ceil_seconds (ms : Z) : Z := - ((- ms) / 1000).

(* ===================================================================== *)
(** * session.service.ts *)
(* ===================================================================== *)

Section SessionService.
Context {config : Config}.

Definition session_key (sessionId : string) : string := "session:" +:+ sessionId.

(** [cacheSession]: a failure of the cache is logged, not thrown. *)
Definition cacheSession (sessionId : string) (data : SessionData) (now : Z)
  (st : State) : State :=
  match redis_setex (session_key sessionId) REDIS_TTL_SESSION data now (redis st) with
  | Some r => set_redis r st
  | None => st
  end.

(** [getCachedSession]: [null] on a miss and on a failure of the cache. *)
Definition getCachedSession (sessionId : string) (now : Z) (st : State)
  : option SessionData :=
  match redis_get (session_key sessionId) now (redis st) with
  | Some (Some data) =>
      Some {| data_id := sessionId;
              data_userId := data_userId data;
              data_accessToken := data_accessToken data;
              data_refreshToken := data_refreshToken data;
              data_expiresAt := data_expiresAt data |}
  | Some None => None
  | None => None
  end.

(** [deleteCachedSession]: a failure of the cache is logged, not thrown. *)
Definition deleteCachedSession (sessionId : string) (st : State) : State :=
  match redis_del (session_key sessionId) (redis st) with
  | Some r => set_redis r st
  | None => st
  end.

(** [orderBy(sessions.createdAt)], as a stable insertion sort. *)
Fixpoint insert_by_createdAt (r : Session) (l : list Session) : list Session :=
  match l with
  | [] => [r]
  | x :: xs =>
      if session_createdAt r <=? session_createdAt x then r :: l
      else x :: insert_by_createdAt r xs
  end.

Definition orderBy_createdAt (l : list Session) : list Session :=
  fold_right insert_by_createdAt [] l.

(** [where(and(eq(sessions.userId, userId), gt(sessions.expiresAt, now)))] *)
Definition live_sessions_of (userId : string) (now : Z) (tbl : list Session)
  : list Session :=
  List.filter
    (fun r => String.eqb (session_userId r) userId && (now <? session_expiresAt r))
    tbl.

(** [where(eq(sessions.id, sessionId)).limit(1)] *)
Definition find_session (sessionId : string) (tbl : list Session) : option Session :=
  List.find (fun r => String.eqb (session_id r) sessionId) tbl.

Definition deleteSession (sessionId : string) (st : State) : State :=
  (* Delete from database *)
  let st1 :=
    set_sessions
      (List.filter (fun r => negb (String.eqb (session_id r) sessionId)) (sessions st))
      st in
  (* Delete from cache *)
  deleteCachedSession sessionId st1.

(** The argument of [createSession]. *)
Record NewSession : Type := mkNewSession {
  new_userId : string;
  new_accessToken : string;
  new_refreshToken : string;
  new_deviceId : option string;
  new_userAgent : option string;
  new_ip : option string;
  new_expiresAt : Z
}.

(** [userSessionCount[0]?.count || 0], where the query selected
    [{ count: sessions.id }] from the live sessions of the user: one row
    for each of them, holding its id under the name [count]. *)
Definition first_count_or_zero (userSessionCount : list string) : JS.JSValue :=
  JS.or_else
    (match userSessionCount with
     | c :: _ => JS.JSString c
     | [] => JS.JSUndefined
     end)
    (JS.JSNumber (JS.of_Z 0)).

(** [createSession].  [newId] is the id that [defaultRandom()] draws for
    the inserted row; [createdAt] and [updatedAt] are [defaultNow()]. *)
Definition createSession (data : NewSession) (newId : string) (now : Z)
  (st : State) : string * State :=
  (* Check session limit *)
  let userSessionCount :=
    map session_id (live_sessions_of (new_userId data) now (sessions st)) in
  let count := JS.ToNumber (first_count_or_zero userSessionCount) in
  let st1 :=
    if JS.ge count (JS.of_Z MAX_SESSIONS_PER_USER) then
      (* Delete oldest session *)
      match
        orderBy_createdAt
          (List.filter (fun r => String.eqb (session_userId r) (new_userId data))
             (sessions st))
      with
      | oldestSession :: _ => deleteSession (session_id oldestSession) st
      | [] => st
      end
    else st in
  (* Create session in database *)
  let session :=
    {| session_id := newId;
       session_userId := new_userId data;
       session_accessToken := new_accessToken data;
       session_refreshToken := new_refreshToken data;
       session_deviceId := new_deviceId data;
       session_userAgent := new_userAgent data;
       session_ipAddress := new_ip data;
       session_expiresAt := new_expiresAt data;
       session_createdAt := now;
       session_updatedAt := now |} in
  let st2 := set_sessions (sessions st1 ++ [session]) st1 in
  (* Cache session in Redis *)
  let st3 :=
    cacheSession newId
      {| data_id := newId;
         data_userId := new_userId data;
         data_accessToken := new_accessToken data;
         data_refreshToken := new_refreshToken data;
         data_expiresAt := new_expiresAt data |} now st2 in
  (newId, st3).

Definition getSession (sessionId : string) (now : Z) (st : State)
  : option SessionData * State :=
  (* Try cache first *)
  match getCachedSession sessionId now st with
  | Some cached => (Some cached, st)
  | None =>
      (* Get from database *)
      match find_session sessionId (sessions st) with
      | None => (None, st)
      | Some session =>
          let data :=
            {| data_id := session_id session;
               data_userId := session_userId session;
               data_accessToken := session_accessToken session;
               data_refreshToken := session_refreshToken session;
               data_expiresAt := session_expiresAt session |} in
          (* Cache for next time *)
          (Some data, cacheSession sessionId data now st)
      end
  end.

(** What [getSessionByAccessToken] returns. *)
Record SessionRole : Type := mkSessionRole {
  sr_id : string;
  sr_userId : string;
  sr_role : string
}.

Definition getSessionByAccessToken (accessToken : string) (st : State)
  : option SessionRole :=
  match
    List.find (fun r => String.eqb (session_accessToken r) accessToken) (sessions st)
  with
  | None => None
  | Some session =>
      (* Get user role *)
      let user := find_user (session_userId session) (users st) in
      Some {| sr_id := session_id session;
              sr_userId := session_userId session;
              sr_role :=
                match user with
                | Some u => if String.eqb (user_role u) EmptyString then "staff" else user_role u
                | None => "staff"
                end |}
  end.

(** What [getUserSessions] returns for each session. *)
Record SessionSummary : Type := mkSessionSummary {
  sum_id : string;
  sum_deviceId : option string;
  sum_userAgent : option string;
  sum_ipAddress : option string;
  sum_createdAt : Z;
  sum_expiresAt : Z
}.

Definition getUserSessions (userId : string) (now : Z) (st : State)
  : list SessionSummary :=
  map
    (fun r =>
       {| sum_id := session_id r;
          sum_deviceId := session_deviceId r;
          sum_userAgent := session_userAgent r;
          sum_ipAddress := session_ipAddress r;
          sum_createdAt := session_createdAt r;
          sum_expiresAt := session_expiresAt r |})
    (orderBy_createdAt (live_sessions_of userId now (sessions st))).

Definition updateSessionTokens (sessionId accessToken refreshToken : string)
  (expiresAt now : Z) (st : State) : State :=
  let st1 :=
    set_sessions
      (map
         (fun r =>
            if String.eqb (session_id r) sessionId then
              {| session_id := session_id r;
                 session_userId := session_userId r;
                 session_accessToken := accessToken;
                 session_refreshToken := refreshToken;
                 session_deviceId := session_deviceId r;
                 session_userAgent := session_userAgent r;
                 session_ipAddress := session_ipAddress r;
                 session_expiresAt := expiresAt;
                 session_createdAt := session_createdAt r;
                 session_updatedAt := now |}
            else r)
         (sessions st))
      st in
  (* Update cache *)
  match getSession sessionId now st1 with
  | (Some session, st2) =>
      cacheSession sessionId
        {| data_id := sessionId;
           data_userId := data_userId session;
           data_accessToken := accessToken;
           data_refreshToken := refreshToken;
           data_expiresAt := expiresAt |} now st2
  | (None, st2) => st2
  end.

Definition deleteAllUserSessions (userId : string) (st : State) : nat * State :=
  let userSessions :=
    List.filter (fun r => String.eqb (session_userId r) userId) (sessions st) in
  let st1 :=
    set_sessions
      (List.filter (fun r => negb (String.eqb (session_userId r) userId)) (sessions st))
      st in
  (length userSessions,
   fold_left (fun acc r => deleteCachedSession (session_id r) acc) userSessions st1).


End SessionService.

(* ===================================================================== *)
(** * rate-limit.service.ts *)
(* ===================================================================== *)

Record RateLimitResult : Type := mkRateLimitResult {
  allowed : bool;
  remaining : Z;
  resetAt : Z
}.

Definition ratelimit_key (identifier : string) : string := "ratelimit:" +:+ identifier.

(** The member added for a request: [`${now}-${Math.random()}`], where
    [random] is the text of the number drawn. *)
Definition marker (now : Z) (random : string) : string :=
  pretty now +:+ "-" +:+ random.

(** [checkRateLimit].  The four commands of the pipeline run as one batch:
    purge, count, add, expire.  When Redis is unreachable [exec] rejects
    and the [catch] block answers. *)
Definition checkRateLimit (identifier : string) (maxRequests windowMs : Z)
  (now : Z) (random : string) (st : State) : RateLimitResult * State :=
  if reachable (redis st) then
    let key := ratelimit_key identifier in
    let windowStart := now - windowMs in
    (* Remove old entries outside the window *)
    let purged := zremrangebyscore_upto windowStart (zset_at key now (redis st)) in
    (* Count requests in current window: the reply of ZCARD *)
    let count := Z.of_nat (size purged) in
    (* Add current request *)
    let added := <[marker now random := now]> purged in
    (* Set expiry *)
    let r :=
      {| reachable := reachable (redis st);
         strings_db := strings_db (redis st);
         zsets_db :=
           <[key := mkExpiring added (now + 1000 * ceil_seconds windowMs)]>
             (zsets_db (redis st)) |} in
    ({| allowed := count <? maxRequests;
        remaining := Z.max 0 (maxRequests - count - 1);
        resetAt := now + windowMs |},
     set_redis r st)
  else
    (* Fail open - allow request if rate limiting fails *)
    ({| allowed := true; remaining := maxRequests; resetAt := now + windowMs |}, st).

(* ===================================================================== *)
(** * auth.service.ts and the authenticate middleware *)
(* ===================================================================== *)

Section AuthService.
Context {jose : Jose} {config : Config}.

(** [AuthService.refreshToken]; the result is [{accessToken, refreshToken}]. *)
Definition refreshToken (refreshToken : string) (now : Z) (st : State)
  : Result (string * string) * State :=
  (* Verify refresh token *)
  match verifyRefreshToken refreshToken now with
  | inl e => (inl e, st)
  | inr (_, sessionId) =>
      (* Get session *)
      match getSession sessionId now st with
      | (None, st1) => (inl (AuthenticationError "Session not found"), st1)
      | (Some session, st1) =>
          (* Check if session is expired *)
          if data_expiresAt session <? now then
            (inl (AuthenticationError "Session expired"),
             deleteSession (data_id session) st1)
          else
            (* Get user *)
            match find_user (data_userId session) (users st1) with
            | None => (inl (AuthenticationError "User not found"), st1)
            | Some user =>
                (* Generate new tokens *)
                let newAccessToken :=
                  generateAccessToken (user_id user) (data_id session)
                    (user_role user) now in
                let newRefreshToken :=
                  generateRefreshToken (user_id user) (data_id session) now in
                (* Update session *)
                let expiresAt := now + 7 * 24 * 60 * 60 * 1000 in
                (inr (newAccessToken, newRefreshToken),
                 updateSessionTokens (data_id session) newAccessToken
                   newRefreshToken expiresAt now st1)
            end
      end
  end.

(** What [authenticate] attaches to the context before it calls [next]. *)
Record AuthContext : Type := mkAuthContext {
  ctx_userId : string;
  ctx_sessionId : string;
  ctx_userRole : option string
}.

(** [authenticate]; [authHeader] is [c.req.header('Authorization')]. *)
Definition authenticate (authHeader : option string) (now : Z) (st : State)
  : Result AuthContext * State :=
  match authHeader with
  | None => (inl (AuthenticationError "No authorization token provided"), st)
  | Some header =>
      if negb (String.prefix "Bearer " header) then
        (inl (AuthenticationError "No authorization token provided"), st)
      else
        let token := String.substring 7 (String.length header - 7) header in
        (* Verify JWT token *)
        match verifyAccessToken token now with
        | inl e => (inl e, st)
        | inr payload =>
            (* Get session from database *)
            match getSession (payload_sessionId payload) now st with
            | (None, st1) => (inl (AuthenticationError "Session not found"), st1)
            | (Some session, st1) =>
                (* Check if session is expired *)
                if data_expiresAt session <? now then
                  (inl (AuthenticationError "Session expired"),
                   deleteSession (data_id session) st1)
                (* Verify token matches session *)
                else if negb (String.eqb (data_accessToken session) token) then
                  (inl (AuthenticationError "Invalid token"), st1)
                else
                  (inr {| ctx_userId := payload_userId payload;
                          ctx_sessionId := payload_sessionId payload;
                          ctx_userRole := payload_role payload |}, st1)
            end
        end
  end.

End AuthService.

(* ===================================================================== *)
(** * An instance of the library interface *)
(* ===================================================================== *)

(** A token format without cryptography: the secret and the payload,
    serialised one after the other.  It shows that the interface of the
    library and its law can be met, and lets the scenarios below run. *)
Module PlainCodec.

(** A string, each character behind a tick, closed by a dot. *)
Fixpoint enc_string (s k : string) : string :=
  match s with
  | EmptyString => String "."%char k
  | String c r => String "'"%char (String c (enc_string r k))
  end.

Fixpoint dec_string (t : string) : option (string * string) :=
  match t with
  | String "."%char k => Some (EmptyString, k)
  | String "'"%char (String c r) =>
      match dec_string r with
      | Some (s, k) => Some (String c s, k)
      | None => None
      end
  | _ => None
  end.

(** A positive number, least significant bit first, closed by a dot. *)
Fixpoint enc_positive (p : positive) (k : string) : string :=
  match p with
  | xH => String "."%char k
  | xO q => String "0"%char (enc_positive q k)
  | xI q => String "1"%char (enc_positive q k)
  end.

Fixpoint dec_positive (t : string) : option (positive * string) :=
  match t with
  | String "."%char k => Some (xH, k)
  | String "0"%char r =>
      match dec_positive r with
      | Some (q, k) => Some (xO q, k)
      | None => None
      end
  | String "1"%char r =>
      match dec_positive r with
      | Some (q, k) => Some (xI q, k)
      | None => None
      end
  | _ => None
  end.

Definition enc_Z (z : Z) (k : string) : string :=
  match z with
  | Z0 => String "z"%char k
  | Zpos p => String "p"%char (enc_positive p k)
  | Zneg p => String "n"%char (enc_positive p k)
  end.

Definition dec_Z (t : string) : option (Z * string) :=
  match t with
  | String "z"%char k => Some (Z0, k)
  | String "p"%char r =>
      match dec_positive r with
      | Some (p, k) => Some (Zpos p, k)
      | None => None
      end
  | String "n"%char r =>
      match dec_positive r with
      | Some (p, k) => Some (Zneg p, k)
      | None => None
      end
  | _ => None
  end.

(** An optional field: [S] and the value, or [N]. *)
Definition enc_option {A : Type} (enc : A -> string -> string)
  (o : option A) (k : string) : string :=
  match o with
  | Some a => String "S"%char (enc a k)
  | None => String "N"%char k
  end.

Definition dec_option {A : Type} (dec : string -> option (A * string))
  (t : string) : option (option A * string) :=
  match t with
  | String "S"%char r =>
      match dec r with
      | Some (a, k) => Some (Some a, k)
      | None => None
      end
  | String "N"%char k => Some (None, k)
  | _ => None
  end.

Definition sign (secret : string) (payload : JWTPayload) : string :=
  enc_string secret
    (enc_string (payload_userId payload)
       (enc_string (payload_sessionId payload)
          (enc_option enc_string (payload_role payload)
             (enc_option enc_Z (payload_iat payload)
                (enc_option enc_Z (payload_exp payload) EmptyString))))).

Definition verify (secret token : string) : option JWTPayload :=
  match dec_string token with
  | Some (secret', t1) =>
      if negb (String.eqb secret' secret) then None
      else
        match dec_string t1 with
        | Some (userId, t2) =>
            match dec_string t2 with
            | Some (sessionId, t3) =>
                match dec_option dec_string t3 with
                | Some (role, t4) =>
                    match dec_option dec_Z t4 with
                    | Some (iat, t5) =>
                        match dec_option dec_Z t5 with
                        | Some (exp, EmptyString) =>
                            Some {| payload_userId := userId;
                                    payload_sessionId := sessionId;
                                    payload_role := role;
                                    payload_iat := iat;
                                    payload_exp := exp |}
                        | _ => None
                        end
                    | None => None
                    end
                | None => None
                end
            | None => None
            end
        | None => None
        end
  | None => None
  end.

Definition jose : Jose :=
  {| jws_sign := sign;
     jws_verify := verify;
     jose_failure_message := fun _ => "signature verification failed";
     jose_expired_message :=
       String "034"%char ("exp" +:+ String "034"%char " claim timestamp check failed") |}.

End PlainCodec.

(** The configuration with the defaults of the repository: 15 minutes,
    7 days, 10 sessions for a user, a cache entry kept 24 hours. *)
Definition default_config : Config :=
  {| jwt_accessSecret := "access-secret-access-secret-0000";
     jwt_refreshSecret := "refresh-secret-refresh-secret-00";
     jwt_accessExpiry := 15 * 60;
     jwt_refreshExpiry := 7 * 24 * 60 * 60;
     MAX_SESSIONS_PER_USER := 10;
     REDIS_TTL_SESSION := 24 * 60 * 60 |}.

(** The same with [MAX_SESSIONS_PER_USER = 2]. *)
Definition config_max2 : Config :=
  {| jwt_accessSecret := "access-secret-access-secret-0000";
     jwt_refreshSecret := "refresh-secret-refresh-secret-00";
     jwt_accessExpiry := 15 * 60;
     jwt_refreshExpiry := 7 * 24 * 60 * 60;
     MAX_SESSIONS_PER_USER := 2;
     REDIS_TTL_SESSION := 24 * 60 * 60 |}.

Definition empty_redis : Redis :=
  {| reachable := true; strings_db := ∅; zsets_db := ∅ |}.


Definition empty_state : State :=
  {| sessions := []; users := []; redis := empty_redis |}.

(* ===================================================================== *)
(** * Predicates of the specification and scenarios *)
(* ===================================================================== *)

(** The text form of a [uuid] column: groups of 8, 4, 4, 4 and 12
    hexadecimal digits separated by hyphens. *)
Fixpoint is_uuid_groups (groups : list nat) (l : list ascii) : bool :=
  match groups with
  | [] => false
  | [n] => (length l =? n)%nat && forallb JS.is_hex l
  | n :: gs =>
      (length (firstn n l) =? n)%nat && forallb JS.is_hex (firstn n l)
      && match skipn n l with
         | c :: r => (JS.code c =? 45) && is_uuid_groups gs r
         | [] => false
         end
  end.

Definition is_uuid (s : string) : bool :=
  is_uuid_groups [8; 4; 4; 4; 12]%nat (list_ascii_of_string s).

(** The number of hyphens of a text. *)
Definition hyphens (l : list ascii) : nat :=
  length (List.filter (fun c => JS.code c =? 45) l).

(** The DELETED state of a session: removed from the store and from the
    cache. *)
Definition session_deleted (sessionId : string) (st : State) : Prop :=
  find_session sessionId (sessions st) = None
  /\ strings_db (redis st) !! session_key sessionId = None.

(** The record [getSession] builds from a row. *)
Definition data_of_row (r : Session) : SessionData :=
  {| data_id := session_id r;
     data_userId := session_userId r;
     data_accessToken := session_accessToken r;
     data_refreshToken := session_refreshToken r;
     data_expiresAt := session_expiresAt r |}.




(** Successive [checkRateLimit] calls for one identifier; each call comes
    with its clock reading and its random draw. *)
Fixpoint checkRateLimit_calls (identifier : string) (maxRequests windowMs : Z)
  (calls : list (Z * string)) (st : State) : list RateLimitResult * State :=
  match calls with
  | [] => ([], st)
  | (now, random) :: rest =>
      let (r, st1) := checkRateLimit identifier maxRequests windowMs now random st in
      let (rs, st2) := checkRateLimit_calls identifier maxRequests windowMs rest st1 in
      (r :: rs, st2)
  end.

Module Scenario.

Definition U : string := "11111111-1111-4111-8111-111111111111".
Definition A : string := "aaaaaaaa-0000-4000-8000-000000000001".
Definition B : string := "bbbbbbbb-0000-4000-8000-000000000002".
Definition C : string := "cccccccc-0000-4000-8000-000000000003".

Definition week : Z := 7 * 24 * 60 * 60 * 1000.

Definition owner : User :=
  {| user_id := U; user_email := "u@example.com"; user_name := "U";
     user_role := "owner" |}.

Definition start : State :=
  {| sessions := []; users := [owner]; redis := empty_redis |}.

Definition login (now : Z) : NewSession :=
  {| new_userId := U;
     new_accessToken := "google-access";
     new_refreshToken := "google-refresh";
     new_deviceId := None;
     new_userAgent := None;
     new_ip := None;
     new_expiresAt := now + week |}.

(** Sessions A, B and C created for U at the instants 1000, 2000 and
    3000, with at most two sessions configured for a user. *)
Definition after_A : State := snd (@createSession config_max2 (login 1000) A 1000 start).
Definition after_B : State := snd (@createSession config_max2 (login 2000) B 2000 after_A).
Definition after_C : State := snd (@createSession config_max2 (login 3000) C 3000 after_B).

(** A session of U that expired at the instant 5000, in the store only. *)
Definition expired_row : Session :=
  {| session_id := A; session_userId := U;
     session_accessToken := "access"; session_refreshToken := "refresh";
     session_deviceId := None; session_userAgent := None;
     session_ipAddress := None;
     session_expiresAt := 5000; session_createdAt := 1000;
     session_updatedAt := 1000 |}.

Definition with_expired : State :=
  {| sessions := [expired_row]; users := [owner]; redis := empty_redis |}.


(** Tokens issued for session A at the instant 1000. *)
Definition old_access : string :=
  @generateAccessToken PlainCodec.jose default_config U A "owner" 1000.
Definition old_refresh : string :=
  @generateRefreshToken PlainCodec.jose default_config U A 1000.

(** A login of U at the instant [t0]: the session is created, the tokens
    are issued for it and written back on it. *)
Definition t0 : Z := 1000000.
Definition access0 : string :=
  @generateAccessToken PlainCodec.jose default_config U A "owner" t0.
Definition refresh0 : string :=
  @generateRefreshToken PlainCodec.jose default_config U A t0.
Definition payload0 : JWTPayload :=
  {| payload_userId := U;
     payload_sessionId := A;
     payload_role := Some "owner";
     payload_iat := Some 1000;
     payload_exp := Some 1900 |}.
Definition logged_in : State :=
  @updateSessionTokens default_config A access0 refresh0 (t0 + week) t0
    (snd (@createSession default_config (login t0) A t0 start)).

(** Five seconds later the client refreshes: the session now holds a new
    pair of tokens. *)
Definition access1 : string :=
  @generateAccessToken PlainCodec.jose default_config U A "owner" (t0 + 5000).
Definition refresh1 : string :=
  @generateRefreshToken PlainCodec.jose default_config U A (t0 + 5000).
Definition rotated : State :=
  snd (@refreshToken PlainCodec.jose default_config refresh0 (t0 + 5000) logged_in).
Definition rotated_session : SessionData :=
  {| data_id := A;
     data_userId := U;
     data_accessToken := access1;
     data_refreshToken := refresh1;
     data_expiresAt := t0 + 5000 + week |}.

(** A session whose user has no row. *)
Definition orphaned : State :=
  {| sessions := [expired_row]; users := []; redis := empty_redis |}.


End Scenario.


(** The row that [updateSessionTokens] writes in place of [r]. *)
Definition with_tokens (accessToken refreshToken : string) (expiresAt now : Z)
  (r : Session) : Session :=
  {| session_id := session_id r;
     session_userId := session_userId r;
     session_accessToken := accessToken;
     session_refreshToken := refreshToken;
     session_deviceId := session_deviceId r;
     session_userAgent := session_userAgent r;
     session_ipAddress := session_ipAddress r;
     session_expiresAt := expiresAt;
     session_createdAt := session_createdAt r;
     session_updatedAt := now |}.

(* ===================================================================== *)
(** * rate-limit.service.ts: the record of one identifier *)
(* ===================================================================== *)

(** The members and scores that the calls of a list ask [ZADD] to add. *)
Definition window_log (calls : list (Z * string)) : list (string * Z) :=
  map (fun c => (marker (fst c) (snd c), fst c)) calls.

(** What [checkRateLimit] leaves behind after the calls of [log], as far as
    a later call can see it: through the purge of the window that ends at
    its own clock reading. *)
Definition window_invariant (identifier : string) (windowMs : Z)
  (log : list (Z * string)) (st : State) : Prop :=
  reachable (redis st) = true
  /\ forall now,
       Forall (fun c => fst c <= now) log ->
       zremrangebyscore_upto (now - windowMs)
         (zset_at (ratelimit_key identifier) now (redis st))
       = zremrangebyscore_upto (now - windowMs) (list_to_map (window_log log)).

(** The number of calls of [log] inside the window that ends at [now]. *)
Definition window_count (windowMs now : Z) (log : list (Z * string)) : Z :=
  Z.of_nat (length (List.filter (fun c => now - windowMs <? fst c) log)).

(** The answers of a sliding window that counts every earlier call, refused
    or not, whose clock reading is inside the window of the current one:
    the reference that [checkRateLimit_calls] is compared with. *)
Fixpoint sliding_window_results (maxRequests windowMs : Z)
  (log calls : list (Z * string)) : list RateLimitResult :=
  match calls with
  | [] => []
  | c :: rest =>
      {| allowed := window_count windowMs (fst c) log <? maxRequests;
         remaining := Z.max 0 (maxRequests - window_count windowMs (fst c) log - 1);
         resetAt := fst c + windowMs |}
      :: sliding_window_results maxRequests windowMs (log ++ [c]) rest
  end.

(** The calls that were allowed and whose clock reading is in the window
    that ends at [T]. *)
Definition allowed_in_window (windowMs T : Z)
  (calls : list (Z * string)) (results : list RateLimitResult)
  : list ((Z * string) * RateLimitResult) :=
  List.filter
    (fun p => allowed (snd p) && (T - windowMs <? fst (fst p)) && (fst (fst p) <=? T))
    (combine calls results).

(** Five requests of one client: three in the first two seconds, one
    half a minute in, one just after the first has left the window. *)
Definition five_calls : list (Z * string) :=
  [(1000, "0.11"); (2000, "0.22"); (2000, "0.33"); (30000, "0.44");
   (61500, "0.55")].

(* ===================================================================== *)
(** * jwt.service.ts: the two kinds of token *)
(* ===================================================================== *)

(** A signature scheme is keyed when a token signed under one secret does
    not verify under another. *)
Definition JoseKeyed (jose : Jose) : Prop :=
  forall secret secret' payload,
    secret <> secret' -> jws_verify secret' (jws_sign secret payload) = None.

(** A configuration that uses one secret for both kinds of token; the
    schema of config/env.ts asks each for 32 characters and does not compare
    them. *)
Definition config_one_secret : Config :=
  {| jwt_accessSecret := "one-secret-one-secret-one-secret";
     jwt_refreshSecret := "one-secret-one-secret-one-secret";
     jwt_accessExpiry := 15 * 60;
     jwt_refreshExpiry := 7 * 24 * 60 * 60;
     MAX_SESSIONS_PER_USER := 10;
     REDIS_TTL_SESSION := 24 * 60 * 60 |}.

(** The number of dots of a token. *)
Definition dots (token : string) : nat :=
  length (List.filter (Ascii.eqb "."%char) (list_ascii_of_string token)).

(* ===================================================================== *)
(** * Dates and numbers as text *)
(* ===================================================================== *)

(** The civil date of a day number (days since 1970-01-01) in the
    proleptic Gregorian calendar: year, month (1 to 12), day of the month. *)
Definition civil_of_days (day : Z) : Z * Z * Z :=
  let z := day + 719468 in
  let era := z / 146097 in
  let doe := z - era * 146097 in
  let yoe := (doe - doe / 1460 + doe / 36524 - doe / 146096) / 365 in
  let doy := doe - (365 * yoe + yoe / 4 - yoe / 100) in
  let mp := (5 * doy + 2) / 153 in
  let d := doy - (153 * mp + 2) / 5 + 1 in
  let m := if mp <? 10 then mp + 3 else mp - 9 in
  let y := yoe + era * 400 in
  (if m <=? 2 then y + 1 else y, m, d).

(** [DayFromYear(y)] of ECMAScript: the day number of the first of January
    of year [y]. *)
Definition DayFromYear (y : Z) : Z :=
  365 * (y - 1970) + (y - 1969) / 4 - (y - 1901) / 100 + (y - 1601) / 400.

Definition InLeapYear (y : Z) : bool :=
  (y mod 4 =? 0) && (negb (y mod 100 =? 0) || (y mod 400 =? 0)).

(** The days of the year before the first day of month [m]. *)
Definition days_before_month (y m : Z) : Z :=
  let leap := if InLeapYear y then 1 else 0 in
  match m with
  | 1 => 0 | 2 => 31 | 3 => 59 + leap | 4 => 90 + leap | 5 => 120 + leap
  | 6 => 151 + leap | 7 => 181 + leap | 8 => 212 + leap | 9 => 243 + leap
  | 10 => 273 + leap | 11 => 304 + leap | _ => 334 + leap
  end.

Definition days_in_month (y m : Z) : Z :=
  match m with
  | 2 => if InLeapYear y then 29 else 28
  | 4 | 6 | 9 | 11 => 30
  | _ => 31
  end.

(** The day number of a civil date, by the definitions of ECMAScript. *)
Definition days_of_civil (ymd : Z * Z * Z) : Z :=
  let '(y, m, d) := ymd in DayFromYear y + days_before_month y m + (d - 1).

(** Whether [civil_of_days day] is a date of the calendar with the day
    number [day]. *)
Definition civil_ok (day : Z) : bool :=
  let '(y, m, d) := civil_of_days day in
  (1 <=? m) && (m <=? 12) && (1 <=? d) && (d <=? days_in_month y m)
  && (days_of_civil (y, m, d) =? day).

(** The decimal digits of a natural number, padded with zeros on the left
    to [width] characters. *)
Definition pad (width : nat) (n : Z) : string :=
  let digits := pretty n in
  string_of_list_ascii (repeat "0"%char (width - String.length digits)) +:+ digits.

(** [new Date(t).toISOString()]; [None] is the [RangeError] thrown for an
    invalid date, a time value beyond 8.64e15 milliseconds on either side. *)
Definition toISOString (t : Z) : option string :=
  if Z.abs t <=? 8640000000000000 then
    let ms := t mod 86400000 in
    let '(y, m, d) := civil_of_days (t / 86400000) in
    let year :=
      if (0 <=? y) && (y <=? 9999) then pad 4 y
      else (if y <? 0 then "-" else "+") +:+ pad 6 (Z.abs y) in
    Some (year +:+ "-" +:+ pad 2 m +:+ "-" +:+ pad 2 d +:+ "T"
          +:+ pad 2 (ms / 3600000) +:+ ":" +:+ pad 2 (ms / 60000 mod 60) +:+ ":"
          +:+ pad 2 (ms / 1000 mod 60) +:+ "." +:+ pad 3 (ms mod 1000) +:+ "Z")
  else None.

(** [n.toString()] for an integer in the range where a JavaScript number
    holds it exactly. *)
Definition Number_toString (n : Z) : string := pretty n.

(* ===================================================================== *)
(** * rate-limit.service.ts: the other methods *)
(* ===================================================================== *)

(** [RATE_LIMIT] of utils/constants.ts *)
Definition RATE_LIMIT_WINDOW_MS : Z := 15 * 60 * 1000.
Definition RATE_LIMIT_MAX_AUTH_REQUESTS : Z := 5.
Definition RATE_LIMIT_MAX_UPLOAD_REQUESTS : Z := 10.
Definition RATE_LIMIT_MAX_BULK_REQUESTS : Z := 2.



(** [resetRateLimit]: a failure of the store is logged, not thrown. *)
Definition resetRateLimit (identifier : string) (st : State) : State :=
  match redis_del (ratelimit_key identifier) (redis st) with
  | Some r => set_redis r st
  | None => st
  end.

(** [ZREMRANGEBYSCORE key -inf max] on the stored key: a key that has
    expired is gone, a sorted set left without members is removed, and the
    expiry of the key is kept. *)
Definition redis_zremrangebyscore (key : string) (max now : Z) (r : Redis)
  : option Redis :=
  if reachable r then
    Some {| reachable := reachable r;
            strings_db := strings_db r;
            zsets_db :=
              partial_alter
                (fun entry =>
                   match entry with
                   | Some e =>
                       if now <? deadline e then
                         let z := zremrangebyscore_upto max (value e) in
                         if bool_decide (z = ∅) then None
                         else Some (mkExpiring z (deadline e))
                       else None
                   | None => None
                   end)
                key (zsets_db r) |}
  else None.

(** [ZCARD key] *)
Definition redis_zcard (key : string) (now : Z) (r : Redis) : option Z :=
  if reachable r then Some (Z.of_nat (size (zset_at key now r))) else None.

(** [getRemainingRequests]: the window is purged and counted, and nothing
    is added. *)
Definition getRemainingRequests (identifier : string) (maxRequests windowMs : Z)
  (now : Z) (st : State) : Z * State :=
  let key := ratelimit_key identifier in
  let windowStart := now - windowMs in
  (* Remove old entries and count *)
  match redis_zremrangebyscore key windowStart now (redis st) with
  | Some r =>
      match redis_zcard key now r with
      | Some count => (Z.max 0 (maxRequests - count), set_redis r st)
      | None => (maxRequests, set_redis r st)
      end
  | None => (maxRequests, st)
  end.

(* ===================================================================== *)
(** * rate-limit.middleware.ts *)
(* ===================================================================== *)

(** How a middleware ends: it calls [next], or it throws. *)
Inductive Outcome : Type :=
  | CalledNext
  | Threw (e : AppError).

(** The response headers a middleware has set, in the order of the calls
    of [c.header], and how it ended. *)
Record Reply : Type := mkReply {
  headers : list (string * string);
  outcome : Outcome
}.

(** [a || b] on a header that may be absent: the empty string is falsy. *)
Definition header_or (a : option string) (b : string) : string :=
  match a with
  | Some (String c s) => String c s
  | _ => b
  end.

(** [rateLimitByIP(maxRequests, windowMs)], on the two headers it reads.
    [now] is the clock of [checkRateLimit], [later] the clock read for
    [Retry-After].  A [RangeError] of [toISOString] lands in the [catch]
    block, which calls [next]. *)
Definition rateLimitByIP (maxRequests windowMs : Z)
  (x_forwarded_for x_real_ip : option string)
  (now later : Z) (random : string) (st : State) : Reply * State :=
  let ip := header_or x_forwarded_for (header_or x_real_ip "unknown") in
  let identifier := "ip:" +:+ ip in
  let (result, st1) := checkRateLimit identifier maxRequests windowMs now random st in
  (* Add rate limit headers *)
  let limit_headers :=
    [("X-RateLimit-Limit", Number_toString maxRequests);
     ("X-RateLimit-Remaining", Number_toString (remaining result))] in
  match toISOString (resetAt result) with
  | None => ({| headers := limit_headers; outcome := CalledNext |}, st1)
  | Some iso =>
      let reset_headers := (limit_headers ++ [("X-RateLimit-Reset", iso)])%list in
      if negb (allowed result) then
        ({| headers :=
              (reset_headers
                 ++ [("Retry-After",
                      Number_toString (ceil_seconds (resetAt result - later)))])%list;
            outcome :=
              Threw (RateLimitError "Too many requests, please try again later") |},
         st1)
      else ({| headers := reset_headers; outcome := CalledNext |}, st1)
  end.

(** [rateLimitByUser(maxRequests, windowMs)]; [userId] is
    [c.get('userId')]. *)
Definition rateLimitByUser (maxRequests windowMs : Z) (userId : option string)
  (x_forwarded_for x_real_ip : option string)
  (now later : Z) (random : string) (st : State) : Reply * State :=
  match userId with
  | Some (String c s) =>
      let identifier := "user:" +:+ String c s in
      let (result, st1) :=
        checkRateLimit identifier maxRequests windowMs now random st in
      let limit_headers :=
        [("X-RateLimit-Limit", Number_toString maxRequests);
         ("X-RateLimit-Remaining", Number_toString (remaining result))] in
      match toISOString (resetAt result) with
      | None => ({| headers := limit_headers; outcome := CalledNext |}, st1)
      | Some iso =>
          let reset_headers := (limit_headers ++ [("X-RateLimit-Reset", iso)])%list in
          if negb (allowed result) then
            ({| headers :=
                  (reset_headers
                     ++ [("Retry-After",
                          Number_toString (ceil_seconds (resetAt result - later)))])%list;
                outcome :=
                  Threw (RateLimitError "Too many requests, please try again later") |},
             st1)
          else ({| headers := reset_headers; outcome := CalledNext |}, st1)
      end
  | _ =>
      (* Fall back to IP-based if not authenticated *)
      rateLimitByIP maxRequests windowMs x_forwarded_for x_real_ip now later random st
  end.

Definition strictRateLimit :=
  rateLimitByIP RATE_LIMIT_MAX_AUTH_REQUESTS RATE_LIMIT_WINDOW_MS.

Definition uploadRateLimit :=
  rateLimitByUser RATE_LIMIT_MAX_UPLOAD_REQUESTS RATE_LIMIT_WINDOW_MS.

Definition bulkRateLimit :=
  rateLimitByUser RATE_LIMIT_MAX_BULK_REQUESTS RATE_LIMIT_WINDOW_MS.

(** A request as the rate-limit middleware meets it: the two headers it
    reads, the clock readings of [checkRateLimit] and of [Retry-After], and
    the random draw of the marker. *)
Record Request : Type := mkRequest {
  x_forwarded_for : option string;
  x_real_ip : option string;
  clock : Z;
  clock_later : Z;
  draw : string
}.

(** The address the middleware takes for the client's. *)
Definition client_ip (q : Request) : string :=
  header_or (x_forwarded_for q) (header_or (x_real_ip q) "unknown").

(** The clock reading and the draw of a request. *)
Definition call_of (q : Request) : Z * string := (clock q, draw q).

(** Successive requests through [rateLimitByIP]. *)
Fixpoint rateLimitByIP_requests (maxRequests windowMs : Z)
  (requests : list Request) (st : State) : list Reply * State :=
  match requests with
  | [] => ([], st)
  | q :: rest =>
      let (reply, st1) :=
        rateLimitByIP maxRequests windowMs (x_forwarded_for q) (x_real_ip q)
          (clock q) (clock_later q) (draw q) st in
      let (replies, st2) := rateLimitByIP_requests maxRequests windowMs rest st1 in
      (reply :: replies, st2)
  end.

(** How the middleware ends on an answer of [checkRateLimit] whose
    [resetAt] is a valid date. *)
Definition outcome_of (result : RateLimitResult) : Outcome :=
  if allowed result then CalledNext
  else Threw (RateLimitError "Too many requests, please try again later").

(** [civil_ok] on the [n] days from [day] on. *)
Fixpoint civil_ok_from (n : nat) (day : Z) : bool :=
  match n with
  | O => true
  | S k => civil_ok day && civil_ok_from k (day + 1)
  end.

(* ===================================================================== *)
(** * auth.middleware.ts: optionalAuth *)
(* ===================================================================== *)

Section OptionalAuth.
Context {jose : Jose} {config : Config}.

(** [optionalAuth]: what it attaches to the context before it calls
    [next], if anything.  It calls [next] on every path; an error of the
    token check lands in the [catch] block. *)
Definition optionalAuth (authHeader : option string) (now : Z) (st : State)
  : option AuthContext * State :=
  match authHeader with
  | None => (None, st)
  | Some header =>
      if negb (String.prefix "Bearer " header) then (None, st)
      else
        let token := String.substring 7 (String.length header - 7) header in
        match verifyAccessToken token now with
        | inl _ => (None, st)
        | inr payload =>
            match getSession (payload_sessionId payload) now st with
            | (Some session, st1) =>
                if now <=? data_expiresAt session then
                  (Some {| ctx_userId := payload_userId payload;
                           ctx_sessionId := payload_sessionId payload;
                           ctx_userRole := payload_role payload |}, st1)
                else (None, st1)
            | (None, st1) => (None, st1)
            end
        end
  end.

End OptionalAuth.

(* ===================================================================== *)
(** * auth.service.ts: login, logout and logout from all devices *)
(* ===================================================================== *)







Section AuthFlows.
Context {jose : Jose} {config : Config}.




End AuthFlows.

(* ===================================================================== *)
(** * error-handler.ts *)
(* ===================================================================== *)

(** The classes that [errorHandler] tests for. *)
Inductive ErrorClass : Type :=
  | ClassZodError
  | ClassAppError
  | ClassValidationError
  | ClassAuthenticationError
  | ClassAuthorizationError
  | ClassNotFoundError
  | ClassConflictError
  | ClassRateLimitError.

(** The class of an error of the application: [AppError] itself or one of
    the six classes of types/common.ts that extend it. *)
Inductive AppErrorClass : Type :=
  | IsAppError
  | IsValidationError
  | IsAuthenticationError
  | IsAuthorizationError
  | IsNotFoundError
  | IsConflictError
  | IsRateLimitError.

(** An error as the handler meets it: a [ZodError] with its issues (path
    and message), an instance of [AppError] or of a class that extends it,
    with the fields of [AppError], or any other error, with its [code],
    [detail] and [stack] properties ([JSUndefined] when absent). *)
Inductive ErrorObject : Type :=
  | ZodError (issues : list (list string * string))
  | AppErrorObject (class : AppErrorClass) (message code : string)
      (statusCode : Z) (details : JS.JSValue)
  | OtherError (message : string) (code detail stack : JS.JSValue).

(** [err instanceof C] *)
Definition instanceof (err : ErrorObject) (C : ErrorClass) : bool :=
  match err, C with
  | ZodError _, ClassZodError => true
  | AppErrorObject _ _ _ _ _, ClassAppError => true
  | AppErrorObject IsValidationError _ _ _ _, ClassValidationError => true
  | AppErrorObject IsAuthenticationError _ _ _ _, ClassAuthenticationError => true
  | AppErrorObject IsAuthorizationError _ _ _ _, ClassAuthorizationError => true
  | AppErrorObject IsNotFoundError _ _ _ _, ClassNotFoundError => true
  | AppErrorObject IsConflictError _ _ _ _, ClassConflictError => true
  | AppErrorObject IsRateLimitError _ _ _ _, ClassRateLimitError => true
  | _, _ => false
  end.

(** [err.message]; the message of a [ZodError] is not read. *)
Definition error_message (err : ErrorObject) : string :=
  match err with
  | ZodError _ => EmptyString
  | AppErrorObject _ message _ _ _ => message
  | OtherError message _ _ _ => message
  end.

(** [err.code] *)
Definition error_code (err : ErrorObject) : JS.JSValue :=
  match err with
  | ZodError _ => JS.JSUndefined
  | AppErrorObject _ _ code _ _ => JS.JSString code
  | OtherError _ code _ _ => code
  end.

(** [err.code] of an instance of [AppError], a string by its
    constructor. *)
Definition app_error_code (err : ErrorObject) : string :=
  match err with
  | AppErrorObject _ _ code _ _ => code
  | _ => EmptyString
  end.

(** [err.statusCode] *)
Definition error_statusCode (err : ErrorObject) : Z :=
  match err with
  | AppErrorObject _ _ _ statusCode _ => statusCode
  | _ => 500
  end.

(** [err.details] *)
Definition error_details (err : ErrorObject) : JS.JSValue :=
  match err with
  | AppErrorObject _ _ _ _ details => details
  | _ => JS.JSUndefined
  end.

(** [err.detail] *)
Definition error_detail (err : ErrorObject) : JS.JSValue :=
  match err with
  | OtherError _ _ detail _ => detail
  | _ => JS.JSUndefined
  end.

(** [err.stack] *)
Definition error_stack (err : ErrorObject) : JS.JSValue :=
  match err with
  | OtherError _ _ _ stack => stack
  | _ => JS.JSUndefined
  end.

(** The [details] member of the response: absent, a value copied from the
    error, the fields made of the issues of a [ZodError] (the grouping of
    [formatZodError] is not modelled), the [detail] of a database error, or
    the [stack]. *)
Inductive ResponseDetails : Type :=
  | NoDetails
  | Details (details : JS.JSValue)
  | ZodFields (issues : list (list string * string))
  | PgDetail (detail : JS.JSValue)
  | Stack (stack : JS.JSValue).

(** The JSON response [{ success: false, error: { code, message,
    details } }] and its HTTP status. *)
Record ErrorResponse : Type := mkErrorResponse {
  response_status : Z;
  response_code : string;
  response_message : string;
  response_details : ResponseDetails
}.

(** The errors that the modelled services and middlewares throw, as
    objects of their classes (types/common.ts). *)
Definition error_object_of (e : AppError) : ErrorObject :=
  match e with
  | AuthenticationError message =>
      AppErrorObject IsAuthenticationError message "AUTHENTICATION_ERROR" 401
        JS.JSUndefined
  | RateLimitError message =>
      AppErrorObject IsRateLimitError message "RATE_LIMIT_EXCEEDED" 429
        JS.JSUndefined
  end.

(** [errorHandler]; [isDevelopment] is [config.app.isDevelopment]. *)
Definition errorHandler (isDevelopment : bool) (err : ErrorObject) : ErrorResponse :=
  (* Handle Zod validation errors *)
  if instanceof err ClassZodError then
    {| response_status := 400;
       response_code := "VALIDATION_ERROR";
       response_message := "Validation failed";
       response_details :=
         match err with ZodError issues => ZodFields issues | _ => NoDetails end |}
  (* Handle custom application errors *)
  else if instanceof err ClassAppError then
    {| response_status := error_statusCode err;
       response_code := app_error_code err;
       response_message := error_message err;
       response_details :=
         if JS.ToBoolean (error_details err) then Details (error_details err)
         else NoDetails |}
  (* Handle specific error types *)
  else if instanceof err ClassValidationError then
    {| response_status := 400;
       response_code := "VALIDATION_ERROR";
       response_message := error_message err;
       response_details :=
         if JS.ToBoolean (error_details err) then Details (error_details err)
         else NoDetails |}
  else if instanceof err ClassAuthenticationError then
    {| response_status := 401;
       response_code := "AUTHENTICATION_ERROR";
       response_message := error_message err;
       response_details := NoDetails |}
  else if instanceof err ClassAuthorizationError then
    {| response_status := 403;
       response_code := "AUTHORIZATION_ERROR";
       response_message := error_message err;
       response_details := NoDetails |}
  else if instanceof err ClassNotFoundError then
    {| response_status := 404;
       response_code := "NOT_FOUND";
       response_message := error_message err;
       response_details := NoDetails |}
  else if instanceof err ClassConflictError then
    {| response_status := 409;
       response_code := "CONFLICT";
       response_message := error_message err;
       response_details :=
         if JS.ToBoolean (error_details err) then Details (error_details err)
         else NoDetails |}
  else if instanceof err ClassRateLimitError then
    {| response_status := 429;
       response_code := "RATE_LIMIT_EXCEEDED";
       response_message := error_message err;
       response_details := NoDetails |}
  else
    let pg_details :=
      if isDevelopment && JS.ToBoolean (error_detail err)
      then PgDetail (error_detail err) else NoDetails in
    let internal :=
      {| response_status := 500;
         response_code := "INTERNAL_SERVER_ERROR";
         response_message :=
           if isDevelopment then error_message err
           else "An unexpected error occurred";
         response_details :=
           if isDevelopment && JS.ToBoolean (error_stack err)
           then Stack (error_stack err) else NoDetails |} in
    (* Handle PostgreSQL errors *)
    match error_code err with
    | JS.JSString code =>
        (* Unique constraint violation *)
        if String.eqb code "23505" then
          {| response_status := 409;
             response_code := "ALREADY_EXISTS";
             response_message := "A record with this value already exists";
             response_details := pg_details |}
        (* Foreign key violation *)
        else if String.eqb code "23503" then
          {| response_status := 400;
             response_code := "VALIDATION_ERROR";
             response_message := "Referenced record does not exist";
             response_details := pg_details |}
        (* Not null violation *)
        else if String.eqb code "23502" then
          {| response_status := 400;
             response_code := "VALIDATION_ERROR";
             response_message := "Required field is missing";
             response_details := pg_details |}
        else internal
    | _ => internal
    end.

(** [errorHandler] without the six branches for the classes that extend
    [AppError]. *)
Definition errorHandler_without_subclass_branches (isDevelopment : bool)
  (err : ErrorObject) : ErrorResponse :=
  if instanceof err ClassZodError then
    {| response_status := 400;
       response_code := "VALIDATION_ERROR";
       response_message := "Validation failed";
       response_details :=
         match err with ZodError issues => ZodFields issues | _ => NoDetails end |}
  else if instanceof err ClassAppError then
    {| response_status := error_statusCode err;
       response_code := app_error_code err;
       response_message := error_message err;
       response_details :=
         if JS.ToBoolean (error_details err) then Details (error_details err)
         else NoDetails |}
  else
    let pg_details :=
      if isDevelopment && JS.ToBoolean (error_detail err)
      then PgDetail (error_detail err) else NoDetails in
    let internal :=
      {| response_status := 500;
         response_code := "INTERNAL_SERVER_ERROR";
         response_message :=
           if isDevelopment then error_message err
           else "An unexpected error occurred";
         response_details :=
           if isDevelopment && JS.ToBoolean (error_stack err)
           then Stack (error_stack err) else NoDetails |} in
    match error_code err with
    | JS.JSString code =>
        if String.eqb code "23505" then
          {| response_status := 409;
             response_code := "ALREADY_EXISTS";
             response_message := "A record with this value already exists";
             response_details := pg_details |}
        else if String.eqb code "23503" then
          {| response_status := 400;
             response_code := "VALIDATION_ERROR";
             response_message := "Referenced record does not exist";
             response_details := pg_details |}
        else if String.eqb code "23502" then
          {| response_status := 400;
             response_code := "VALIDATION_ERROR";
             response_message := "Required field is missing";
             response_details := pg_details |}
        else internal
    | _ => internal
    end.

(* ===================================================================== *)
(** * google-oauth.service.ts *)
(* ===================================================================== *)

(** The [tokens] that [oauth2Client.getToken] answers with. *)
Record GoogleTokens : Type := mkGoogleTokens {
  access_token : JS.JSValue;
  refresh_token : JS.JSValue;
  expiry_date : JS.JSValue
}.

(** What a [try] block ends with when it throws: an error of the
    application, or an error of a library. *)
Inductive Caught : Type :=
  | CaughtAppError (e : AppError)
  | CaughtLibraryError.

(** The [try] block of [getTokensFromCode]; [reply] is the answer of
    [oauth2Client.getToken(code)], [None] when it rejects. *)
Definition getTokensFromCode_try (reply : option GoogleTokens) (now : Z)
  : Caught + (JS.JSValue * JS.JSValue * JS.JSValue) :=
  match reply with
  | None => inl CaughtLibraryError
  | Some tokens =>
      if negb (JS.ToBoolean (access_token tokens)) then
        inl (CaughtAppError (AuthenticationError "No access token received from Google"))
      else if negb (JS.ToBoolean (refresh_token tokens)) then
        inl (CaughtAppError (AuthenticationError "No refresh token received from Google"))
      else
        inr (access_token tokens,
             refresh_token tokens,
             JS.or_else (expiry_date tokens)
               (JS.JSNumber (JS.of_Z (now + 3600 * 1000))))
  end.

(** [getTokensFromCode]: the [catch] block throws its own error for
    whatever the [try] block threw.  The result is
    [{accessToken, refreshToken, expiresIn}]. *)
Definition getTokensFromCode (reply : option GoogleTokens) (now : Z)
  : Result (JS.JSValue * JS.JSValue * JS.JSValue) :=
  match getTokensFromCode_try reply now with
  | inl _ => inl (AuthenticationError "Failed to authenticate with Google")
  | inr tokens => inr tokens
  end.

(** The [data] that [oauth2.userinfo.get] answers with. *)
Record GoogleUserData : Type := mkGoogleUserData {
  google_id : JS.JSValue;
  google_email : JS.JSValue;
  google_name : JS.JSValue;
  google_picture : JS.JSValue
}.

(** What [getUserInfo] returns; [info_picture] is [JSUndefined] when
    absent. *)
Record GoogleUserInfo : Type := mkGoogleUserInfo {
  info_id : JS.JSValue;
  info_email : JS.JSValue;
  info_name : JS.JSValue;
  info_picture : JS.JSValue
}.

(** The [try] block of [getUserInfo]; [reply] is the answer of
    [oauth2.userinfo.get()], [None] when it rejects. *)
Definition getUserInfo_try (reply : option GoogleUserData) : Caught + GoogleUserInfo :=
  match reply with
  | None => inl CaughtLibraryError
  | Some data =>
      if negb (JS.ToBoolean (google_id data)) || negb (JS.ToBoolean (google_email data))
      then inl (CaughtAppError (AuthenticationError "Incomplete user data from Google"))
      else
        inr {| info_id := google_id data;
               info_email := google_email data;
               info_name := JS.or_else (google_name data) (google_email data);
               info_picture :=
                 match google_picture data with
                 | JS.JSNull => JS.JSUndefined
                 | picture => picture
                 end |}
  end.

Definition getUserInfo (reply : option GoogleUserData) : Result GoogleUserInfo :=
  match getUserInfo_try reply with
  | inl _ => inl (AuthenticationError "Failed to retrieve user information")
  | inr info => inr info
  end.

(* ===================================================================== *)
(** * Scenarios for the flows above *)
(* ===================================================================== *)

(** Six requests from one address within three seconds. *)
Definition six_requests : list Request :=
  map (fun t => {| x_forwarded_for := Some "203.0.113.7";
                   x_real_ip := None;
                   clock := t;
                   clock_later := t + 2;
                   draw := "0.5" |})
      [1000; 1500; 2000; 2500; 3000; 3500].

(** Three requests at the same instant, each with another
    [x-forwarded-for] value. *)
Definition rotating_requests : list Request :=
  map (fun a => {| x_forwarded_for := Some a;
                   x_real_ip := Some "198.51.100.1";
                   clock := 1000;
                   clock_later := 1001;
                   draw := "0.5" |})
      ["10.0.0.1"; "10.0.0.2"; "10.0.0.3"].


(* ===================================================================== *)
(** * The JavaScript model on small inputs *)
(* ===================================================================== *)

Example StringToNumber_decimal : JS.StringToNumber " -1.5e3 " = JS.Dec (-15) 2.
Proof. reflexivity. Qed.

Example StringToNumber_hex : JS.StringToNumber "0x1F" = JS.Dec 31 0.
Proof. reflexivity. Qed.

Example StringToNumber_blank : JS.StringToNumber "  " = JS.Dec 0 0.
Proof. reflexivity. Qed.

Example StringToNumber_unit : JS.StringToNumber "12px" = JS.NaN.
Proof. reflexivity. Qed.

Example StringToNumber_uuid :
  JS.StringToNumber "1234567e-1234-4234-8234-123456789012" = JS.NaN.
Proof. reflexivity. Qed.

Example ge_NaN : JS.ge JS.NaN (JS.of_Z 10) = false.
Proof. reflexivity. Qed.

Example lt_NaN : JS.lt JS.NaN (JS.of_Z 10) = false.
Proof. reflexivity. Qed.

Example ToNumber_array :
  JS.ToNumber (JS.JSArray [JS.JSArray [JS.JSString "12"]]) = JS.Dec 12 0.
Proof. reflexivity. Qed.

Example JSON_parse_array :
  JS.JSON_parse " [1, 2.5e1, true, null, [], {}] "
  = Some (JS.JSArray
            [JS.JSNumber (JS.Dec 1 0); JS.JSNumber (JS.Dec 25 0);
             JS.JSBool true; JS.JSNull; JS.JSArray []; JS.JSObject []]).
Proof. reflexivity. Qed.

Example JSON_parse_trailing_comma : JS.JSON_parse "[1,]" = None.
Proof. reflexivity. Qed.

Example JSON_parse_leading_zero : JS.JSON_parse "01" = None.
Proof. reflexivity. Qed.

(** The payload part below is the base64url text of the object with the
    single member [exp] = 1700000000. *)
Example decodeToken_exp :
  decodeToken "h.eyJleHAiOjE3MDAwMDAwMDB9.s"
  = JS.JSObject [("exp", JS.JSNumber (JS.Dec 1700000000 0))].
Proof. reflexivity. Qed.

Example isTokenExpired_past :
  isTokenExpired "h.eyJleHAiOjE3MDAwMDAwMDB9.s" 1700000000001 = true.
Proof. reflexivity. Qed.

Example isTokenExpired_future :
  isTokenExpired "h.eyJleHAiOjE3MDAwMDAwMDB9.s" 1699999999999 = false.
Proof. reflexivity. Qed.

Example marker_text : marker 1700000000000 "0.25" = "1700000000000-0.25".
Proof. reflexivity. Qed.

(* ===================================================================== *)
(** * Properties of the number conversion *)
(* ===================================================================== *)

Section NumberFacts.
Import JS.

Lemma hyphens_app (a b : list ascii) :
  hyphens (a ++ b)%list = (hyphens a + hyphens b)%nat.
Proof. unfold hyphens. now rewrite List.filter_app, length_app. Qed.

Lemma hyphens_cons (c : ascii) (l : list ascii) :
  hyphens (c :: l) = ((if (code c =? 45)%Z then 1 else 0) + hyphens l)%nat.
Proof. unfold hyphens. simpl. now destruct (code c =? 45). Qed.

Lemma hyphens_rev (l : list ascii) : hyphens (rev l) = hyphens l.
Proof.
  induction l as [|c l IH]; [reflexivity|].
  simpl rev. rewrite hyphens_app, IH, !hyphens_cons.
  change (hyphens []) with 0%nat. lia.
Qed.

(** A run of characters that are not hyphens has none. *)
Lemma hyphens_forallb (p : ascii -> bool) (l : list ascii) :
  (forall c, p c = true -> (code c =? 45) = false) ->
  forallb p l = true -> hyphens l = 0%nat.
Proof.
  intros Hp. induction l as [|c l IH]; [reflexivity|].
  simpl. intros H. apply andb_prop in H as [Hc Hl].
  rewrite hyphens_cons, (Hp _ Hc), IH by assumption. reflexivity.
Qed.

Lemma is_digit_not_hyphen (c : ascii) : is_digit c = true -> (code c =? 45) = false.
Proof. unfold is_digit. lia. Qed.

Lemma is_hex_not_hyphen (c : ascii) : is_hex c = true -> (code c =? 45) = false.
Proof. unfold is_hex, is_digit. lia. Qed.

Lemma is_oct_not_hyphen (c : ascii) : is_oct c = true -> (code c =? 45) = false.
Proof. unfold is_oct. lia. Qed.

Lemma is_bin_not_hyphen (c : ascii) : is_bin c = true -> (code c =? 45) = false.
Proof. unfold is_bin. lia. Qed.

Lemma is_str_ws_not_hyphen (c : ascii) : is_str_ws c = true -> (code c =? 45) = false.
Proof. unfold is_str_ws. lia. Qed.

(** [span] cuts the text in two and the first part satisfies the test. *)
Lemma span_spec (p : ascii -> bool) (l a b : list ascii) :
  span p l = (a, b) -> l = (a ++ b)%list /\ forallb p a = true.
Proof.
  revert a b. induction l as [|c l IH]; simpl; intros a b H.
  - inversion H. split; reflexivity.
  - destruct (p c) eqn:Hc.
    + destruct (span p l) as [a' b'] eqn:Hs. inversion H; subst.
      destruct (IH a' b eq_refl) as [-> Ha]. simpl. now rewrite Hc, Ha.
    + inversion H; subst. split; reflexivity.
Qed.

Lemma span_hyphens (l a b : list ascii) :
  span is_digit l = (a, b) -> hyphens l = hyphens b.
Proof.
  intros H. apply span_spec in H as [-> Ha].
  rewrite hyphens_app, (hyphens_forallb is_digit) by auto using is_digit_not_hyphen.
  reflexivity.
Qed.

Lemma drop_while_ws_hyphens (l : list ascii) :
  hyphens (drop_while is_str_ws l) = hyphens l.
Proof.
  induction l as [|c l IH]; [reflexivity|]. simpl.
  destruct (is_str_ws c) eqn:Hc; [|reflexivity].
  rewrite IH, hyphens_cons, (is_str_ws_not_hyphen _ Hc). reflexivity.
Qed.

Lemma trim_hyphens (l : list ascii) : hyphens (trim l) = hyphens l.
Proof.
  unfold trim.
  now rewrite hyphens_rev, drop_while_ws_hyphens, hyphens_rev, drop_while_ws_hyphens.
Qed.

Lemma exponent_part_hyphens (l : list ascii) (x : Z) :
  exponent_part l = Some x -> (hyphens l <= 1)%nat.
Proof.
  destruct l as [|c r]; [intros _; cbn; lia|].
  unfold exponent_part.
  destruct ((code c =? 101) || (code c =? 69)) eqn:He; [|discriminate].
  assert (Hc : (code c =? 45) = false) by lia.
  rewrite hyphens_cons, Hc.
  assert (Hgo : forall r', (hyphens r <= 1 + hyphens r')%nat ->
    forall sgn, (let (ds, rest) := span is_digit r' in
       if is_empty ds || negb (is_empty rest) then None
       else Some (sgn * digits_val 10 digit_val ds)) = Some x ->
    (0 + hyphens r <= 1)%nat).
  { intros r' Hr sgn. destruct (span is_digit r') as [ds rest] eqn:Hs.
    apply span_hyphens in Hs. destruct rest; simpl.
    - change (hyphens []) with 0%nat in Hs. intros _. lia.
    - rewrite orb_true_r. discriminate. }
  destruct r as [|s r0]; [apply (Hgo []); lia|].
  assert (Hs : (hyphens (s :: r0) <= 1 + hyphens r0)%nat)
    by (rewrite hyphens_cons; destruct (code s =? 45); lia).
  destruct (code s =? 43) eqn:H43; [now apply (Hgo r0)|].
  destruct (code s =? 45) eqn:H45; [now apply (Hgo r0)|].
  apply (Hgo (s :: r0)). lia.
Qed.

Lemma unsigned_decimal_hyphens (l : list ascii) (v : JSNum) :
  unsigned_decimal l = Some v -> (hyphens l <= 1)%nat.
Proof.
  unfold unsigned_decimal.
  destruct (String.eqb (string_of_list_ascii l) "Infinity") eqn:Hinf.
  - apply String.eqb_eq in Hinf. intros _.
    rewrite <- (list_ascii_of_string_of_list_ascii l), Hinf.
    vm_compute. lia.
  - destruct (span is_digit l) as [ip r1] eqn:Hip.
    apply span_hyphens in Hip. rewrite Hip.
    assert (Hgo : forall fp r2, (hyphens r1 <= hyphens r2)%nat ->
      (if is_empty ip && is_empty fp then None
       else match exponent_part r2 with
            | Some x => Some (Dec (digits_val 10 digit_val (ip ++ fp))
                                  (x - Z.of_nat (length fp)))
            | None => None
            end) = Some v -> (hyphens r1 <= 1)%nat).
    { intros fp r2 Hr. destruct (is_empty ip && is_empty fp); [discriminate|].
      destruct (exponent_part r2) as [x|] eqn:Hx; [|discriminate].
      apply exponent_part_hyphens in Hx. intros _. lia. }
    destruct r1 as [|c r]; [apply (Hgo [] []); lia|].
    destruct (code c =? 46) eqn:Hdot.
    + destruct (span is_digit r) as [fp r2] eqn:Hfp.
      apply span_hyphens in Hfp. apply Hgo.
      rewrite hyphens_cons. assert ((code c =? 45) = false) as -> by lia. lia.
    + apply Hgo. lia.
Qed.

Lemma str_decimal_hyphens (l : list ascii) (v : JSNum) :
  str_decimal l = Some v -> (hyphens l <= 2)%nat.
Proof.
  destruct l as [|c r]; [discriminate|]. unfold str_decimal.
  destruct (code c =? 43) eqn:H43.
  - intros H. apply unsigned_decimal_hyphens in H. rewrite hyphens_cons.
    destruct (code c =? 45); lia.
  - destruct (code c =? 45) eqn:H45.
    + destruct (unsigned_decimal r) as [u|] eqn:Hu; [|discriminate].
      apply unsigned_decimal_hyphens in Hu. intros _.
      rewrite hyphens_cons, H45. lia.
    + intros H. apply unsigned_decimal_hyphens in H. lia.
Qed.

Lemma non_decimal_hyphens (l : list ascii) (v : JSNum) :
  non_decimal l = Some v -> hyphens l = 0%nat.
Proof.
  destruct l as [|z [|x ds]]; try discriminate. unfold non_decimal.
  destruct ((code z =? 48) && negb (is_empty ds)) eqn:Hz; [|discriminate].
  assert (Hds : forall p, (forall c, p c = true -> (code c =? 45) = false) ->
            forall k, (((code x =? k) || (code x =? k - 32)) && forallb p ds) = true ->
            (k =? 120) || (k =? 111) || (k =? 98) = true ->
            hyphens (z :: x :: ds) = 0%nat).
  { intros p Hp k H Hk. apply andb_prop in H as [Hx Hall].
    rewrite !hyphens_cons, (hyphens_forallb p ds Hp Hall).
    assert ((code z =? 45) = false) as -> by lia.
    assert ((code x =? 45) = false) as -> by lia. reflexivity. }
  destruct (((code x =? 120) || (code x =? 88)) && forallb is_hex ds) eqn:H1.
  { intros _. apply (Hds is_hex is_hex_not_hyphen 120); [exact H1|reflexivity]. }
  destruct (((code x =? 111) || (code x =? 79)) && forallb is_oct ds) eqn:H2.
  { intros _. apply (Hds is_oct is_oct_not_hyphen 111); [exact H2|reflexivity]. }
  destruct (((code x =? 98) || (code x =? 66)) && forallb is_bin ds) eqn:H3.
  { intros _. apply (Hds is_bin is_bin_not_hyphen 98); [exact H3|reflexivity]. }
  discriminate.
Qed.

(** No numeric literal has three hyphens: a text with three or more
    converts to NaN. *)
Lemma StringToNumber_hyphens (s : string) :
  (3 <= hyphens (list_ascii_of_string s))%nat -> StringToNumber s = NaN.
Proof.
  intros H. unfold StringToNumber.
  rewrite <- trim_hyphens in H.
  destruct (trim (list_ascii_of_string s)) as [|c l] eqn:Ht.
  { cbn in H. lia. }
  simpl is_empty. cbv iota.
  destruct (non_decimal (c :: l)) as [n|] eqn:Hn.
  { apply non_decimal_hyphens in Hn. lia. }
  destruct (str_decimal (c :: l)) as [n|] eqn:Hd; [|reflexivity].
  apply str_decimal_hyphens in Hd. lia.
Qed.

Lemma is_uuid_groups_hyphens (groups : list nat) (l : list ascii) :
  is_uuid_groups groups l = true -> (length groups <= 1 + hyphens l)%nat.
Proof.
  revert l. induction groups as [|n gs IH]; intros l; [discriminate|].
  destruct gs as [|m gs']; [intros _; simpl; lia|].
  change (is_uuid_groups (n :: m :: gs') l)
    with ((length (firstn n l) =? n)%nat && forallb is_hex (firstn n l)
          && match skipn n l with
             | c :: r => (code c =? 45) && is_uuid_groups (m :: gs') r
             | [] => false
             end).
  intros H. apply andb_prop in H as [_ H].
  destruct (skipn n l) as [|c r] eqn:Hs; [discriminate|].
  apply andb_prop in H as [Hc Hr]. apply IH in Hr.
  rewrite <- (firstn_skipn n l), hyphens_app, Hs, hyphens_cons, Hc.
  simpl length in *. lia.
Qed.

(** [Number(id)] is NaN for the id of a row. *)
Lemma Number_uuid (s : string) :
  is_uuid s = true -> ToNumber (JSString s) = NaN.
Proof.
  intros H. apply is_uuid_groups_hyphens in H. simpl length in H.
  apply StringToNumber_hyphens. lia.
Qed.

End NumberFacts.

(* ===================================================================== *)
(** * The JSON parser does not depend on its fuel *)
(* ===================================================================== *)

Section JSONFacts.
Import JS.

(** The parsers only ever return a shorter text. *)
Lemma drop_while_length p l : (length (drop_while p l) <= length l)%nat.
Proof. induction l as [|c l IH]; simpl; [lia|]. destruct (p c); simpl; lia. Qed.

Lemma skip_ws_length l : (length (skip_ws l) <= length l)%nat.
Proof. apply drop_while_length. Qed.

Lemma span_length p l a b : span p l = (a, b) -> (length b <= length l)%nat.
Proof.
  intros H. apply span_spec in H as [-> _]. rewrite length_app. lia.
Qed.

Lemma json_string_length l : forall acc s r,
  json_string l acc = Some (s, r) -> (length r < length l)%nat.
Proof.
  induction l as [l IH] using (well_founded_induction (Wf_nat.well_founded_ltof _ (@length ascii))).
  unfold Wf_nat.ltof in IH.
  intros acc s r. destruct l as [|c l]; [discriminate|]. simpl.
  destruct (code c =? 34)%Z. { intros [= _ <-]. simpl. lia. }
  destruct (code c <? 32)%Z; [discriminate|].
  destruct (code c =? 92)%Z.
  - destruct l as [|e r1]; [discriminate|].
    destruct (code e =? 117)%Z.
    + destruct r1 as [|h1 [|h2 [|h3 [|h4 r2]]]]; try discriminate.
      match goal with |- (if ?b then _ else _) = _ -> _ => destruct b end;
        [|discriminate].
      intros H. apply IH in H; simpl in *; lia.
    + destruct (simple_escape e); [|discriminate].
      intros H. apply IH in H; simpl in *; lia.
  - intros H. apply IH in H; simpl in *; lia.
Qed.

Lemma strip_prefix_length p : forall l r,
  strip_prefix p l = Some r -> (length r + length p = length l)%nat.
Proof.
  induction p as [|a p IH]; intros l r; simpl.
  - intros [= ->]. lia.
  - destruct l as [|b l]; [discriminate|]. destruct (Ascii.eqb a b); [|discriminate].
    intros H. apply IH in H. simpl. lia.
Qed.

Lemma json_number_length l n r :
  json_number l = Some (n, r) -> (length r < length l)%nat.
Proof.
  unfold json_number.
  set (sl := match l with | c :: r0 => if (code c =? 45)%Z then ((-1)%Z, r0) else (1%Z, l) | [] => (1%Z, l) end).
  assert (Hsl : (length (snd sl) <= length l)%nat).
  { unfold sl. destruct l as [|c r0]; simpl; [lia|]. destruct (code c =? 45)%Z; simpl; lia. }
  destruct sl as [sgn l1]. simpl in Hsl.
  destruct l1 as [|d r0]; [discriminate|].
  destruct (negb (is_digit d)) eqn:Hd; [discriminate|].
  set (ipr := if (code d =? 48)%Z then ([d], r0) else span is_digit (d :: r0)).
  assert (Hip : (length (snd ipr) <= length r0)%nat).
  { unfold ipr. destruct (code d =? 48)%Z; simpl; [lia|].
    apply negb_false_iff in Hd. rewrite Hd.
    destruct (span is_digit r0) as [a b] eqn:Hs. simpl.
    now apply span_length in Hs. }
  destruct ipr as [ip r1]. simpl in Hip.
  set (frac := match r1 with | c :: r => if (code c =? 46)%Z then let (fp, r2) := span is_digit r in if is_empty fp then None else Some (fp, r2) else Some ([], r1) | [] => Some ([], r1) end).
  assert (Hfrac : forall fp r2, frac = Some (fp, r2) -> (length r2 <= length r1)%nat).
  { unfold frac. intros fp r2. destruct r1 as [|c r']; [intros [= _ <-]; simpl; lia|].
    destruct (code c =? 46)%Z; [|intros [= _ <-]; lia].
    destruct (span is_digit r') as [a b] eqn:Hs. apply span_length in Hs.
    destruct (is_empty a); [discriminate|]. intros [= _ <-]. simpl. lia. }
  destruct frac as [[fp r2]|]; [|discriminate].
  specialize (Hfrac fp r2 eq_refl).
  match goal with |- match ?e with _ => _ end = _ -> _ => set (ex := e) end.
  assert (Hex : forall x r5, ex = Some (x, r5) -> (length r5 <= length r2)%nat).
  { unfold ex. intros x r5. destruct r2 as [|c r']; [intros [= _ <-]; simpl; lia|].
    destruct ((code c =? 101)%Z || (code c =? 69)%Z); [|intros [= _ <-]; lia].
    match goal with |- (let '(es, r3) := ?e in _) = _ -> _ => set (sg := e) end.
    assert (Hsg : (length (snd sg) <= length r')%nat).
    { unfold sg. destruct r' as [|s0 r'']; simpl; [lia|].
      destruct (code s0 =? 43)%Z; simpl; [lia|]. destruct (code s0 =? 45)%Z; simpl; lia. }
    destruct sg as [es r3]. simpl in Hsg.
    destruct (span is_digit r3) as [ed r4] eqn:Hs. apply span_length in Hs.
    destruct (is_empty ed); [discriminate|]. intros [= _ <-]. simpl. lia. }
  destruct ex as [[x r5]|]; [|discriminate].
  specialize (Hex x r5 eq_refl). intros [= _ <-]. simpl in *. lia.
Qed.

Ltac case_if :=
  match goal with
  | |- context [if ?b then _ else _] => destruct b eqn:?
  end.

(** A value, a list of elements or a list of members takes at least one
    character. *)
Lemma json_lengths f :
  (forall l v r, json_value f l = Some (v, r) -> (length r < length l)%nat)
  /\ (forall l acc v r, json_elements f l acc = Some (v, r) -> (length r < length l)%nat)
  /\ (forall l acc v r, json_members f l acc = Some (v, r) -> (length r < length l)%nat).
Proof.
  induction f as [|f (IHv & IHe & IHm)]; [repeat split; intros; discriminate|].
  repeat split.
  - intros l v r. cbn [json_value].
    pose proof (skip_ws_length l) as Hl.
    destruct (skip_ws l) as [|c l1]; [discriminate|]. simpl in Hl.
    case_if.
    { destruct (json_string l1 []) as [[s r']|] eqn:Hs; [|discriminate].
      apply json_string_length in Hs. intros [= _ <-]. lia. }
    case_if.
    { pose proof (skip_ws_length l1) as Hl1.
      destruct (skip_ws l1) as [|c' r']; [discriminate|]. simpl in Hl1.
      case_if; [intros [= _ <-]; lia|]. intros H. apply IHe in H. lia. }
    case_if.
    { pose proof (skip_ws_length l1) as Hl1.
      destruct (skip_ws l1) as [|c' r']; [discriminate|]. simpl in Hl1.
      case_if; [intros [= _ <-]; lia|]. intros H. apply IHm in H. lia. }
    destruct (strip_prefix _ (c :: l1)) as [r'|] eqn:H1.
    { apply strip_prefix_length in H1. intros [= _ <-]. simpl in *. lia. }
    clear H1. destruct (strip_prefix _ (c :: l1)) as [r'|] eqn:H1.
    { apply strip_prefix_length in H1. intros [= _ <-]. simpl in *. lia. }
    clear H1. destruct (strip_prefix _ (c :: l1)) as [r'|] eqn:H1.
    { apply strip_prefix_length in H1. intros [= _ <-]. simpl in *. lia. }
    destruct (json_number (c :: l1)) as [[n r']|] eqn:Hn; [|discriminate].
    apply json_number_length in Hn. intros [= _ <-]. simpl in *. lia.
  - intros l acc v r. cbn [json_elements].
    destruct (json_value f l) as [[v0 r0]|] eqn:Hv; [|discriminate].
    apply IHv in Hv. pose proof (skip_ws_length r0) as Hr0.
    destruct (skip_ws r0) as [|c r']; [discriminate|]. simpl in Hr0.
    case_if. { intros H. apply IHe in H. lia. }
    case_if; [|discriminate]. intros [= _ <-]. lia.
  - intros l acc v r. cbn [json_members].
    pose proof (skip_ws_length l) as Hl.
    destruct (skip_ws l) as [|q l1]; [discriminate|]. simpl in Hl.
    case_if; [|discriminate].
    destruct (json_string l1 []) as [[k r1]|] eqn:Hs; [|discriminate].
    apply json_string_length in Hs.
    pose proof (skip_ws_length r1) as Hr1.
    destruct (skip_ws r1) as [|c r2]; [discriminate|]. simpl in Hr1.
    case_if; [|discriminate].
    destruct (json_value f r2) as [[v0 r3]|] eqn:Hv; [|discriminate].
    apply IHv in Hv. pose proof (skip_ws_length r3) as Hr3.
    destruct (skip_ws r3) as [|c3 r4]; [discriminate|]. simpl in Hr3.
    case_if. { intros H. apply IHm in H. lia. }
    case_if; [|discriminate]. intros [= _ <-]. lia.
Qed.

(** Beyond [2 * n + 1] units for a text of [n] characters, more fuel
    changes nothing. *)
Lemma json_fuel_stable f :
  (forall l, (2 * length l + 1 <= f)%nat -> json_value (S f) l = json_value f l)
  /\ (forall l acc, (2 * length l + 2 <= f)%nat ->
        json_elements (S f) l acc = json_elements f l acc)
  /\ (forall l acc, (2 * length l + 2 <= f)%nat ->
        json_members (S f) l acc = json_members f l acc).
Proof.
  induction f as [|f (IHv & IHe & IHm)]; [repeat split; intros; lia|].
  repeat split.
  - intros l Hf. cbn [json_value].
    pose proof (skip_ws_length l) as Hl.
    destruct (skip_ws l) as [|c l1]; [reflexivity|]. simpl in Hl.
    case_if; [reflexivity|]. case_if.
    { pose proof (skip_ws_length l1) as Hl1.
      destruct (skip_ws l1) as [|c' r']; [reflexivity|].
      case_if; [reflexivity|]. apply IHe. lia. }
    case_if; [|reflexivity].
    pose proof (skip_ws_length l1) as Hl1.
    destruct (skip_ws l1) as [|c' r']; [reflexivity|].
    case_if; [reflexivity|]. apply IHm. lia.
  - intros l acc Hf. cbn [json_elements].
    rewrite IHv by lia.
    destruct (json_value f l) as [[v0 r0]|] eqn:Hv; [|reflexivity].
    apply (proj1 (json_lengths f)) in Hv. pose proof (skip_ws_length r0) as Hr0.
    destruct (skip_ws r0) as [|c r']; [reflexivity|]. simpl in Hr0.
    case_if; [|reflexivity]. apply IHe. lia.
  - intros l acc Hf. cbn [json_members].
    pose proof (skip_ws_length l) as Hl.
    destruct (skip_ws l) as [|q l1]; [reflexivity|]. simpl in Hl.
    case_if; [|reflexivity].
    destruct (json_string l1 []) as [[k r1]|] eqn:Hs; [|reflexivity].
    apply json_string_length in Hs.
    pose proof (skip_ws_length r1) as Hr1.
    destruct (skip_ws r1) as [|c r2]; [reflexivity|]. simpl in Hr1.
    case_if; [|reflexivity].
    rewrite IHv by lia.
    destruct (json_value f r2) as [[v0 r3]|] eqn:Hv; [|reflexivity].
    apply (proj1 (json_lengths f)) in Hv. pose proof (skip_ws_length r3) as Hr3.
    destruct (skip_ws r3) as [|c3 r4]; [reflexivity|]. simpl in Hr3.
    case_if; [|reflexivity]. apply IHm. lia.
Qed.

(** The fuel that [JSON_parse] gives is enough: any larger amount gives
    the same answer. *)
Lemma JSON_parse_fuel (s : string) (extra : nat) :
  let l := list_ascii_of_string s in
  json_value (2 * length l + 2 + extra) l = json_value (2 * length l + 2) l.
Proof.
  intros l. induction extra as [|k IH]; [now rewrite Nat.add_0_r|].
  rewrite Nat.add_succ_r, (proj1 (json_fuel_stable _)) by lia. exact IH.
Qed.

End JSONFacts.

(* ===================================================================== *)
(** * Properties of the session service *)
(* ===================================================================== *)

Section SessionFacts.
Context {config : Config}.

Lemma sessions_cacheSession sid data now st :
  sessions (cacheSession sid data now st) = sessions st.
Proof.
  unfold cacheSession. now destruct (redis_setex _ _ _ _ _).
Qed.

Lemma users_cacheSession sid data now st :
  users (cacheSession sid data now st) = users st.
Proof.
  unfold cacheSession. now destruct (redis_setex _ _ _ _ _).
Qed.

Lemma sessions_deleteCachedSession sid st :
  sessions (deleteCachedSession sid st) = sessions st.
Proof.
  unfold deleteCachedSession. now destruct (redis_del _ _).
Qed.

Lemma sessions_getSession sid now st :
  sessions (snd (getSession sid now st)) = sessions st.
Proof.
  unfold getSession. destruct (getCachedSession sid now st); [reflexivity|].
  destruct (find_session sid (sessions st)); [|reflexivity].
  apply sessions_cacheSession.
Qed.

Lemma users_getSession sid now st :
  users (snd (getSession sid now st)) = users st.
Proof.
  unfold getSession. destruct (getCachedSession sid now st); [reflexivity|].
  destruct (find_session sid (sessions st)); [|reflexivity].
  apply users_cacheSession.
Qed.

Lemma reachable_cacheSession sid data now st :
  reachable (redis (cacheSession sid data now st)) = reachable (redis st).
Proof.
  unfold cacheSession, redis_setex.
  now destruct (reachable (redis st)) eqn:E.
Qed.

Lemma reachable_getSession sid now st :
  reachable (redis (snd (getSession sid now st))) = reachable (redis st).
Proof.
  unfold getSession. destruct (getCachedSession sid now st); [reflexivity|].
  destruct (find_session sid (sessions st)); [|reflexivity].
  apply reachable_cacheSession.
Qed.

(** No row with the deleted id is left in the table. *)
Lemma find_session_filter_out sid (tbl : list Session) :
  find_session sid
    (List.filter (fun r => negb (String.eqb (session_id r) sid)) tbl) = None.
Proof.
  unfold find_session. induction tbl as [|r tbl IH]; [reflexivity|].
  simpl. destruct (String.eqb (session_id r) sid) eqn:E; simpl; [exact IH|].
  now rewrite E.
Qed.

Lemma find_session_deleteSession sid st :
  find_session sid (sessions (deleteSession sid st)) = None.
Proof.
  unfold deleteSession. rewrite sessions_deleteCachedSession. simpl.
  apply find_session_filter_out.
Qed.

(** With the cache reachable, [deleteSession] removes the cached copy. *)
Lemma cache_deleteSession sid st :
  reachable (redis st) = true ->
  strings_db (redis (deleteSession sid st)) !! session_key sid = None.
Proof.
  intros Hup. unfold deleteSession, deleteCachedSession, redis_del. simpl.
  rewrite Hup. simpl. apply lookup_delete_eq.
Qed.

(** The count the cap is compared with is never a count: it is NaN when
    the user has a live session and 0 when the user has none. *)
Lemma createSession_count (ids : list string) :
  Forall (fun i => is_uuid i = true) ids ->
  JS.ToNumber (first_count_or_zero ids)
  = match ids with [] => JS.of_Z 0 | _ => JS.NaN end.
Proof.
  intros H. destruct ids as [|c ids]; [reflexivity|].
  inversion H as [|? ? Hc _]; subst.
  unfold first_count_or_zero, JS.or_else.
  assert (Hne : JS.ToBoolean (JS.JSString c) = true).
  { destruct c; [discriminate Hc|reflexivity]. }
  rewrite Hne. now apply Number_uuid.
Qed.

(** Hence [createSession] evicts nothing: the table grows by the new row,
    whatever the number of live sessions of the user. *)
Lemma createSession_appends (data : NewSession) (newId : string) (now : Z)
  (st : State) :
  0 < MAX_SESSIONS_PER_USER ->
  Forall (fun r => is_uuid (session_id r) = true) (sessions st) ->
  sessions (snd (createSession data newId now st))
  = sessions st
      ++ [{| session_id := newId;
             session_userId := new_userId data;
             session_accessToken := new_accessToken data;
             session_refreshToken := new_refreshToken data;
             session_deviceId := new_deviceId data;
             session_userAgent := new_userAgent data;
             session_ipAddress := new_ip data;
             session_expiresAt := new_expiresAt data;
             session_createdAt := now;
             session_updatedAt := now |}].
Proof.
  intros Hmax Hids. unfold createSession. cbn [snd].
  rewrite sessions_cacheSession. cbn [sessions set_sessions].
  rewrite createSession_count.
  2:{ apply Forall_map. unfold live_sessions_of.
      rewrite Forall_forall in *. intros r Hr.
      apply list_elem_of_In, List.filter_In in Hr as [Hr _].
      apply Hids. now apply list_elem_of_In. }
  destruct (map session_id _) as [|c ids].
  - unfold JS.ge, JS.compare_lt, JS.of_Z, JS.dec_ltb. simpl.
    replace (0 <? MAX_SESSIONS_PER_USER * 1) with true by lia. reflexivity.
  - reflexivity.
Qed.

End SessionFacts.

(** C1: with [MAX_SESSIONS_PER_USER = 2], after sessions A, B and C are
    created in that order for user U, [getUserSessions(U)] returns A, B
    and C, and A, the oldest session, is still in the table: nothing was
    evicted and three live sessions exist where the cap is two. *)
Theorem createSession_scenario_keeps_three :
  map sum_id (@getUserSessions Scenario.U 4000 Scenario.after_C)
  = [Scenario.A; Scenario.B; Scenario.C]
  /\ map session_id (sessions Scenario.after_C)
     = [Scenario.A; Scenario.B; Scenario.C]
  /\ @MAX_SESSIONS_PER_USER config_max2 = 2.
Proof. vm_compute. repeat split; reflexivity. Qed.

(* ===================================================================== *)
(** * The instance of the library meets its law *)
(* ===================================================================== *)

Lemma PlainCodec_dec_enc_string (s k : string) :
  PlainCodec.dec_string (PlainCodec.enc_string s k) = Some (s, k).
Proof.
  induction s as [|c s IH]; [reflexivity|].
  cbn [PlainCodec.enc_string PlainCodec.dec_string]. now rewrite IH.
Qed.

Lemma PlainCodec_dec_enc_positive (p : positive) (k : string) :
  PlainCodec.dec_positive (PlainCodec.enc_positive p k) = Some (p, k).
Proof.
  induction p as [p IH|p IH|]; cbn [PlainCodec.enc_positive PlainCodec.dec_positive];
    [now rewrite IH|now rewrite IH|reflexivity].
Qed.

Lemma PlainCodec_dec_enc_Z (z : Z) (k : string) :
  PlainCodec.dec_Z (PlainCodec.enc_Z z k) = Some (z, k).
Proof.
  destruct z; cbn [PlainCodec.enc_Z PlainCodec.dec_Z];
    [reflexivity| |]; now rewrite PlainCodec_dec_enc_positive.
Qed.

Lemma PlainCodec_dec_enc_option {A : Type} (enc : A -> string -> string)
  (dec : string -> option (A * string)) :
  (forall a k, dec (enc a k) = Some (a, k)) ->
  forall o k,
    PlainCodec.dec_option dec (PlainCodec.enc_option enc o k) = Some (o, k).
Proof.
  intros H [a|] k; cbn [PlainCodec.enc_option PlainCodec.dec_option];
    [now rewrite H|reflexivity].
Qed.

Lemma PlainCodec_correct : JoseCorrect PlainCodec.jose.
Proof.
  intros secret [u s r i e]. cbn [jws_sign jws_verify PlainCodec.jose].
  unfold PlainCodec.sign, PlainCodec.verify.
  cbn [payload_userId payload_sessionId payload_role payload_iat payload_exp].
  rewrite PlainCodec_dec_enc_string, String.eqb_refl. cbn [negb].
  rewrite !PlainCodec_dec_enc_string.
  rewrite (PlainCodec_dec_enc_option _ _ PlainCodec_dec_enc_string).
  rewrite !(PlainCodec_dec_enc_option _ _ PlainCodec_dec_enc_Z).
  reflexivity.
Qed.

(* ===================================================================== *)
(** * Properties of the token service *)
(* ===================================================================== *)

(** What [verifyAccessToken] answers on a token that [generateAccessToken]
    made: the comparison of [exp] with the seconds clock decides. *)
Lemma verify_generated_access_token {jose : Jose} {config : Config}
  (Hjose : JoseCorrect jose) (u s r : string) (issued now : Z) :
  verifyAccessToken (generateAccessToken u s r issued) now
  = if epoch issued + jwt_accessExpiry <=? epoch now then
      inl (AuthenticationError
             (if includes jose_expired_message "expired"
              then "Access token has expired" else "Invalid access token"))
    else
      inr {| payload_userId := u;
             payload_sessionId := s;
             payload_role := Some r;
             payload_iat := Some (epoch issued);
             payload_exp := Some (epoch issued + jwt_accessExpiry) |}.
Proof.
  unfold verifyAccessToken, jwtVerify, generateAccessToken.
  rewrite Hjose. cbn [payload_exp].
  destruct (epoch issued + jwt_accessExpiry <=? epoch now); [|reflexivity].
  now destruct (includes jose_expired_message "expired").
Qed.

(** C4: a token made by [generateAccessToken] for [u], [s] and [r] verifies
    to the payload with that user, session and role, as long as the
    configured expiry has not elapsed on the seconds clock of the token
    ([exp] is the second of issue plus the configured span); from then on
    [verifyAccessToken] fails with an [AuthenticationError]. *)
Theorem access_token_round_trip {jose : Jose} {config : Config}
  (Hjose : JoseCorrect jose) (u s r : string) (issued now : Z) :
  (epoch now < epoch issued + jwt_accessExpiry ->
   verifyAccessToken (generateAccessToken u s r issued) now
   = inr {| payload_userId := u;
            payload_sessionId := s;
            payload_role := Some r;
            payload_iat := Some (epoch issued);
            payload_exp := Some (epoch issued + jwt_accessExpiry) |})
  /\ (epoch issued + jwt_accessExpiry <= epoch now ->
      exists message,
        verifyAccessToken (generateAccessToken u s r issued) now
        = inl (AuthenticationError message)).
Proof.
  rewrite (verify_generated_access_token Hjose). split; intros H.
  - now replace (epoch issued + jwt_accessExpiry <=? epoch now) with false by lia.
  - replace (epoch issued + jwt_accessExpiry <=? epoch now) with true by lia.
    eauto.
Qed.

(** The same on the millisecond clock: the token is rejected from
    [issued + 1000 * expiry] on and accepted before
    [issued + 1000 * expiry - 999]; in the 999 milliseconds between, the
    answer depends on the fraction of a second at which it was issued. *)
Lemma access_token_expiry_milliseconds {jose : Jose} {config : Config}
  (Hjose : JoseCorrect jose) (u s r : string) (issued now : Z) :
  (now < issued + 1000 * jwt_accessExpiry - 999 ->
   exists payload,
     verifyAccessToken (generateAccessToken u s r issued) now = inr payload)
  /\ (issued + 1000 * jwt_accessExpiry <= now ->
      exists message,
        verifyAccessToken (generateAccessToken u s r issued) now
        = inl (AuthenticationError message)).
Proof.
  rewrite (verify_generated_access_token Hjose). unfold epoch.
  split; intros H.
  - replace (issued / 1000 + jwt_accessExpiry <=? now / 1000) with false; eauto.
    symmetry. apply Z.leb_gt.
    pose proof (Z.mod_pos_bound issued 1000 eq_refl).
    pose proof (Z.div_mod issued 1000 ltac:(lia)).
    apply Z.div_lt_upper_bound; lia.
  - replace (issued / 1000 + jwt_accessExpiry <=? now / 1000) with true; eauto.
    symmetry. apply Z.leb_le.
    pose proof (Z.mod_pos_bound issued 1000 eq_refl).
    pose proof (Z.div_mod issued 1000 ltac:(lia)).
    apply Z.div_le_lower_bound; lia.
Qed.

(** A token issued at 1.999 s with the default expiry of 900 s: accepted at
    900.999 s, rejected at 901.000 s. *)
Lemma access_token_round_trip_witness :
  @verifyAccessToken PlainCodec.jose default_config
    (@generateAccessToken PlainCodec.jose default_config "u" "s" "owner" 1999)
    900999
  = inr {| payload_userId := "u";
           payload_sessionId := "s";
           payload_role := Some "owner";
           payload_iat := Some 1;
           payload_exp := Some 901 |}
  /\ exists message,
      @verifyAccessToken PlainCodec.jose default_config
        (@generateAccessToken PlainCodec.jose default_config "u" "s" "owner" 1999)
        901000
      = inl (AuthenticationError message).
Proof.
  split.
  - apply (proj1 (@access_token_round_trip PlainCodec.jose default_config
                    PlainCodec_correct "u" "s" "owner" 1999 900999)).
    reflexivity.
  - apply (proj2 (@access_token_round_trip PlainCodec.jose default_config
                    PlainCodec_correct "u" "s" "owner" 1999 901000)).
    discriminate.
Defined.

(** The character replacements and the padding of [decodeToken] do not
    change what the decoder reads: it takes both alphabets and stops at
    the first [=]. *)
Lemma base64_sextets_pad (l : list ascii) (n : nat) :
  JS.base64_sextets (l ++ repeat "="%char n) = JS.base64_sextets l.
Proof.
  induction l as [|c l IH]; simpl.
  - now destruct n.
  - rewrite IH. reflexivity.
Qed.

Lemma base64_sextets_replace (l : list ascii) :
  JS.base64_sextets (replace_char "_"%char "/"%char (replace_char "-"%char "+"%char l))
  = JS.base64_sextets l.
Proof.
  induction l as [|c l IH]; [reflexivity|].
  cbn [replace_char map JS.base64_sextets].
  fold (replace_char "-"%char "+"%char l).
  fold (replace_char "_"%char "/"%char (replace_char "-"%char "+"%char l)).
  rewrite IH.
  destruct (Ascii.eqb c "-"%char) eqn:E1.
  { apply Ascii.eqb_eq in E1. subst c. reflexivity. }
  destruct (Ascii.eqb c "_"%char) eqn:E2.
  { apply Ascii.eqb_eq in E2. subst c. reflexivity. }
  reflexivity.
Qed.

Lemma decodeToken_payload (token : string) :
  decodeToken token
  = match split_on "."%char (list_ascii_of_string token) [] with
    | [_; part1; _] =>
        match JS.JSON_parse (JS.base64_decode (string_of_list_ascii part1)) with
        | Some payload => payload
        | None => JS.JSNull
        end
    | _ => JS.JSNull
    end.
Proof.
  unfold decodeToken.
  destruct (split_on _ _ _) as [|p0 [|p1 [|p2 [|p3 ps]]]]; try reflexivity.
  destruct p1 as [|c p1]; [reflexivity|]. cbn [JS.is_empty].
  unfold JS.base64_decode.
  rewrite !list_ascii_of_string_of_list_ascii, base64_sextets_pad,
    base64_sextets_replace.
  reflexivity.
Qed.




(* ===================================================================== *)
(** * Properties of the read paths, the middleware and the refresh flow *)
(* ===================================================================== *)

Section AuthFacts.
Context {jose : Jose} {config : Config}.

Lemma substring_all (s : string) : String.substring 0 (String.length s) s = s.
Proof. induction s as [|c s IH]; [reflexivity|]. simpl. now rewrite IH. Qed.

(** The token of a [Bearer] header is what follows the prefix. *)
Lemma bearer_token (token : string) :
  String.prefix "Bearer " ("Bearer " +:+ token) = true
  /\ String.substring 7 (String.length ("Bearer " +:+ token) - 7)
       ("Bearer " +:+ token) = token.
Proof.
  split.
  - cbv [String.append]. cbn. now destruct token.
  - cbv [String.append]. fold String.append.
    cbn [String.length Nat.sub String.substring].
    rewrite Nat.sub_0_r. apply substring_all.
Qed.

Lemma authenticate_bearer (token : string) (now : Z) (st : State) :
  authenticate (Some ("Bearer " +:+ token)) now st
  = match verifyAccessToken token now with
    | inl e => (inl e, st)
    | inr payload =>
        match getSession (payload_sessionId payload) now st with
        | (None, st1) => (inl (AuthenticationError "Session not found"), st1)
        | (Some session, st1) =>
            if data_expiresAt session <? now then
              (inl (AuthenticationError "Session expired"),
               deleteSession (data_id session) st1)
            else if negb (String.eqb (data_accessToken session) token) then
              (inl (AuthenticationError "Invalid token"), st1)
            else
              (inr {| ctx_userId := payload_userId payload;
                      ctx_sessionId := payload_sessionId payload;
                      ctx_userRole := payload_role payload |}, st1)
        end
    end.
Proof.
  unfold authenticate. destruct (bearer_token token) as [-> ->]. reflexivity.
Qed.

(** A session that is in neither the store nor the cache reads as null,
    whether or not the cache answers. *)
Lemma getSession_deleted (sid : string) (now : Z) (st : State) :
  session_deleted sid st -> getSession sid now st = (None, st).
Proof.
  intros [Hdb Hcache]. unfold getSession, getCachedSession, redis_get.
  rewrite Hcache, Hdb. now destruct (reachable (redis st)).
Qed.

Lemma deleteSession_deleted (sid : string) (st : State) :
  reachable (redis st) = true -> session_deleted sid (deleteSession sid st).
Proof.
  intros Hup. split;
    [apply find_session_deleteSession|now apply cache_deleteSession].
Qed.

Lemma find_session_id (sid : string) (tbl : list Session) (row : Session) :
  find_session sid tbl = Some row -> session_id row = sid.
Proof.
  intros H. apply List.find_some in H as [_ H]. now apply String.eqb_eq.
Qed.

(** What [getSession] returns carries the id it was asked for. *)
Lemma getSession_id (sid : string) (now : Z) (st : State) (d : SessionData) :
  fst (getSession sid now st) = Some d -> data_id d = sid.
Proof.
  unfold getSession.
  destruct (getCachedSession sid now st) as [c|] eqn:Hc.
  - cbn. intros [= <-]. unfold getCachedSession in Hc.
    destruct (redis_get _ _ _) as [[x|]|]; inversion Hc; reflexivity.
  - destruct (find_session sid (sessions st)) as [row|] eqn:Hrow; [|discriminate].
    cbn. intros [= <-]. cbn. now apply find_session_id in Hrow.
Qed.

(** [getSession] makes no expiry check: whenever the row is in the store
    it answers with a record, the cached copy when there is one and the
    row otherwise. *)
Lemma getSession_present (sid : string) (now : Z) (st : State) (row : Session) :
  find_session sid (sessions st) = Some row ->
  fst (getSession sid now st)
  = Some (match getCachedSession sid now st with
          | Some cached => cached
          | None => data_of_row row
          end).
Proof.
  intros Hrow. unfold getSession.
  destruct (getCachedSession sid now st); [reflexivity|]. now rewrite Hrow.
Qed.

(** When every copy of the session that can be read has expired, both
    callers of [getSession] that check the expiry find it expired. *)
Lemma getSession_expired (sid : string) (now : Z) (st : State) (row : Session) :
  find_session sid (sessions st) = Some row ->
  session_expiresAt row < now ->
  (forall cached, getCachedSession sid now st = Some cached ->
                  data_expiresAt cached < now) ->
  exists d, fst (getSession sid now st) = Some d
            /\ data_id d = sid /\ (data_expiresAt d <? now) = true.
Proof.
  intros Hrow Hexp Hcache.
  pose proof (getSession_present sid now st row Hrow) as Hget.
  eexists. split; [exact Hget|]. split; [now apply (getSession_id sid now st)|].
  destruct (getCachedSession sid now st) as [c|].
  - specialize (Hcache c eq_refl). lia.
  - cbn. lia.
Qed.

(** C2: a token that verifies is still rejected, with an
    [AuthenticationError], once the session it names is deleted, that is
    removed from the store and from the cache (first part), which is the
    state [deleteSession] leaves when the cache is reachable (second
    part); and [authenticate] accepts a token only when it equals the
    [accessToken] of the session record it read (third part). *)
Theorem revoked_session_rejects_token (token : string) (payload : JWTPayload)
  (now : Z) (st : State) :
  verifyAccessToken token now = inr payload ->
  (session_deleted (payload_sessionId payload) st ->
   authenticate (Some ("Bearer " +:+ token)) now st
   = (inl (AuthenticationError "Session not found"), st))
  /\ (reachable (redis st) = true ->
      fst (authenticate (Some ("Bearer " +:+ token)) now
             (deleteSession (payload_sessionId payload) st))
      = inl (AuthenticationError "Session not found"))
  /\ (forall ctx st',
        authenticate (Some ("Bearer " +:+ token)) now st = (inr ctx, st') ->
        exists session,
          fst (getSession (payload_sessionId payload) now st) = Some session
          /\ data_accessToken session = token
          /\ now <= data_expiresAt session).
Proof.
  intros Hv.
  assert (Hdel : forall s, session_deleted (payload_sessionId payload) s ->
            authenticate (Some ("Bearer " +:+ token)) now s
            = (inl (AuthenticationError "Session not found"), s)).
  { intros s Hs. rewrite authenticate_bearer, Hv.
    now rewrite (getSession_deleted _ now s Hs). }
  split; [apply Hdel|]. split.
  - intros Hup. now rewrite (Hdel _ (deleteSession_deleted _ st Hup)).
  - intros ctx st'. rewrite authenticate_bearer, Hv.
    destruct (getSession (payload_sessionId payload) now st) as [[session|] st1];
      [|discriminate].
    destruct (data_expiresAt session <? now) eqn:Hexp; [discriminate|].
    destruct (String.eqb (data_accessToken session) token) eqn:Htok;
      [|discriminate].
    intros _. exists session. cbn. apply String.eqb_eq in Htok.
    repeat split; [exact Htok|lia].
Qed.

(** C5, amended: for a session that is still in the store after its
    [expiresAt] has passed, [getSession] returns the record (the cached
    copy when there is one, the row otherwise), not null; the expiry is
    noticed by its caller [authenticate], which deletes the session and
    raises [AuthenticationError("Session expired")]. *)
Theorem getSession_returns_expired_session (sid : string) (row : Session)
  (now : Z) (st : State) :
  find_session sid (sessions st) = Some row ->
  session_expiresAt row < now ->
  fst (getSession sid now st)
  = Some (match getCachedSession sid now st with
          | Some cached => cached
          | None => data_of_row row
          end)
  /\ forall token payload,
       verifyAccessToken token now = inr payload ->
       payload_sessionId payload = sid ->
       (forall cached, getCachedSession sid now st = Some cached ->
                       data_expiresAt cached < now) ->
       fst (authenticate (Some ("Bearer " +:+ token)) now st)
       = inl (AuthenticationError "Session expired")
       /\ find_session sid
            (sessions (snd (authenticate (Some ("Bearer " +:+ token)) now st)))
          = None.
Proof.
  intros Hrow Hexp. split; [now apply getSession_present|].
  intros token payload Hv Hsid Hcache.
  destruct (getSession_expired sid now st row Hrow Hexp Hcache)
    as (d & Hget & Hid & Hd).
  rewrite authenticate_bearer, Hv, Hsid.
  destruct (getSession sid now st) as [o st1]. cbn in Hget. subst o.
  rewrite Hd, Hid. cbn. split; [reflexivity|apply find_session_deleteSession].
Qed.

(** C6: a refresh token that verifies and names a session that
    [getSession] returns unexpired, of a user that exists, is accepted
    although it differs from the [refreshToken] stored on the session: the
    flow returns a fresh pair and never compares the two. *)
Theorem refreshToken_accepts_rotated_token (token userId sid : string)
  (session : SessionData) (user : User) (now : Z) (st : State) :
  verifyRefreshToken token now = inr (userId, sid) ->
  fst (getSession sid now st) = Some session ->
  now <= data_expiresAt session ->
  find_user (data_userId session) (users st) = Some user ->
  token <> data_refreshToken session ->
  fst (refreshToken token now st)
  = inr (generateAccessToken (user_id user) sid (user_role user) now,
         generateRefreshToken (user_id user) sid now).
Proof.
  intros Hv Hget Hlive Huser _. unfold refreshToken. rewrite Hv.
  pose proof (getSession_id sid now st session Hget) as Hid.
  pose proof (users_getSession sid now st) as Husers.
  destruct (getSession sid now st) as [o st1]. cbn in Hget, Husers. subst o.
  replace (data_expiresAt session <? now) with false by lia.
  rewrite Husers, Huser, Hid. reflexivity.
Qed.

(** C8: a refresh token that verifies, for a session that is in the store
    with [expiresAt] in the past (and whose cached copy, if any, has
    expired too), makes [refreshToken] raise
    [AuthenticationError("Session expired")]; when the error is raised the
    session is gone from the store, and from the cache whenever the cache
    could be reached. *)
Theorem refreshToken_expired_session (token userId sid : string)
  (row : Session) (now : Z) (st : State) :
  verifyRefreshToken token now = inr (userId, sid) ->
  find_session sid (sessions st) = Some row ->
  session_expiresAt row < now ->
  (forall cached, getCachedSession sid now st = Some cached ->
                  data_expiresAt cached < now) ->
  fst (refreshToken token now st) = inl (AuthenticationError "Session expired")
  /\ find_session sid (sessions (snd (refreshToken token now st))) = None
  /\ (reachable (redis st) = true ->
      strings_db (redis (snd (refreshToken token now st))) !! session_key sid
      = None).
Proof.
  intros Hv Hrow Hexp Hcache. unfold refreshToken. rewrite Hv.
  destruct (getSession_expired sid now st row Hrow Hexp Hcache)
    as (d & Hget & Hid & Hd).
  pose proof (reachable_getSession sid now st) as Hup.
  destruct (getSession sid now st) as [o st1]. cbn in Hget, Hup. subst o.
  rewrite Hd, Hid. cbn [fst snd]. split; [reflexivity|]. split.
  - apply find_session_deleteSession.
  - intros H. apply cache_deleteSession. congruence.
Qed.

End AuthFacts.

(** C10: when the lookup by access token finds a stored session and no
    user row has the [userId] of that session, [getSessionByAccessToken]
    answers with the id and user id of the session and the role "staff",
    not with null. *)
Theorem getSessionByAccessToken_role_fallback (token : string)
  (session : Session) (st : State) :
  List.find (fun r => String.eqb (session_accessToken r) token) (sessions st)
  = Some session ->
  find_user (session_userId session) (users st) = None ->
  getSessionByAccessToken token st
  = Some {| sr_id := session_id session;
            sr_userId := session_userId session;
            sr_role := "staff" |}.
Proof.
  intros Hs Hu. unfold getSessionByAccessToken. now rewrite Hs, Hu.
Qed.


(* ===================================================================== *)
(** * Properties of the rate limiter *)
(* ===================================================================== *)

Section RateLimitFacts.

Lemma ceil_seconds_minute : ceil_seconds 60000 = 60.
Proof. reflexivity. Qed.

(** One call, seen from the sorted set [z] it finds under the key when
    every marker of [z] is inside the window and the new marker is not
    yet a member. *)
Lemma checkRateLimit_step (identifier : string) (maxRequests windowMs now : Z)
  (random : string) (st : State) (z : gmap string Z) :
  reachable (redis st) = true ->
  zset_at (ratelimit_key identifier) now (redis st) = z ->
  map_Forall (fun _ score => now - windowMs < score) z ->
  z !! marker now random = None ->
  exists st',
    checkRateLimit identifier maxRequests windowMs now random st
    = ({| allowed := Z.of_nat (size z) <? maxRequests;
          remaining := Z.max 0 (maxRequests - Z.of_nat (size z) - 1);
          resetAt := now + windowMs |}, st')
    /\ reachable (redis st') = true
    /\ (forall now', now' < now + 1000 * ceil_seconds windowMs ->
          zset_at (ratelimit_key identifier) now' (redis st')
          = <[marker now random := now]> z)
    /\ size (<[marker now random := now]> z) = S (size z).
Proof.
  intros Hup Hz Hin Hfresh. unfold checkRateLimit. rewrite Hup, Hz.
  assert (Hkeep : zremrangebyscore_upto (now - windowMs) z = z).
  { unfold zremrangebyscore_upto. apply map_filter_id. intros i x Hix.
    exact (Hin i x Hix). }
  rewrite Hkeep. eexists. split; [reflexivity|]. cbn. split; [reflexivity|].
  split.
  - intros now' Hnow'. unfold zset_at, live. cbn.
    rewrite lookup_insert_eq. cbn.
    now replace (now' <? now + 1000 * ceil_seconds windowMs) with true by lia.
  - now apply map_size_insert_None.
Qed.

(** C3: one [checkRateLimit] call on a reachable store keeps exactly the
    markers with a score above [now - windowMs], counts them, answers
    [allowed = (count < maxRequests)] and
    [remaining = max(0, maxRequests - count - 1)], and adds its own marker
    whatever the answer.  Four calls for one identifier with a limit of 3
    and a window of 60000, in succession inside one window, starting
    with no marker and drawing distinct markers, are answered
    [true, true, true, false] with [2, 1, 0, 0] remaining. *)
Theorem checkRateLimit_sliding_window (identifier : string)
  (maxRequests windowMs now : Z) (random : string) (st : State) :
  reachable (redis st) = true ->
  let key := ratelimit_key identifier in
  let purged :=
    zremrangebyscore_upto (now - windowMs) (zset_at key now (redis st)) in
  let count := Z.of_nat (size purged) in
  (forall member score,
     purged !! member = Some score
     <-> zset_at key now (redis st) !! member = Some score
         /\ now - windowMs < score)
  /\ fst (checkRateLimit identifier maxRequests windowMs now random st)
     = {| allowed := count <? maxRequests;
          remaining := Z.max 0 (maxRequests - count - 1);
          resetAt := now + windowMs |}
  /\ zsets_db
       (redis (snd (checkRateLimit identifier maxRequests windowMs now random st)))
     !! key
     = Some (mkExpiring (<[marker now random := now]> purged)
               (now + 1000 * ceil_seconds windowMs))
  /\ forall t1 t2 t3 t4 r1 r2 r3 r4,
       zset_at key t1 (redis st) = ∅ ->
       t1 <= t2 <= t3 /\ t3 <= t4 < t1 + 60000 ->
       NoDup [marker t1 r1; marker t2 r2; marker t3 r3; marker t4 r4] ->
       let results :=
         fst (checkRateLimit_calls identifier 3 60000
                [(t1, r1); (t2, r2); (t3, r3); (t4, r4)] st) in
       map allowed results = [true; true; true; false]
       /\ map remaining results = [2; 1; 0; 0].
Proof.
  intros Hup key purged count. split; [|split; [|split]].
  - intros member score. unfold purged, zremrangebyscore_upto.
    now rewrite map_lookup_filter_Some.
  - unfold checkRateLimit. now rewrite Hup.
  - unfold checkRateLimit. rewrite Hup. cbn. now rewrite lookup_insert_eq.
  - intros t1 t2 t3 t4 r1 r2 r3 r4 Hempty Ht Hnd results.
    assert (Hne : marker t1 r1 <> marker t2 r2 /\ marker t1 r1 <> marker t3 r3
                  /\ marker t1 r1 <> marker t4 r4 /\ marker t2 r2 <> marker t3 r3
                  /\ marker t2 r2 <> marker t4 r4 /\ marker t3 r3 <> marker t4 r4).
    { apply NoDup_cons in Hnd as [Ha Hnd]. apply NoDup_cons in Hnd as [Hb Hnd].
      apply NoDup_cons in Hnd as [Hc _].
      apply not_elem_of_cons in Ha as [? Ha]. apply not_elem_of_cons in Ha as [? Ha].
      apply not_elem_of_cons in Ha as [? _].
      apply not_elem_of_cons in Hb as [? Hb]. apply not_elem_of_cons in Hb as [? _].
      apply not_elem_of_cons in Hc as [? _]. tauto. }
    destruct Hne as (H12 & H13 & H14 & H23 & H24 & H34).
    pose proof ceil_seconds_minute as Hceil.
    destruct (checkRateLimit_step identifier 3 60000 t1 r1 st ∅ Hup Hempty)
      as (s1 & E1 & Hup1 & Hz1 & Hsz1);
      [apply map_Forall_empty|apply lookup_empty|].
    set (z1 := <[marker t1 r1 := t1]> (∅ : gmap string Z)) in *.
    destruct (checkRateLimit_step identifier 3 60000 t2 r2 s1 z1 Hup1)
      as (s2 & E2 & Hup2 & Hz2 & Hsz2).
    { apply Hz1. lia. }
    { apply map_Forall_insert_2; [lia|apply map_Forall_empty]. }
    { unfold z1. now rewrite lookup_insert_ne, lookup_empty. }
    set (z2 := <[marker t2 r2 := t2]> z1) in *.
    destruct (checkRateLimit_step identifier 3 60000 t3 r3 s2 z2 Hup2)
      as (s3 & E3 & Hup3 & Hz3 & Hsz3).
    { apply Hz2. lia. }
    { repeat (apply map_Forall_insert_2; [lia|]). apply map_Forall_empty. }
    { unfold z2, z1. now rewrite !lookup_insert_ne, lookup_empty. }
    set (z3 := <[marker t3 r3 := t3]> z2) in *.
    destruct (checkRateLimit_step identifier 3 60000 t4 r4 s3 z3 Hup3)
      as (s4 & E4 & Hup4 & Hz4 & Hsz4).
    { apply Hz3. lia. }
    { repeat (apply map_Forall_insert_2; [lia|]). apply map_Forall_empty. }
    { unfold z3, z2, z1. now rewrite !lookup_insert_ne, lookup_empty. }
    unfold results. cbn [checkRateLimit_calls]. rewrite E1, E2, E3, E4.
    cbn [fst map allowed remaining].
    rewrite Hsz3, Hsz2, Hsz1, map_size_empty. split; reflexivity.
Qed.

End RateLimitFacts.

(* ===================================================================== *)
(** * The properties on the scenarios *)
(* ===================================================================== *)

(** U logs in at [t0]; a minute later the session is deleted and the
    access token of the login, still valid, is presented. *)
Lemma revoked_session_rejects_token_witness :
  @authenticate PlainCodec.jose default_config
    (Some ("Bearer " +:+ Scenario.access0)) (Scenario.t0 + 60000)
    (@deleteSession Scenario.A Scenario.logged_in)
  = (inl (AuthenticationError "Session not found"),
     @deleteSession Scenario.A Scenario.logged_in)
  /\ fst (@authenticate PlainCodec.jose default_config
            (Some ("Bearer " +:+ Scenario.access0)) (Scenario.t0 + 60000)
            (@deleteSession Scenario.A Scenario.logged_in))
     = inl (AuthenticationError "Session not found")
  /\ exists session,
       fst (@getSession default_config Scenario.A (Scenario.t0 + 60000)
              Scenario.logged_in) = Some session
       /\ data_accessToken session = Scenario.access0
       /\ Scenario.t0 + 60000 <= data_expiresAt session.
Proof.
  assert (Hv : @verifyAccessToken PlainCodec.jose default_config
                 Scenario.access0 (Scenario.t0 + 60000) = inr Scenario.payload0)
    by (vm_compute; reflexivity).
  split; [|split].
  - apply (proj1 (@revoked_session_rejects_token PlainCodec.jose default_config
                    _ _ _ (@deleteSession Scenario.A Scenario.logged_in) Hv)).
    split; vm_compute; reflexivity.
  - apply (proj1 (proj2 (@revoked_session_rejects_token PlainCodec.jose
                           default_config _ _ _ Scenario.logged_in Hv))).
    vm_compute; reflexivity.
  - apply (proj2 (proj2 (@revoked_session_rejects_token PlainCodec.jose
                           default_config _ _ _ Scenario.logged_in Hv))
             {| ctx_userId := Scenario.U;
                ctx_sessionId := Scenario.A;
                ctx_userRole := Some "owner" |}
             (snd (@authenticate PlainCodec.jose default_config
                     (Some ("Bearer " +:+ Scenario.access0))
                     (Scenario.t0 + 60000) Scenario.logged_in))).
    vm_compute; reflexivity.
Defined.

(** C5, as stated, fails: the session expired at the instant 5000 and is
    still in the store; [getSession] at the instant 6000 returns its
    record, not null. *)
Lemma getSession_expired_not_null :
  find_session Scenario.A (sessions Scenario.with_expired)
  = Some Scenario.expired_row
  /\ session_expiresAt Scenario.expired_row < 6000
  /\ fst (@getSession default_config Scenario.A 6000 Scenario.with_expired)
     = Some (data_of_row Scenario.expired_row)
  /\ fst (@getSession default_config Scenario.A 6000 Scenario.with_expired)
     <> None.
Proof. vm_compute. repeat split; try reflexivity. discriminate. Qed.

(** The expired session of the scenario, read at the instant 6000 and
    then used with an access token that still verifies. *)
Lemma getSession_returns_expired_session_witness :
  fst (@getSession default_config Scenario.A 6000 Scenario.with_expired)
  = Some (data_of_row Scenario.expired_row)
  /\ fst (@authenticate PlainCodec.jose default_config
            (Some ("Bearer " +:+ Scenario.old_access)) 6000 Scenario.with_expired)
     = inl (AuthenticationError "Session expired")
  /\ find_session Scenario.A
       (sessions
          (snd (@authenticate PlainCodec.jose default_config
                  (Some ("Bearer " +:+ Scenario.old_access)) 6000
                  Scenario.with_expired)))
     = None.
Proof.
  pose proof (@getSession_returns_expired_session PlainCodec.jose default_config
                Scenario.A Scenario.expired_row 6000 Scenario.with_expired
                eq_refl eq_refl) as [Hget Hauth].
  split; [exact Hget|].
  apply (Hauth Scenario.old_access
           {| payload_userId := Scenario.U;
              payload_sessionId := Scenario.A;
              payload_role := Some "owner";
              payload_iat := Some 1;
              payload_exp := Some 901 |}).
  - vm_compute; reflexivity.
  - reflexivity.
  - intros cached Hc. vm_compute in Hc. discriminate Hc.
Defined.

(** U logs in at [t0] and refreshes five seconds later, which rotates the
    tokens of the session; ten seconds after the login the first refresh
    token is presented again and is accepted. *)
Lemma refreshToken_accepts_rotated_token_witness :
  Scenario.refresh0 <> data_refreshToken Scenario.rotated_session
  /\ fst (@getSession default_config Scenario.A (Scenario.t0 + 10000)
            Scenario.rotated) = Some Scenario.rotated_session
  /\ fst (@refreshToken PlainCodec.jose default_config Scenario.refresh0
            (Scenario.t0 + 10000) Scenario.rotated)
     = inr (@generateAccessToken PlainCodec.jose default_config Scenario.U
              Scenario.A "owner" (Scenario.t0 + 10000),
            @generateRefreshToken PlainCodec.jose default_config Scenario.U
              Scenario.A (Scenario.t0 + 10000)).
Proof.
  assert (Hne : Scenario.refresh0 <> data_refreshToken Scenario.rotated_session)
    by (vm_compute; discriminate).
  assert (Hget : fst (@getSession default_config Scenario.A (Scenario.t0 + 10000)
                        Scenario.rotated) = Some Scenario.rotated_session)
    by (vm_compute; reflexivity).
  split; [exact Hne|]. split; [exact Hget|].
  apply (@refreshToken_accepts_rotated_token PlainCodec.jose default_config
           Scenario.refresh0 Scenario.U Scenario.A Scenario.rotated_session
           Scenario.owner (Scenario.t0 + 10000) Scenario.rotated).
  - vm_compute; reflexivity.
  - exact Hget.
  - vm_compute; discriminate.
  - vm_compute; reflexivity.
  - exact Hne.
Defined.

(** A refresh token that still verifies, for the expired session of the
    scenario. *)
Lemma refreshToken_expired_session_witness :
  fst (@refreshToken PlainCodec.jose default_config Scenario.old_refresh 6000
         Scenario.with_expired)
  = inl (AuthenticationError "Session expired")
  /\ find_session Scenario.A
       (sessions (snd (@refreshToken PlainCodec.jose default_config
                         Scenario.old_refresh 6000 Scenario.with_expired)))
     = None
  /\ strings_db (redis (snd (@refreshToken PlainCodec.jose default_config
                               Scenario.old_refresh 6000 Scenario.with_expired)))
     !! session_key Scenario.A = None.
Proof.
  pose proof (@refreshToken_expired_session PlainCodec.jose default_config
                Scenario.old_refresh Scenario.U Scenario.A Scenario.expired_row
                6000 Scenario.with_expired) as H.
  destruct H as (Herr & Hdb & Hcache).
  - vm_compute; reflexivity.
  - reflexivity.
  - reflexivity.
  - intros cached Hc. vm_compute in Hc. discriminate Hc.
  - split; [exact Herr|]. split; [exact Hdb|]. apply Hcache. reflexivity.
Defined.

(** A session whose user has no row. *)
Lemma getSessionByAccessToken_role_fallback_witness :
  getSessionByAccessToken "access" Scenario.orphaned
  = Some {| sr_id := Scenario.A; sr_userId := Scenario.U; sr_role := "staff" |}.
Proof.
  apply (getSessionByAccessToken_role_fallback "access" Scenario.expired_row
           Scenario.orphaned); reflexivity.
Defined.


(** Four checks for [ip:1.2.3.4] within two milliseconds, limit 3, window
    60000, on a store with no marker. *)
Lemma checkRateLimit_sliding_window_witness :
  fst (checkRateLimit "ip:1.2.3.4" 3 60000 1700000000000 "0.25" empty_state)
  = {| allowed := true; remaining := 2; resetAt := 1700000060000 |}
  /\ map allowed
       (fst (checkRateLimit_calls "ip:1.2.3.4" 3 60000
               [(1700000000000, "0.1"); (1700000000000, "0.2");
                (1700000000000, "0.3"); (1700000000001, "0.4")] empty_state))
     = [true; true; true; false]
  /\ map remaining
       (fst (checkRateLimit_calls "ip:1.2.3.4" 3 60000
               [(1700000000000, "0.1"); (1700000000000, "0.2");
                (1700000000000, "0.3"); (1700000000001, "0.4")] empty_state))
     = [2; 1; 0; 0].
Proof.
  pose proof (checkRateLimit_sliding_window "ip:1.2.3.4" 3 60000 1700000000000
                "0.25" empty_state eq_refl) as (_ & Hres & _ & Hcalls).
  split; [exact Hres|].
  apply (Hcalls 1700000000000 1700000000000 1700000000000 1700000000001
           "0.1" "0.2" "0.3" "0.4").
  - vm_compute; reflexivity.
  - lia.
  - apply (bool_decide_unpack _). vm_compute. exact I.
Defined.

(* ===================================================================== *)
(** * Further properties of the session service *)
(* ===================================================================== *)

Section SessionListing.
Context {config : Config}.

Lemma insert_by_createdAt_perm (r : Session) (l : list Session) :
  Permutation (insert_by_createdAt r l) (r :: l).
Proof.
  induction l as [|x xs IH]; [reflexivity|]. simpl.
  destruct (session_createdAt r <=? session_createdAt x); [reflexivity|].
  rewrite IH. apply perm_swap.
Qed.

Lemma orderBy_createdAt_perm (l : list Session) :
  Permutation (orderBy_createdAt l) l.
Proof.
  induction l as [|x xs IH]; [reflexivity|]. simpl.
  rewrite insert_by_createdAt_perm. now rewrite IH.
Qed.

Lemma insert_by_createdAt_sorted (r : Session) (l : list Session) :
  Sorted.StronglySorted (fun a b => session_createdAt a <= session_createdAt b) l ->
  Sorted.StronglySorted (fun a b => session_createdAt a <= session_createdAt b)
    (insert_by_createdAt r l).
Proof.
  induction 1 as [|x xs Hs IH Hx]; simpl.
  - repeat constructor.
  - destruct (session_createdAt r <=? session_createdAt x) eqn:E.
    + constructor; [now constructor|]. constructor; [lia|].
      rewrite Forall_forall in *. intros y Hy. specialize (Hx y Hy). lia.
    + constructor; [exact IH|].
      rewrite Forall_forall in *. intros y Hy.
      apply list_elem_of_In in Hy.
      apply (Permutation_in _ (insert_by_createdAt_perm r xs)) in Hy.
      destruct Hy as [<-|Hy]; [lia|]. apply Hx. now apply list_elem_of_In.
Qed.

Lemma orderBy_createdAt_sorted (l : list Session) :
  Sorted.StronglySorted (fun a b => session_createdAt a <= session_createdAt b)
    (orderBy_createdAt l).
Proof.
  induction l as [|x xs IH]; simpl; [constructor|].
  now apply insert_by_createdAt_sorted.
Qed.

(** X1: [getUserSessions] lists exactly the sessions of the user whose
    [expiresAt] is after the clock, each once, in ascending order of
    [createdAt]. *)
Theorem getUserSessions_sorted_live (userId : string) (now : Z) (st : State) :
  Permutation (map sum_id (getUserSessions userId now st))
    (map session_id
       (List.filter
          (fun r => String.eqb (session_userId r) userId
                    && (now <? session_expiresAt r)) (sessions st)))
  /\ Sorted.StronglySorted Z.le (map sum_createdAt (getUserSessions userId now st))
  /\ Forall (fun s => now < sum_expiresAt s) (getUserSessions userId now st).
Proof.
  unfold getUserSessions, live_sessions_of.
  set (l := List.filter _ (sessions st)).
  pose proof (orderBy_createdAt_perm l) as Hp.
  pose proof (orderBy_createdAt_sorted l) as Hs.
  split; [|split].
  - rewrite map_map. cbn. now rewrite Hp.
  - rewrite map_map. cbn. clear Hp.
    induction Hs as [|x xs _ IH Hx]; simpl; constructor.
    + exact IH.
    + rewrite Forall_forall in Hx. apply Forall_forall. intros y Hy.
      apply list_elem_of_In, in_map_iff in Hy as (z & <- & Hz).
      apply Hx. now apply list_elem_of_In.
  - rewrite Forall_forall. intros s Hs'.
    apply list_elem_of_In, in_map_iff in Hs' as (r & <- & Hr).
    apply (Permutation_in _ Hp) in Hr. unfold l in Hr.
    apply List.filter_In in Hr as [_ Hr]. cbn. lia.
Qed.

End SessionListing.

Section SessionStoreFacts.
Context {config : Config}.


Lemma redis_cacheSession_unreachable sid data now st :
  reachable (redis st) = false -> cacheSession sid data now st = st.
Proof. intros H. unfold cacheSession, redis_setex. now rewrite H. Qed.


Lemma filter_filter_absorb {A : Type} (p q : A -> bool) (l : list A) :
  (forall x, p x = true -> q x = true) ->
  List.filter p (List.filter q l) = List.filter p l.
Proof.
  intros H. induction l as [|x l IH]; [reflexivity|]. simpl.
  destruct (q x) eqn:Hq; simpl.
  - now rewrite IH.
  - destruct (p x) eqn:Hp; [|exact IH]. apply H in Hp. congruence.
Qed.

Lemma filter_filter_negb {A : Type} (p : A -> bool) (l : list A) :
  List.filter p (List.filter (fun x => negb (p x)) l) = [].
Proof.
  induction l as [|x l IH]; [reflexivity|]. simpl.
  destruct (p x) eqn:E; simpl; [exact IH|]. now rewrite E.
Qed.


Lemma strings_db_fold_delete (ids : list Session) (st : State) (key : string) :
  reachable (redis st) = true ->
  reachable
    (redis (fold_left (fun acc r => deleteCachedSession (session_id r) acc) ids st))
  = true
  /\ strings_db
       (redis (fold_left (fun acc r => deleteCachedSession (session_id r) acc) ids st))
     !! key
     = if existsb (fun r => String.eqb (session_key (session_id r)) key) ids
       then None else strings_db (redis st) !! key.
Proof.
  revert st. induction ids as [|r ids IH]; intros st Hup; [now split|].
  cbn [fold_left existsb].
  assert (Hup' : reachable (redis (deleteCachedSession (session_id r) st)) = true).
  { unfold deleteCachedSession, redis_del. now rewrite Hup. }
  destruct (IH _ Hup') as [Hr Hl]. split; [exact Hr|]. rewrite Hl.
  unfold deleteCachedSession, redis_del. rewrite Hup. cbn.
  destruct (String.eqb (session_key (session_id r)) key) eqn:E.
  - apply String.eqb_eq in E. subst key. cbn. rewrite lookup_delete_eq.
    now destruct (existsb _ ids).
  - apply String.eqb_neq in E. cbn. rewrite lookup_delete_ne by exact E.
    reflexivity.
Qed.

Lemma sessions_fold_delete (ids : list Session) (st : State) :
  sessions (fold_left (fun acc r => deleteCachedSession (session_id r) acc) ids st)
  = sessions st.
Proof.
  revert st. induction ids as [|r ids IH]; intros st; [reflexivity|].
  cbn [fold_left]. rewrite IH. apply sessions_deleteCachedSession.
Qed.

(** The effect of [deleteAllUserSessions]. *)
Lemma deleteAllUserSessions_effect (userId : string) (st : State) :
  let st' := snd (deleteAllUserSessions userId st) in
  fst (deleteAllUserSessions userId st)
  = length (List.filter (fun r => String.eqb (session_userId r) userId) (sessions st))
  /\ (forall r, In r (sessions st')
               <-> In r (sessions st) /\ session_userId r <> userId)
  /\ (reachable (redis st) = true ->
      forall r, In r (sessions st) -> session_userId r = userId ->
                strings_db (redis st') !! session_key (session_id r) = None)
  /\ (forall now, getUserSessions userId now st' = [])
  /\ fst (deleteAllUserSessions userId st') = 0%nat.
Proof.
  intros st'.
  assert (Hs : sessions st' = List.filter
            (fun r => negb (String.eqb (session_userId r) userId)) (sessions st)).
  { unfold st', deleteAllUserSessions. cbn [snd]. now rewrite sessions_fold_delete. }
  assert (Hnone : List.filter (fun r => String.eqb (session_userId r) userId)
                    (sessions st') = []).
  { rewrite Hs. apply filter_filter_negb. }
  split; [reflexivity|]. split; [|split; [|split]].
  - intros r.
    rewrite Hs, List.filter_In, negb_true_iff, String.eqb_neq. reflexivity.
  - intros Hup r Hr Hu.
    unfold st', deleteAllUserSessions. cbn [snd].
    match goal with
    | |- strings_db (redis (fold_left _ ?ids ?s)) !! _ = _ =>
        destruct (strings_db_fold_delete ids s (session_key (session_id r)) Hup)
          as [_ ->]
    end.
    match goal with |- (if ?b then _ else _) = _ => replace b with true end;
      [reflexivity|].
    symmetry. apply existsb_exists. exists r. split.
    + apply List.filter_In. split; [exact Hr|]. now apply String.eqb_eq.
    + apply String.eqb_refl.
  - intros now. unfold getUserSessions, live_sessions_of.
    rewrite <- (filter_filter_absorb _
      (fun r => String.eqb (session_userId r) userId))
      by (intros r Hr; now apply andb_prop in Hr as [-> _]).
    now rewrite Hnone.
  - unfold deleteAllUserSessions at 1. cbn [fst]. now rewrite Hnone.
Qed.

(** X3: [deleteAllUserSessions] returns the number of rows of the user,
    expired ones included, leaves no row of the user and every row of the
    other users; with the cache reachable no deleted session keeps a
    cached copy; the user then lists no session and a second call deletes
    nothing. *)
Theorem deleteAllUserSessions_removes_all (userId : string) (st : State) :
  let st' := snd (deleteAllUserSessions userId st) in
  fst (deleteAllUserSessions userId st)
  = length (List.filter (fun r => String.eqb (session_userId r) userId) (sessions st))
  /\ (forall r, In r (sessions st')
               <-> In r (sessions st) /\ session_userId r <> userId)
  /\ (reachable (redis st) = true ->
      forall r, In r (sessions st) -> session_userId r = userId ->
                strings_db (redis st') !! session_key (session_id r) = None)
  /\ (forall now, getUserSessions userId now st' = [])
  /\ fst (deleteAllUserSessions userId st') = 0%nat.
Proof. apply deleteAllUserSessions_effect. Qed.



End SessionStoreFacts.

Section SessionRoundTrips.
Context {config : Config}.

Lemma find_session_filter_None sid (p : Session -> bool) (tbl : list Session) :
  find_session sid tbl = None -> find_session sid (List.filter p tbl) = None.
Proof.
  unfold find_session. induction tbl as [|r tbl IH]; [reflexivity|]. simpl.
  destruct (String.eqb (session_id r) sid) eqn:E; [discriminate|].
  intros H. destruct (p r); simpl; [rewrite E|]; auto.
Qed.

Lemma find_session_snoc sid (tbl : list Session) (row : Session) :
  find_session sid tbl = None -> session_id row = sid ->
  find_session sid (tbl ++ [row]) = Some row.
Proof.
  unfold find_session. intros Hnone Hid.
  induction tbl as [|r tbl IH]; simpl in *.
  - now rewrite Hid, String.eqb_refl.
  - destruct (String.eqb (session_id r) sid); [discriminate|auto].
Qed.

(** What a read returns when the row and every readable cached copy agree
    on the fields [P] looks at. *)
Lemma getSession_agree (P : SessionData -> Prop) sid now st row :
  find_session sid (sessions st) = Some row ->
  P (data_of_row row) ->
  (forall c, getCachedSession sid now st = Some c -> P c) ->
  exists d, fst (getSession sid now st) = Some d /\ data_id d = sid /\ P d.
Proof.
  intros Hrow Hp Hc. unfold getSession.
  destruct (getCachedSession sid now st) as [c|] eqn:E.
  - exists c. cbn. repeat split; [|now apply Hc].
    unfold getCachedSession in E.
    destruct (redis_get _ _ _) as [[x|]|]; inversion E; reflexivity.
  - rewrite Hrow. exists (data_of_row row). cbn.
    repeat split; [|exact Hp]. now apply find_session_id in Hrow.
Qed.

(** The cached copy right after [cacheSession], when there is one to read. *)
Lemma getCachedSession_cacheSession sid data now now' st c :
  data_id data = sid ->
  getCachedSession sid now' (cacheSession sid data now st) = Some c ->
  reachable (redis st) = true -> c = data.
Proof.
  intros Hid Hc Hup. revert Hc.
  unfold cacheSession, redis_setex. rewrite Hup.
  unfold getCachedSession, redis_get. cbn. rewrite lookup_insert_eq.
  unfold live. cbn.
  destruct (now' <? now + 1000 * REDIS_TTL_SESSION); [|discriminate].
  intros [= <-]. destruct data; cbn in *. now subst.
Qed.

Lemma getCachedSession_unreachable sid now st :
  reachable (redis st) = false -> getCachedSession sid now st = None.
Proof. intros H. unfold getCachedSession, redis_get. now rewrite H. Qed.

(** X5: a session that [createSession] has inserted under a fresh id is
    read back by [getSession], at any later instant and whether or not the
    cache answers, with the user, the tokens and the expiry it was created
    with. *)
Theorem createSession_then_getSession (data : NewSession) (newId : string)
  (now now' : Z) (st : State) :
  find_session newId (sessions st) = None ->
  fst (getSession newId now' (snd (createSession data newId now st)))
  = Some {| data_id := newId;
            data_userId := new_userId data;
            data_accessToken := new_accessToken data;
            data_refreshToken := new_refreshToken data;
            data_expiresAt := new_expiresAt data |}.
Proof.
  intros Hfresh. unfold createSession. cbn [snd].
  match goal with
  | |- context [cacheSession newId ?d now (set_sessions (sessions ?s1 ++ [?row]) ?s1)] =>
      set (d0 := d); set (st1 := s1); set (row0 := row)
  end.
  assert (H1 : find_session newId (sessions st1) = None).
  { unfold st1. destruct (JS.ge _ _); [|exact Hfresh].
    destruct (orderBy_createdAt _) as [|o l]; [exact Hfresh|].
    unfold deleteSession. rewrite sessions_deleteCachedSession. cbn.
    now apply find_session_filter_None. }
  set (st3 := cacheSession newId d0 now (set_sessions (sessions st1 ++ [row0]) st1)).
  assert (Hrow : find_session newId (sessions st3) = Some row0).
  { unfold st3. rewrite sessions_cacheSession. cbn.
    now apply find_session_snoc. }
  destruct (getSession_agree (fun d => d = d0) newId now' st3 row0 Hrow eq_refl)
    as (d & Hd & _ & ->); [|exact Hd].
  intros c Hc. destruct (reachable (redis st1)) eqn:Hup.
  - now apply (getCachedSession_cacheSession newId d0 now now' _ c eq_refl Hc).
  - unfold st3 in Hc.
    rewrite redis_cacheSession_unreachable in Hc by (cbn; exact Hup).
    rewrite getCachedSession_unreachable in Hc by (cbn; exact Hup).
    discriminate.
Qed.








End SessionRoundTrips.

Section Rotation.
Context {jose : Jose} {config : Config}.


End Rotation.

(* ===================================================================== *)
(** * The sliding window over any number of calls *)
(* ===================================================================== *)

Section SlidingWindow.

Lemma ceil_seconds_covers (ms : Z) : ms <= 1000 * ceil_seconds ms.
Proof.
  unfold ceil_seconds. pose proof (Z.mul_div_le (- ms) 1000 eq_refl). lia.
Qed.

Lemma window_log_keys (log : list (Z * string)) :
  (window_log log).*1 = map (fun c => marker (fst c) (snd c)) log.
Proof.
  unfold window_log. induction log as [|c log IH]; [reflexivity|].
  cbn. now rewrite <- IH.
Qed.

Lemma window_log_scores (log : list (Z * string)) (m : string) (s : Z) :
  (list_to_map (window_log log) : gmap string Z) !! m = Some s ->
  exists c, In c log /\ fst c = s.
Proof.
  intros H. apply elem_of_list_to_map_2 in H.
  apply list_elem_of_In in H. unfold window_log in H.
  apply in_map_iff in H as (c & [= _ <-] & Hc). eauto.
Qed.

(** The size of a purged record, when no member was added twice. *)
Lemma size_purged_log (lo : Z) (log : list (Z * string)) :
  NoDup (map (fun c => marker (fst c) (snd c)) log) ->
  size (zremrangebyscore_upto lo (list_to_map (window_log log)))
  = length (List.filter (fun c => lo <? fst c) log).
Proof.
  unfold zremrangebyscore_upto.
  induction log as [|[t r] log IH]; intros Hnd.
  - cbn. now rewrite map_filter_empty, map_size_empty.
  - cbn in Hnd. apply NoDup_cons in Hnd as [Hfresh Hnd].
    cbn [window_log map list_to_map foldr fst snd].
    change (foldr (fun p => <[p.1:=p.2]>) ∅ (map _ log))
      with (list_to_map (window_log log) : gmap string Z).
    assert (Hnone : (list_to_map (window_log log) : gmap string Z)
                    !! marker t r = None).
    { apply not_elem_of_list_to_map_1. now rewrite window_log_keys. }
    cbn [List.filter fst]. destruct (lo <? t) eqn:E.
    + rewrite map_filter_insert_True by (cbn; lia).
      rewrite map_size_insert_None
        by (apply map_lookup_filter_None; left; exact Hnone).
      cbn [length]. f_equal. now apply IH.
    + rewrite map_filter_insert_not' ; [now apply IH|cbn; lia|].
      intros y Hy. exfalso. unfold window_log in Hnone.
      rewrite Hnone in Hy. discriminate.
Qed.

(** One call on a store that satisfies the invariant for [log]. *)
Lemma checkRateLimit_invariant_step (identifier : string)
  (maxRequests windowMs now : Z) (random : string) (log : list (Z * string))
  (st : State) :
  window_invariant identifier windowMs log st ->
  Forall (fun c => fst c <= now) log ->
  NoDup (map (fun c => marker (fst c) (snd c)) (log ++ [(now, random)])) ->
  fst (checkRateLimit identifier maxRequests windowMs now random st)
  = {| allowed := window_count windowMs now log <? maxRequests;
       remaining := Z.max 0 (maxRequests - window_count windowMs now log - 1);
       resetAt := now + windowMs |}
  /\ window_invariant identifier windowMs (log ++ [(now, random)])
       (snd (checkRateLimit identifier maxRequests windowMs now random st)).
Proof.
  intros [Hup Hinv] Hpast Hnd.
  rewrite map_app in Hnd. cbn in Hnd.
  apply NoDup_app in Hnd as (Hndlog & Hfresh & _).
  assert (Hnone : (list_to_map (window_log log) : gmap string Z)
                  !! marker now random = None).
  { apply not_elem_of_list_to_map_1. rewrite window_log_keys.
    intros Hin. apply (Hfresh _ Hin). left. }
  unfold checkRateLimit. rewrite Hup. cbn [fst snd].
  rewrite (Hinv now Hpast). unfold window_count.
  rewrite <- (size_purged_log (now - windowMs) log Hndlog).
  split; [reflexivity|]. split; [reflexivity|].
  intros now' Hpast'. apply Forall_app in Hpast' as [Hlog' Hnow'].
  apply Forall_inv in Hnow'. cbn in Hnow'.
  unfold window_log. rewrite map_app. cbn [map fst snd].
  fold (window_log log).
  rewrite list_to_map_snoc by (now rewrite window_log_keys; intros Hin;
                               apply (Hfresh _ Hin); left).
  unfold zset_at, live. cbn. rewrite lookup_insert_eq. cbn.
  apply map_eq. intros i. apply option_eq. intros s.
  unfold zremrangebyscore_upto.
  destruct (now' <? now + 1000 * ceil_seconds windowMs) eqn:Elive.
  - rewrite !map_lookup_filter_Some. cbn.
    destruct (decide (i = marker now random)) as [->|Hne].
    + rewrite !lookup_insert_eq. tauto.
    + rewrite !lookup_insert_ne by congruence.
      rewrite map_lookup_filter_Some. cbn. intuition lia.
  - rewrite map_filter_empty, lookup_empty.
    rewrite map_lookup_filter_Some. cbn.
    pose proof (ceil_seconds_covers windowMs).
    split; [discriminate|]. intros [Hi Hs]. exfalso.
    destruct (decide (i = marker now random)) as [->|Hne].
    + rewrite lookup_insert_eq in Hi. injection Hi as <-. lia.
    + rewrite lookup_insert_ne in Hi by congruence.
      apply window_log_scores in Hi as (c & Hc & <-).
      rewrite Forall_forall in Hpast. specialize (Hpast c).
      rewrite list_elem_of_In in Hpast. specialize (Hpast Hc). cbn in Hpast. lia.
Qed.

Lemma StronglySorted_app_before (l1 l2 : list Z) (x : Z) :
  Sorted.StronglySorted Z.le (l1 ++ x :: l2) -> Forall (fun y => y <= x) l1.
Proof.
  induction l1 as [|a l1 IH]; intros H; [constructor|].
  cbn in H. apply Sorted.StronglySorted_inv in H as [H Ha].
  constructor; [|now apply IH].
  rewrite Forall_forall in Ha. apply Ha.
  apply list_elem_of_In, in_or_app. right. left. reflexivity.
Qed.

Lemma checkRateLimit_calls_invariant (identifier : string)
  (maxRequests windowMs : Z) (calls log : list (Z * string)) (st : State) :
  window_invariant identifier windowMs log st ->
  Sorted.StronglySorted Z.le (map fst (log ++ calls)) ->
  NoDup (map (fun c => marker (fst c) (snd c)) (log ++ calls)) ->
  fst (checkRateLimit_calls identifier maxRequests windowMs calls st)
  = sliding_window_results maxRequests windowMs log calls
  /\ window_invariant identifier windowMs (log ++ calls)
       (snd (checkRateLimit_calls identifier maxRequests windowMs calls st)).
Proof.
  revert log st. induction calls as [|[t r] rest IH]; intros log st Hinv Hs Hnd.
  - cbn. rewrite app_nil_r. now split.
  - assert (Hpast : Forall (fun c : Z * string => fst c <= t) log).
    { rewrite map_app in Hs. cbn in Hs. apply StronglySorted_app_before in Hs.
      rewrite Forall_forall in Hs. apply Forall_forall. intros c Hc.
      apply Hs. apply list_elem_of_In, in_map, list_elem_of_In, Hc. }
    assert (Hnd1 : NoDup (map (fun c => marker (fst c) (snd c)) (log ++ [(t, r)]))).
    { replace (log ++ (t, r) :: rest)%list with ((log ++ [(t, r)]) ++ rest)%list
        in Hnd by now rewrite <- app_assoc.
      rewrite map_app in Hnd. now apply NoDup_app in Hnd as [Hnd _]. }
    destruct (checkRateLimit_invariant_step identifier maxRequests windowMs t r
                log st Hinv Hpast Hnd1) as [Hres Hinv1].
    cbn [checkRateLimit_calls sliding_window_results fst].
    destruct (checkRateLimit identifier maxRequests windowMs t r st) as [res st1].
    cbn [fst snd] in Hres, Hinv1.
    replace (log ++ (t, r) :: rest)%list with ((log ++ [(t, r)]) ++ rest)%list
      in * by now rewrite <- app_assoc.
    destruct (IH (log ++ [(t, r)])%list st1 Hinv1 Hs Hnd) as [IHres IHinv].
    destruct (checkRateLimit_calls identifier maxRequests windowMs rest st1)
      as [rs st2].
    cbn [fst snd] in *. split; [|exact IHinv]. now rewrite Hres, IHres.
Qed.

Lemma window_invariant_start (identifier : string) (windowMs : Z) (st : State) :
  reachable (redis st) = true ->
  zsets_db (redis st) !! ratelimit_key identifier = None ->
  window_invariant identifier windowMs [] st.
Proof.
  intros Hup Hnone. split; [exact Hup|]. intros now _.
  unfold zset_at. now rewrite Hnone.
Qed.

(** A window that ends earlier reaches at least as far back. *)
Lemma window_count_antitone (windowMs t T : Z) (log : list (Z * string)) :
  t <= T ->
  Z.of_nat (length (List.filter (fun c : Z * string => T - windowMs <? fst c) log))
  <= window_count windowMs t log.
Proof.
  intros HtT. unfold window_count. apply inj_le.
  induction log as [|c log IHlog]; [reflexivity|]. cbn [List.filter].
  destruct (T - windowMs <? fst c) eqn:E1.
  - replace (t - windowMs <? fst c) with true by lia. cbn [length]. lia.
  - destruct (t - windowMs <? fst c); cbn [length]; lia.
Qed.

(** In the reference, the calls allowed inside one window, together with
    the earlier calls inside it, stay within the limit. *)
Lemma sliding_window_results_bound (maxRequests windowMs T : Z)
  (calls log : list (Z * string)) :
  allowed_in_window windowMs T calls
    (sliding_window_results maxRequests windowMs log calls) <> [] ->
  Z.of_nat (length (List.filter (fun c => T - windowMs <? fst c) log))
  + Z.of_nat (length (allowed_in_window windowMs T calls
                        (sliding_window_results maxRequests windowMs log calls)))
  <= maxRequests.
Proof.
  unfold allowed_in_window. revert log.
  induction calls as [|[t r] rest IH]; intros log Hne; [now contradict Hne|].
  cbn [sliding_window_results combine List.filter fst snd allowed] in *.
  specialize (IH (log ++ [(t, r)])%list).
  rewrite List.filter_app, length_app in IH. cbn [List.filter fst length] in IH.
  set (inside := List.filter
         (fun p : Z * string * RateLimitResult =>
            allowed (snd p) && (T - windowMs <? fst (fst p)) && (fst (fst p) <=? T))
         (combine rest
            (sliding_window_results maxRequests windowMs (log ++ [(t, r)]) rest)))
    in *.
  assert (Hcount : t <= T ->
            Z.of_nat (length (List.filter (fun c : Z * string => T - windowMs <? fst c) log))
            <= window_count windowMs t log)
    by (intros HtT; now apply window_count_antitone).
  destruct inside as [|p inside'] eqn:Ein.
  - destruct (window_count windowMs t log <? maxRequests) eqn:Ea;
      destruct (T - windowMs <? t) eqn:Eb; destruct (t <=? T) eqn:Ec;
      cbn [andb] in *; try (now contradict Hne).
    cbn [length]. specialize (Hcount ltac:(lia)). lia.
  - specialize (IH ltac:(discriminate)).
    destruct (window_count windowMs t log <? maxRequests) eqn:Ea;
      destruct (T - windowMs <? t) eqn:Eb; destruct (t <=? T) eqn:Ec;
      cbn [andb length] in *; lia.
Qed.

(** X8: on a reachable store with no window on record for the identifier,
    any number of [checkRateLimit] calls whose clock readings do not
    decrease and whose markers are distinct are answered as a sliding
    window answers them: a call is counted against every earlier call made
    less than [windowMs] before it, whether that one was allowed or
    refused. *)
Theorem checkRateLimit_calls_sliding_window (identifier : string)
  (maxRequests windowMs : Z) (calls : list (Z * string)) (st : State) :
  reachable (redis st) = true ->
  zsets_db (redis st) !! ratelimit_key identifier = None ->
  Sorted.StronglySorted Z.le (map fst calls) ->
  NoDup (map (fun c => marker (fst c) (snd c)) calls) ->
  fst (checkRateLimit_calls identifier maxRequests windowMs calls st)
  = sliding_window_results maxRequests windowMs [] calls.
Proof.
  intros Hup Hnone Hs Hnd.
  apply (checkRateLimit_calls_invariant identifier maxRequests windowMs calls []);
    [now apply window_invariant_start|exact Hs|exact Hnd].
Qed.

(** X9: under the same conditions, of the calls whose clock reading lies
    in any one window of [windowMs] milliseconds, at most [maxRequests] are
    allowed. *)
Theorem checkRateLimit_calls_window_bound (identifier : string)
  (maxRequests windowMs T : Z) (calls : list (Z * string)) (st : State) :
  reachable (redis st) = true ->
  zsets_db (redis st) !! ratelimit_key identifier = None ->
  Sorted.StronglySorted Z.le (map fst calls) ->
  NoDup (map (fun c => marker (fst c) (snd c)) calls) ->
  Z.of_nat
    (length
       (allowed_in_window windowMs T calls
          (fst (checkRateLimit_calls identifier maxRequests windowMs calls st))))
  <= Z.max 0 maxRequests.
Proof.
  intros Hup Hnone Hs Hnd.
  destruct (checkRateLimit_calls_invariant identifier maxRequests windowMs calls []
              st (window_invariant_start identifier windowMs st Hup Hnone) Hs Hnd)
    as [-> _].
  pose proof (sliding_window_results_bound maxRequests windowMs T calls []) as H.
  destruct (allowed_in_window windowMs T calls
              (sliding_window_results maxRequests windowMs [] calls)) as [|p l].
  - cbn. lia.
  - specialize (H ltac:(discriminate)). cbn [List.filter length] in *. lia.
Qed.

End SlidingWindow.

(* ===================================================================== *)
(** * The two kinds of token, and tokens read without verification *)
(* ===================================================================== *)

Section TokenKinds.
Context {jose : Jose} {config : Config}.

Lemma verify_generated_refresh_token (Hjose : JoseCorrect jose)
  (u s : string) (issued now : Z) :
  verifyRefreshToken (generateRefreshToken u s issued) now
  = if epoch issued + jwt_refreshExpiry <=? epoch now then
      inl (AuthenticationError
             (if includes jose_expired_message "expired"
              then "Refresh token has expired" else "Invalid refresh token"))
    else inr (u, s).
Proof.
  unfold verifyRefreshToken, jwtVerify, generateRefreshToken.
  rewrite Hjose. cbn [payload_exp].
  destruct (epoch issued + jwt_refreshExpiry <=? epoch now); [|reflexivity].
  now destruct (includes jose_expired_message "expired").
Qed.

(** X10: a token made by [generateRefreshToken] for a user and a session
    verifies to that user and session until the configured refresh expiry
    has elapsed on the seconds clock, and fails with an
    [AuthenticationError] from then on; the refresh flow started with it
    on a store where that session is live and its user exists answers with
    a new pair of tokens for the same session. *)
Theorem refresh_token_round_trip (Hjose : JoseCorrect jose)
  (u s : string) (issued now : Z) :
  (epoch now < epoch issued + jwt_refreshExpiry ->
   verifyRefreshToken (generateRefreshToken u s issued) now = inr (u, s))
  /\ (epoch issued + jwt_refreshExpiry <= epoch now ->
      exists message,
        verifyRefreshToken (generateRefreshToken u s issued) now
        = inl (AuthenticationError message))
  /\ (forall st session user,
        epoch now < epoch issued + jwt_refreshExpiry ->
        fst (getSession s now st) = Some session ->
        now <= data_expiresAt session ->
        find_user (data_userId session) (users st) = Some user ->
        fst (refreshToken (generateRefreshToken u s issued) now st)
        = inr (generateAccessToken (user_id user) s (user_role user) now,
               generateRefreshToken (user_id user) s now)).
Proof.
  rewrite (verify_generated_refresh_token Hjose). split; [|split].
  - intros H.
    now replace (epoch issued + jwt_refreshExpiry <=? epoch now) with false by lia.
  - intros H.
    replace (epoch issued + jwt_refreshExpiry <=? epoch now) with true by lia.
    eauto.
  - intros st session user H Hget Hlive Huser. unfold refreshToken.
    rewrite (verify_generated_refresh_token Hjose).
    replace (epoch issued + jwt_refreshExpiry <=? epoch now) with false by lia.
    pose proof (getSession_id s now st session Hget) as Hid.
    pose proof (users_getSession s now st) as Husers.
    destruct (getSession s now st) as [o st1]. cbn in Hget, Husers. subst o.
    replace (data_expiresAt session <? now) with false by lia.
    rewrite Husers, Huser, Hid. reflexivity.
Qed.

(** X11: the two kinds of token are told apart by the secret alone.  When
    the two configured secrets are equal, an unexpired refresh token passes
    [verifyAccessToken], with no role, and an unexpired access token passes
    [verifyRefreshToken]; when they differ and the signature scheme is
    keyed, each is rejected with an [AuthenticationError] by the check of
    the other kind. *)
Theorem token_kinds_told_apart_by_secret (u s r : string) (issued now : Z) :
  (JoseCorrect jose -> jwt_accessSecret = jwt_refreshSecret ->
   (epoch now < epoch issued + jwt_refreshExpiry ->
    verifyAccessToken (generateRefreshToken u s issued) now
    = inr {| payload_userId := u;
             payload_sessionId := s;
             payload_role := None;
             payload_iat := Some (epoch issued);
             payload_exp := Some (epoch issued + jwt_refreshExpiry) |})
   /\ (epoch now < epoch issued + jwt_accessExpiry ->
       verifyRefreshToken (generateAccessToken u s r issued) now = inr (u, s)))
  /\ (JoseKeyed jose -> jwt_accessSecret <> jwt_refreshSecret ->
      (exists message,
          verifyAccessToken (generateRefreshToken u s issued) now
          = inl (AuthenticationError message))
      /\ (exists message,
             verifyRefreshToken (generateAccessToken u s r issued) now
             = inl (AuthenticationError message))).
Proof.
  split.
  - intros Hjose Heq. unfold verifyAccessToken, verifyRefreshToken, jwtVerify,
      generateRefreshToken, generateAccessToken.
    rewrite Heq, !Hjose. cbn [payload_exp payload_userId payload_sessionId].
    split; intros H.
    + now replace (epoch issued + jwt_refreshExpiry <=? epoch now) with false by lia.
    + now replace (epoch issued + jwt_accessExpiry <=? epoch now) with false by lia.
  - intros Hkeyed Hne. unfold verifyAccessToken, verifyRefreshToken, jwtVerify,
      generateRefreshToken, generateAccessToken.
    rewrite !Hkeyed by congruence.
    split; match goal with
           | |- context [includes ?m "expired"] =>
               destruct (includes m "expired"); eauto
           end.
Qed.

End TokenKinds.

Lemma PlainCodec_keyed : JoseKeyed PlainCodec.jose.
Proof.
  intros secret secret' payload Hne. cbn [jws_sign jws_verify PlainCodec.jose].
  unfold PlainCodec.sign, PlainCodec.verify.
  rewrite PlainCodec_dec_enc_string.
  apply String.eqb_neq in Hne. now rewrite Hne.
Qed.

Section UnverifiedTokens.

Lemma split_on_length (sep : ascii) (l cur : list ascii) :
  length (split_on sep l cur) = S (length (List.filter (Ascii.eqb sep) l)).
Proof.
  revert cur. induction l as [|c l IH]; intros cur; [reflexivity|].
  cbn [split_on List.filter]. rewrite (Ascii.eqb_sym sep c).
  destruct (Ascii.eqb c sep); cbn [length]; now rewrite IH.
Qed.

Lemma split_on_part (sep : ascii) (l1 l2 cur : list ascii) :
  ~ In sep l1 ->
  split_on sep (l1 ++ sep :: l2) cur = (rev cur ++ l1)%list :: split_on sep l2 [].
Proof.
  revert cur. induction l1 as [|c l1 IH]; intros cur Hno.
  - cbn. now rewrite Ascii.eqb_refl, app_nil_r.
  - cbn [app split_on].
    destruct (Ascii.eqb c sep) eqn:E.
    + apply Ascii.eqb_eq in E. subst c. contradict Hno. now left.
    + rewrite IH by (intros Hin; apply Hno; now right).
      cbn [rev]. now rewrite <- app_assoc.
Qed.

Lemma split_on_last (sep : ascii) (l cur : list ascii) :
  ~ In sep l -> split_on sep l cur = [(rev cur ++ l)%list].
Proof.
  revert cur. induction l as [|c l IH]; intros cur Hno.
  - cbn. now rewrite app_nil_r.
  - cbn [split_on]. destruct (Ascii.eqb c sep) eqn:E.
    + apply Ascii.eqb_eq in E. subst c. contradict Hno. now left.
    + rewrite IH by (intros Hin; apply Hno; now right).
      cbn [rev]. now rewrite <- app_assoc.
Qed.

Lemma list_ascii_of_string_app (a b : string) :
  list_ascii_of_string (a +:+ b)
  = (list_ascii_of_string a ++ list_ascii_of_string b)%list.
Proof.
  induction a as [|c a IH]; [reflexivity|].
  cbn [String.append list_ascii_of_string app]. now rewrite <- IH.
Qed.

(** X12: [decodeToken] reads the middle one of exactly three parts and
    nothing else.  A token that has not exactly two dots decodes to [null]
    and is reported expired; for a token of three parts the result is the
    JSON value of the base64 text of the middle part ([null] when it does
    not parse), whatever the header and the signature are: two tokens that
    share the payload part are decoded alike and are expired alike. *)
Theorem decodeToken_reads_payload_part_only (now : Z) :
  (forall token,
      dots token <> 2%nat ->
      decodeToken token = JS.JSNull /\ isTokenExpired token now = true)
  /\ (forall header payload signature,
        ~ In "."%char (list_ascii_of_string header) ->
        ~ In "."%char (list_ascii_of_string payload) ->
        ~ In "."%char (list_ascii_of_string signature) ->
        decodeToken (header +:+ "." +:+ payload +:+ "." +:+ signature)
        = match JS.JSON_parse (JS.base64_decode payload) with
          | Some value => value
          | None => JS.JSNull
          end)
  /\ (forall header header' payload signature signature',
        ~ In "."%char (list_ascii_of_string header) ->
        ~ In "."%char (list_ascii_of_string header') ->
        ~ In "."%char (list_ascii_of_string payload) ->
        ~ In "."%char (list_ascii_of_string signature) ->
        ~ In "."%char (list_ascii_of_string signature') ->
        isTokenExpired (header +:+ "." +:+ payload +:+ "." +:+ signature) now
        = isTokenExpired (header' +:+ "." +:+ payload +:+ "." +:+ signature') now).
Proof.
  assert (Hparts : forall header payload signature,
             ~ In "."%char (list_ascii_of_string header) ->
             ~ In "."%char (list_ascii_of_string payload) ->
             ~ In "."%char (list_ascii_of_string signature) ->
             decodeToken (header +:+ "." +:+ payload +:+ "." +:+ signature)
             = match JS.JSON_parse (JS.base64_decode payload) with
               | Some value => value
               | None => JS.JSNull
               end).
  { intros h p s Hh Hp Hs. rewrite decodeToken_payload.
    rewrite !list_ascii_of_string_app. cbn [list_ascii_of_string app].
    rewrite split_on_part by exact Hh. rewrite split_on_part by exact Hp.
    rewrite split_on_last by exact Hs. cbn [rev app].
    now rewrite string_of_list_ascii_of_string. }
  split; [|split].
  - intros token Hdots.
    assert (Hnull : decodeToken token = JS.JSNull).
    { rewrite decodeToken_payload.
      pose proof (split_on_length "."%char (list_ascii_of_string token) []) as Hl.
      unfold dots in Hdots.
      destruct (split_on _ _ _) as [|p0 [|p1 [|p2 [|p3 ps]]]]; try reflexivity.
      cbn in Hl. congruence. }
    split; [exact Hnull|]. unfold isTokenExpired. now rewrite Hnull.
  - exact Hparts.
  - intros h h' p s s' Hh Hh' Hp Hs Hs'. unfold isTokenExpired.
    now rewrite (Hparts h p s), (Hparts h' p s').
Qed.

End UnverifiedTokens.

(* ===================================================================== *)
(** * The other methods of the rate limiter *)
(* ===================================================================== *)

Section RateLimitService.

Lemma ratelimit_key_inj (a b : string) :
  ratelimit_key a = ratelimit_key b -> a = b.
Proof.
  unfold ratelimit_key. cbv [String.append]. fold String.append. congruence.
Qed.

Lemma ratelimit_key_not_session_key `{config : Config} (identifier sid : string) :
  ratelimit_key identifier <> session_key sid.
Proof.
  unfold ratelimit_key, session_key. cbv [String.append]. fold String.append.
  discriminate.
Qed.

(** The answer of [checkRateLimit] depends on the store through the
    window of its identifier alone. *)
Lemma checkRateLimit_result_local (identifier : string)
  (maxRequests windowMs now : Z) (random : string) (st st' : State) :
  reachable (redis st) = reachable (redis st') ->
  zremrangebyscore_upto (now - windowMs)
    (zset_at (ratelimit_key identifier) now (redis st))
  = zremrangebyscore_upto (now - windowMs)
      (zset_at (ratelimit_key identifier) now (redis st')) ->
  fst (checkRateLimit identifier maxRequests windowMs now random st)
  = fst (checkRateLimit identifier maxRequests windowMs now random st').
Proof.
  intros Hup Hz. unfold checkRateLimit. rewrite <- Hup.
  destruct (reachable (redis st)); [|reflexivity]. cbn [fst]. now rewrite Hz.
Qed.

(** [checkRateLimit] writes the window of its identifier and nothing
    else. *)
Lemma checkRateLimit_frame (identifier : string)
  (maxRequests windowMs now : Z) (random : string) (st : State) :
  let st' := snd (checkRateLimit identifier maxRequests windowMs now random st) in
  sessions st' = sessions st
  /\ users st' = users st
  /\ reachable (redis st') = reachable (redis st)
  /\ strings_db (redis st') = strings_db (redis st)
  /\ forall key, key <> ratelimit_key identifier ->
                 zsets_db (redis st') !! key = zsets_db (redis st) !! key.
Proof.
  unfold checkRateLimit. destruct (reachable (redis st)) eqn:Hup; cbn.
  - repeat split; try reflexivity. intros key Hne. now rewrite lookup_insert_ne.
  - now rewrite Hup.
Qed.

Lemma zremrangebyscore_upto_twice (lo lo' : Z) (z : gmap string Z) :
  lo <= lo' ->
  zremrangebyscore_upto lo' (zremrangebyscore_upto lo z)
  = zremrangebyscore_upto lo' z.
Proof.
  intros Hle. unfold zremrangebyscore_upto. apply map_eq. intros i.
  apply option_eq. intros s. rewrite !map_lookup_filter_Some. cbn.
  intuition lia.
Qed.

Lemma zremrangebyscore_upto_empty (lo : Z) :
  zremrangebyscore_upto lo (∅ : gmap string Z) = ∅.
Proof. unfold zremrangebyscore_upto. apply map_filter_empty. Qed.

(** What a later call sees of the window after the purge of
    [getRemainingRequests]. *)
Lemma zset_at_after_purge (key : string) (lo now now' : Z) (r r' : Redis) :
  redis_zremrangebyscore key lo now r = Some r' ->
  now <= now' ->
  forall lo', lo <= lo' ->
    zremrangebyscore_upto lo' (zset_at key now' r')
    = zremrangebyscore_upto lo' (zset_at key now' r).
Proof.
  unfold redis_zremrangebyscore. destruct (reachable r); [|discriminate].
  intros [= <-] Hnow lo' Hlo. unfold zset_at, live. cbn.
  rewrite lookup_partial_alter_eq.
  destruct (zsets_db r !! key) as [e|]; [|reflexivity].
  destruct (now <? deadline e) eqn:E1.
  - destruct (bool_decide_reflect (zremrangebyscore_upto lo (value e) = ∅)) as [He|He].
    + destruct (now' <? deadline e); [|reflexivity].
      rewrite <- (zremrangebyscore_upto_twice lo lo' (value e) Hlo), He.
      reflexivity.
    + cbn. destruct (now' <? deadline e); [|reflexivity].
      now apply zremrangebyscore_upto_twice.
  - now replace (now' <? deadline e) with false by lia.
Qed.

Lemma insert_partial_alter_same {A : Type} (f : option A -> option A)
  (k : string) (v : A) (m : gmap string A) :
  <[k := v]> (partial_alter f k m) = <[k := v]> m.
Proof.
  apply map_eq. intros i. destruct (decide (i = k)) as [->|Hne].
  - now rewrite !lookup_insert_eq.
  - rewrite !lookup_insert_ne by congruence.
    now rewrite lookup_partial_alter_ne by congruence.
Qed.

(** What [getRemainingRequests] tells about [checkRateLimit]. *)
Lemma getRemainingRequests_and_checkRateLimit (identifier : string)
  (maxRequests windowMs now : Z) (st : State) :
  (reachable (redis st) = true ->
   forall random,
     let left := fst (getRemainingRequests identifier maxRequests windowMs now st) in
     let result :=
       fst (checkRateLimit identifier maxRequests windowMs now random st) in
     allowed result = (0 <? left) /\ remaining result = Z.max 0 (left - 1))
  /\ (forall now' random,
        now <= now' ->
        checkRateLimit identifier maxRequests windowMs now' random
          (snd (getRemainingRequests identifier maxRequests windowMs now st))
        = checkRateLimit identifier maxRequests windowMs now' random st)
  /\ (reachable (redis st) = false ->
      getRemainingRequests identifier maxRequests windowMs now st
      = (maxRequests, st)).
Proof.
  split; [|split].
  - intros Hup random.
    unfold getRemainingRequests, redis_zcard, redis_zremrangebyscore.
    rewrite Hup. cbn [reachable fst].
    match goal with
    | |- context [zset_at ?k now ?r0] =>
        assert (Hz : zset_at k now r0
                     = zremrangebyscore_upto (now - windowMs)
                         (zset_at (ratelimit_key identifier) now (redis st)))
    end.
    { unfold zset_at, live. cbn.
      rewrite lookup_partial_alter_eq.
      destruct (zsets_db (redis st) !! ratelimit_key identifier) as [e|];
        [|now rewrite zremrangebyscore_upto_empty].
      destruct (now <? deadline e) eqn:E1;
        [|now rewrite zremrangebyscore_upto_empty].
      destruct (bool_decide_reflect
                  (zremrangebyscore_upto (now - windowMs) (value e) = ∅))
        as [He|He]; [now rewrite He|].
      cbn. now rewrite E1. }
    rewrite Hz. unfold checkRateLimit. rewrite Hup. cbn [fst allowed remaining].
    set (count := Z.of_nat (size _)). split; [|lia].
    destruct (Z.ltb_spec count maxRequests); symmetry;
      [apply Z.ltb_lt|apply Z.ltb_ge]; lia.
  - intros now' random Hnow. unfold getRemainingRequests.
    destruct (redis_zremrangebyscore _ _ _ _) as [r|] eqn:Er; [|reflexivity].
    assert (Hsame : forall o : Z * State, snd o = set_redis r st ->
              checkRateLimit identifier maxRequests windowMs now' random (snd o)
              = checkRateLimit identifier maxRequests windowMs now' random st).
    { intros o ->.
      pose proof (zset_at_after_purge _ _ _ now' _ _ Er Hnow (now' - windowMs)
                    ltac:(lia)) as Hz.
      unfold redis_zremrangebyscore in Er.
      destruct (reachable (redis st)) eqn:Hup; [|discriminate].
      injection Er as <-. unfold checkRateLimit. cbn [redis set_redis reachable].
      rewrite Hup. cbn [redis set_redis reachable] in Hz. rewrite Hz.
      f_equal. unfold set_redis. cbn. f_equal. f_equal.
      apply insert_partial_alter_same. }
    destruct (redis_zcard _ _ _); now apply Hsame.
  - intros Hdown. unfold getRemainingRequests, redis_zremrangebyscore.
    now rewrite Hdown.
Qed.

(** X13: [getRemainingRequests] tells what the next [checkRateLimit] of the
    same instant will answer, and asking does not count.  With the store
    reachable, the call is allowed exactly when the number returned is
    positive and its [remaining] is that number less one, not below zero;
    a [checkRateLimit] made at that instant or later answers, and leaves
    the store, as if [getRemainingRequests] had not been called.  With the
    store unreachable the full limit is returned. *)
Theorem getRemainingRequests_predicts_checkRateLimit (identifier : string)
  (maxRequests windowMs now : Z) (st : State) :
  (reachable (redis st) = true ->
   forall random,
     let left := fst (getRemainingRequests identifier maxRequests windowMs now st) in
     let result :=
       fst (checkRateLimit identifier maxRequests windowMs now random st) in
     allowed result = (0 <? left) /\ remaining result = Z.max 0 (left - 1))
  /\ (forall now' random,
        now <= now' ->
        checkRateLimit identifier maxRequests windowMs now' random
          (snd (getRemainingRequests identifier maxRequests windowMs now st))
        = checkRateLimit identifier maxRequests windowMs now' random st)
  /\ (reachable (redis st) = false ->
      getRemainingRequests identifier maxRequests windowMs now st
      = (maxRequests, st)).
Proof. apply getRemainingRequests_and_checkRateLimit. Qed.

(** X14: [resetRateLimit] forgets the window of its identifier and nothing
    else.  With the store reachable the next [checkRateLimit] of the
    identifier counts no earlier call; the answers for every other
    identifier, the cached sessions and the tables are as before.  With
    the store unreachable nothing changes and nothing is thrown. *)
Theorem resetRateLimit_clears_one_window `{config : Config}
  (identifier : string) (st : State) :
  (reachable (redis st) = true ->
   forall maxRequests windowMs now random,
     fst (checkRateLimit identifier maxRequests windowMs now random
            (resetRateLimit identifier st))
     = {| allowed := 0 <? maxRequests;
          remaining := Z.max 0 (maxRequests - 1);
          resetAt := now + windowMs |})
  /\ (forall other maxRequests windowMs now random,
        other <> identifier ->
        fst (checkRateLimit other maxRequests windowMs now random
               (resetRateLimit identifier st))
        = fst (checkRateLimit other maxRequests windowMs now random st))
  /\ (forall sid now,
        getCachedSession sid now (resetRateLimit identifier st)
        = getCachedSession sid now st)
  /\ sessions (resetRateLimit identifier st) = sessions st
  /\ users (resetRateLimit identifier st) = users st
  /\ (reachable (redis st) = false -> resetRateLimit identifier st = st).
Proof.
  unfold resetRateLimit, redis_del.
  destruct (reachable (redis st)) eqn:Hup.
  - split; [|split; [|split; [|split; [|split]]]];
      try reflexivity; try discriminate.
    + intros _ maxRequests windowMs now random. unfold checkRateLimit.
      cbn [redis set_redis reachable fst].
      unfold zset_at, live. cbn. rewrite lookup_delete_eq.
      rewrite zremrangebyscore_upto_empty, map_size_empty.
      cbn [Z.of_nat]. now rewrite Z.sub_0_r.
    + intros other maxRequests windowMs now random Hne.
      apply checkRateLimit_result_local; [cbn; now rewrite ?Hup|].
      unfold zset_at. cbn.
      rewrite lookup_delete_ne; [reflexivity|].
      intros H. apply ratelimit_key_inj in H. congruence.
    + intros sid now. unfold getCachedSession, redis_get. cbn. rewrite Hup.
      rewrite lookup_delete_ne; [reflexivity|].
      apply ratelimit_key_not_session_key.
  - split; [|split; [|split; [|split; [|split]]]];
      try reflexivity; discriminate.
Qed.


End RateLimitService.

(* ===================================================================== *)
(** * The rate-limit middleware *)
(* ===================================================================== *)

Section RateLimitMiddleware.


Lemma ip_key_inj (a b : string) :
  ratelimit_key ("ip:" +:+ a) = ratelimit_key ("ip:" +:+ b) -> a = b.
Proof.
  unfold ratelimit_key. cbv [String.append]. fold String.append. congruence.
Qed.

(** The middleware leaves the store as its [checkRateLimit] call does. *)
Lemma rateLimitByIP_state (maxRequests windowMs : Z) (xff xri : option string)
  (now later : Z) (random : string) (st : State) :
  snd (rateLimitByIP maxRequests windowMs xff xri now later random st)
  = snd (checkRateLimit ("ip:" +:+ header_or xff (header_or xri "unknown"))
           maxRequests windowMs now random st).
Proof.
  unfold rateLimitByIP.
  destruct (checkRateLimit _ _ _ _ _ _) as [res st1]. cbn [snd].
  destruct (toISOString (resetAt res)); [|reflexivity].
  now destruct (negb (allowed res)).
Qed.

Lemma rateLimitByIP_outcome (maxRequests windowMs : Z) (xff xri : option string)
  (now later : Z) (random : string) (st : State) :
  outcome (fst (rateLimitByIP maxRequests windowMs xff xri now later random st))
  = match toISOString (now + windowMs) with
    | Some _ =>
        outcome_of
          (fst (checkRateLimit ("ip:" +:+ header_or xff (header_or xri "unknown"))
                  maxRequests windowMs now random st))
    | None => CalledNext
    end.
Proof.
  unfold rateLimitByIP.
  assert (Hreset : resetAt
            (fst (checkRateLimit ("ip:" +:+ header_or xff (header_or xri "unknown"))
                    maxRequests windowMs now random st)) = now + windowMs)
    by (unfold checkRateLimit; now destruct (reachable (redis st))).
  destruct (checkRateLimit _ _ _ _ _ _) as [res st1]. cbn [fst] in *.
  rewrite Hreset. destruct (toISOString (now + windowMs)); [|reflexivity].
  unfold outcome_of. now destruct (allowed res).
Qed.

(** Requests of one client go through [checkRateLimit] one after the
    other under the identifier of its address. *)
Lemma rateLimitByIP_requests_calls (maxRequests windowMs : Z) (ip : string)
  (requests : list Request) (st : State) :
  Forall (fun q => client_ip q = ip) requests ->
  Forall (fun q => toISOString (clock q + windowMs) <> None) requests ->
  map outcome (fst (rateLimitByIP_requests maxRequests windowMs requests st))
  = map outcome_of
      (fst (checkRateLimit_calls ("ip:" +:+ ip) maxRequests windowMs
              (map call_of requests) st))
  /\ snd (rateLimitByIP_requests maxRequests windowMs requests st)
     = snd (checkRateLimit_calls ("ip:" +:+ ip) maxRequests windowMs
              (map call_of requests) st).
Proof.
  revert st. induction requests as [|q rest IH]; intros st Hip Hdate.
  - now split.
  - apply Forall_cons in Hip as [Hq Hip]. apply Forall_cons in Hdate as [Hd Hdate].
    cbn [rateLimitByIP_requests map call_of checkRateLimit_calls].
    pose proof (rateLimitByIP_state maxRequests windowMs (x_forwarded_for q)
                  (x_real_ip q) (clock q) (clock_later q) (draw q) st) as Hst.
    pose proof (rateLimitByIP_outcome maxRequests windowMs (x_forwarded_for q)
                  (x_real_ip q) (clock q) (clock_later q) (draw q) st) as Hout.
    unfold client_ip in Hq. rewrite Hq in Hst, Hout.
    destruct (toISOString (clock q + windowMs)); [|now contradict Hd].
    destruct (rateLimitByIP _ _ _ _ _ _ _ _) as [reply st1].
    destruct (checkRateLimit _ _ _ _ _ _) as [res st1'].
    cbn [fst snd] in Hst, Hout. subst st1'.
    specialize (IH st1 Hip Hdate) as [IHo IHs].
    destruct (rateLimitByIP_requests _ _ _ _) as [replies st2].
    destruct (checkRateLimit_calls _ _ _ _ _) as [results st2'].
    cbn [fst snd map] in *. split; [now rewrite Hout, IHo|exact IHs].
Qed.

(** X16: the requests of one client address, as [rateLimitByIP] takes it
    from the headers, are let through or refused as a sliding window over
    that address answers them: on a reachable store with no window on
    record for the address, with clock readings that do not decrease,
    distinct markers and reset instants that are valid dates, a request
    ends in [RateLimitError('Too many requests, please try again later')]
    exactly when [maxRequests] or more earlier requests of the address,
    let through or not, lie less than [windowMs] before it. *)
Theorem rateLimitByIP_same_client_sliding_window (maxRequests windowMs : Z)
  (ip : string) (requests : list Request) (st : State) :
  reachable (redis st) = true ->
  zsets_db (redis st) !! ratelimit_key ("ip:" +:+ ip) = None ->
  Forall (fun q => client_ip q = ip) requests ->
  Forall (fun q => toISOString (clock q + windowMs) <> None) requests ->
  Sorted.StronglySorted Z.le (map clock requests) ->
  NoDup (map (fun q => marker (clock q) (draw q)) requests) ->
  map outcome (fst (rateLimitByIP_requests maxRequests windowMs requests st))
  = map outcome_of
      (sliding_window_results maxRequests windowMs [] (map call_of requests)).
Proof.
  intros Hup Hnone Hip Hdate Hs Hnd.
  destruct (rateLimitByIP_requests_calls maxRequests windowMs ip requests st
              Hip Hdate) as [-> _].
  f_equal.
  apply (checkRateLimit_calls_invariant ("ip:" +:+ ip) maxRequests windowMs
           (map call_of requests) [] st).
  - now apply window_invariant_start.
  - cbn [app]. now rewrite map_map.
  - cbn [app]. now rewrite map_map.
Qed.

(** One request whose address has no window on record. *)
Lemma rateLimitByIP_fresh (maxRequests windowMs : Z) (q : Request) (st : State) :
  0 < maxRequests ->
  reachable (redis st) = true ->
  zsets_db (redis st) !! ratelimit_key ("ip:" +:+ client_ip q) = None ->
  outcome (fst (rateLimitByIP maxRequests windowMs (x_forwarded_for q)
                  (x_real_ip q) (clock q) (clock_later q) (draw q) st))
  = CalledNext.
Proof.
  intros Hmax Hup Hnone. rewrite rateLimitByIP_outcome.
  destruct (toISOString (clock q + windowMs)); [|reflexivity].
  fold (client_ip q). unfold checkRateLimit. rewrite Hup. cbn [fst].
  unfold zset_at. rewrite Hnone. cbn [live].
  rewrite zremrangebyscore_upto_empty, map_size_empty. unfold outcome_of.
  cbn [allowed]. change (Z.of_nat 0) with 0.
  destruct (Z.ltb_spec 0 maxRequests); [reflexivity|lia].
Qed.

(** X17: a client that sends a different [x-forwarded-for] (or
    [x-real-ip]) value with each request is never refused.  On a reachable
    store, with a positive limit, requests whose addresses, as the
    middleware reads them, are pairwise distinct and have no window on
    record all reach [next], however many they are and however close in
    time. *)
Theorem rateLimitByIP_fresh_address_never_refused (maxRequests windowMs : Z)
  (requests : list Request) (st : State) :
  0 < maxRequests ->
  reachable (redis st) = true ->
  NoDup (map client_ip requests) ->
  Forall (fun q => zsets_db (redis st) !! ratelimit_key ("ip:" +:+ client_ip q) = None)
    requests ->
  Forall (fun reply => outcome reply = CalledNext)
    (fst (rateLimitByIP_requests maxRequests windowMs requests st)).
Proof.
  intros Hmax. revert st.
  induction requests as [|q rest IH]; intros st Hup Hnd Hnone; [constructor|].
  cbn [map] in Hnd. apply NoDup_cons in Hnd as [Hq Hnd].
  apply Forall_cons in Hnone as [Hnq Hnone].
  cbn [rateLimitByIP_requests].
  pose proof (rateLimitByIP_fresh maxRequests windowMs q st Hmax Hup Hnq) as Hout.
  pose proof (rateLimitByIP_state maxRequests windowMs (x_forwarded_for q)
                (x_real_ip q) (clock q) (clock_later q) (draw q) st) as Hst.
  fold (client_ip q) in Hst.
  destruct (checkRateLimit_frame ("ip:" +:+ client_ip q) maxRequests windowMs
              (clock q) (draw q) st) as (_ & _ & Hup1 & _ & Hframe).
  rewrite <- Hst in Hup1, Hframe.
  destruct (rateLimitByIP _ _ _ _ _ _ _ _) as [reply st1].
  cbn [fst snd] in *.
  specialize (IH st1).
  destruct (rateLimitByIP_requests maxRequests windowMs rest st1)
    as [replies st2] eqn:Er.
  cbn [fst]. constructor; [exact Hout|].
  apply IH; [congruence|exact Hnd|].
  rewrite Forall_forall in Hnone. apply Forall_forall. intros q' Hq'.
  rewrite Hframe; [now apply Hnone|].
  intros Heq. apply ip_key_inj in Heq. apply Hq. rewrite <- Heq.
  apply list_elem_of_In, in_map, list_elem_of_In, Hq'.
Qed.




(** The reply to the last of six requests of one address within three
    seconds, under [strictRateLimit]. *)
Example strictRateLimit_sixth_reply :
  last (fst (rateLimitByIP_requests RATE_LIMIT_MAX_AUTH_REQUESTS
               RATE_LIMIT_WINDOW_MS six_requests Scenario.start))
  = Some
      {| headers :=
           [("X-RateLimit-Limit", "5");
            ("X-RateLimit-Remaining", "0");
            ("X-RateLimit-Reset", "1970-01-01T00:15:03.500Z");
            ("Retry-After", "900")];
         outcome :=
           Threw (RateLimitError "Too many requests, please try again later") |}.
Proof. vm_compute. reflexivity. Qed.

End RateLimitMiddleware.

(* ===================================================================== *)
(** * optionalAuth beside authenticate *)
(* ===================================================================== *)

Section OptionalAuthFacts.
Context {jose : Jose} {config : Config}.

Lemma verifyAccessToken_errors (token : string) (now : Z) (e : AppError) :
  verifyAccessToken token now = inl e ->
  e = AuthenticationError "Access token has expired"
  \/ e = AuthenticationError "Invalid access token".
Proof.
  unfold verifyAccessToken. destruct (jwtVerify token jwt_accessSecret now) as [m|p];
    [|discriminate].
  destruct (includes m "expired"); intros [= <-]; auto.
Qed.

(** X19: [optionalAuth] is [authenticate] without its refusals and without
    the comparison of the token with the session.  Whatever [authenticate]
    accepts, [optionalAuth] attaches, and it leaves the same store; a
    bearer token that [authenticate] refuses with ['Invalid token'],
    because the session now holds another access token, still has its
    user, session and role attached by [optionalAuth]; and [optionalAuth]
    deletes no session, expired or not. *)
Theorem optionalAuth_skips_token_comparison (authHeader : option string)
  (now : Z) (st : State) :
  (forall ctx,
      fst (authenticate authHeader now st) = inr ctx ->
      optionalAuth authHeader now st = (Some ctx, snd (authenticate authHeader now st)))
  /\ (fst (authenticate authHeader now st)
      = inl (AuthenticationError "Invalid token") ->
      exists ctx, fst (optionalAuth authHeader now st) = Some ctx)
  /\ sessions (snd (optionalAuth authHeader now st)) = sessions st.
Proof.
  unfold authenticate, optionalAuth.
  destruct authHeader as [header|];
    [|split; [discriminate|split; [discriminate|reflexivity]]].
  destruct (negb (String.prefix "Bearer " header));
    [split; [discriminate|split; [discriminate|reflexivity]]|].
  set (token := String.substring 7 (String.length header - 7) header).
  destruct (verifyAccessToken token now) as [e|payload] eqn:Ev.
  { split; [discriminate|split; [|reflexivity]].
    cbn [fst]. intros [= ->].
    destruct (verifyAccessToken_errors _ _ _ Ev); discriminate. }
  pose proof (sessions_getSession (payload_sessionId payload) now st) as Hs.
  destruct (getSession (payload_sessionId payload) now st) as [[session|] st1];
    cbn [snd] in Hs;
    [|split; [discriminate|split; [discriminate|exact Hs]]].
  destruct (Z.ltb_spec (data_expiresAt session) now) as [Hexp|Hlive].
  { replace (now <=? data_expiresAt session) with false by lia.
    split; [discriminate|split; [discriminate|exact Hs]]. }
  replace (now <=? data_expiresAt session) with true by lia.
  destruct (negb (String.eqb (data_accessToken session) token)); cbn [fst snd].
  - split; [discriminate|split; [eauto|exact Hs]].
  - split; [now intros ctx [= <-]|split; [discriminate|exact Hs]].
Qed.

(** X20: [authenticate] writes to the table of sessions on one path only.
    It never changes the users; unless it answers ['Session expired'] the
    sessions are as before; and when it answers ['Session expired'] exactly
    the rows of the session that the token names are removed, that session
    having been read with an expiry before the clock. *)
Theorem authenticate_deletes_only_expired (authHeader : option string)
  (now : Z) (st : State) :
  users (snd (authenticate authHeader now st)) = users st
  /\ (fst (authenticate authHeader now st)
      <> inl (AuthenticationError "Session expired") ->
      sessions (snd (authenticate authHeader now st)) = sessions st)
  /\ (fst (authenticate authHeader now st)
      = inl (AuthenticationError "Session expired") ->
      exists sid session,
        fst (getSession sid now st) = Some session
        /\ data_expiresAt session < now
        /\ sessions (snd (authenticate authHeader now st))
           = List.filter (fun r => negb (String.eqb (session_id r) sid))
               (sessions st)).
Proof.
  unfold authenticate.
  destruct authHeader as [header|];
    [|split; [reflexivity|split; [reflexivity|discriminate]]].
  destruct (negb (String.prefix "Bearer " header));
    [split; [reflexivity|split; [reflexivity|discriminate]]|].
  set (token := String.substring 7 (String.length header - 7) header).
  destruct (verifyAccessToken token now) as [e|payload] eqn:Ev.
  { split; [reflexivity|split; [reflexivity|]].
    cbn [fst]. intros [= ->].
    destruct (verifyAccessToken_errors _ _ _ Ev); discriminate. }
  pose proof (sessions_getSession (payload_sessionId payload) now st) as Hs.
  pose proof (users_getSession (payload_sessionId payload) now st) as Hu.
  pose proof (getSession_id (payload_sessionId payload) now st) as Hid.
  destruct (getSession (payload_sessionId payload) now st) as [[session|] st1] eqn:Eg;
    cbn [fst snd] in Hs, Hu, Hid;
    [|split; [exact Hu|split; [intros _; exact Hs|discriminate]]].
  specialize (Hid session eq_refl).
  destruct (Z.ltb_spec (data_expiresAt session) now) as [Hexp|Hlive].
  - cbn [fst snd]. split; [|split].
    + unfold deleteSession, deleteCachedSession.
      destruct (redis_del _ _); cbn; exact Hu.
    + intros H. now contradict H.
    + intros _. exists (payload_sessionId payload), session.
      split; [now rewrite Eg|]. split; [exact Hexp|].
      unfold deleteSession. rewrite sessions_deleteCachedSession. cbn.
      now rewrite Hs, Hid.
  - destruct (negb (String.eqb (data_accessToken session) token)); cbn [fst snd];
      (split; [exact Hu|split; [intros _; exact Hs|discriminate]]).
Qed.

End OptionalAuthFacts.

(* ===================================================================== *)
(** * Login, logout and logout from all devices *)
(* ===================================================================== *)

Section AuthFlowFacts.
Context {jose : Jose} {config : Config}.










End AuthFlowFacts.

(* ===================================================================== *)
(** * The error handler and the Google client *)
(* ===================================================================== *)

Section ErrorHandling.

(** X24: [errorHandler] answers every error of the application from the
    fields of the error itself, so that its six branches for the classes
    that extend [AppError] are never taken: the handler is the handler
    without them.  An [AuthenticationError] is answered with status 401
    and code [AUTHENTICATION_ERROR], a [RateLimitError] with status 429 and
    code [RATE_LIMIT_EXCEEDED], each with its message and without details.
    Outside development, for an error that is neither a [ZodError] nor an
    error of the application, the response depends on the [code] of the
    error alone: its message, [detail] and [stack] are not disclosed. *)
Theorem errorHandler_subclass_branches_dead (isDevelopment : bool) :
  (forall err,
      errorHandler isDevelopment err
      = errorHandler_without_subclass_branches isDevelopment err)
  /\ (forall message,
        errorHandler isDevelopment (error_object_of (AuthenticationError message))
        = {| response_status := 401;
             response_code := "AUTHENTICATION_ERROR";
             response_message := message;
             response_details := NoDetails |})
  /\ (forall message,
        errorHandler isDevelopment (error_object_of (RateLimitError message))
        = {| response_status := 429;
             response_code := "RATE_LIMIT_EXCEEDED";
             response_message := message;
             response_details := NoDetails |})
  /\ (forall message message' code detail detail' stack stack',
        errorHandler false (OtherError message code detail stack)
        = errorHandler false (OtherError message' code detail' stack')
        /\ response_details (errorHandler false (OtherError message code detail stack))
           = NoDetails).
Proof.
  split; [|split; [|split]].
  - intros [issues|class message code statusCode details|message code detail stack];
      try reflexivity.
    now destruct class.
  - reflexivity.
  - reflexivity.
  - intros message message' code detail detail' stack stack'.
    unfold errorHandler. cbn.
    destruct code as [| |b|n|s|xs|fields]; try (split; reflexivity).
    destruct (String.eqb s "23505"); [split; reflexivity|].
    destruct (String.eqb s "23503"); [split; reflexivity|].
    destruct (String.eqb s "23502"); split; reflexivity.
Qed.

(** X25: the Google client hides why an exchange failed.  Whatever goes
    wrong in [getTokensFromCode] (a rejected request, a missing access
    token, a missing refresh token) the caller gets
    [AuthenticationError('Failed to authenticate with Google')], and in
    [getUserInfo] [AuthenticationError('Failed to retrieve user
    information')]; the messages thrown inside are never seen.  A call
    succeeds exactly when the answer of Google has the required members,
    and then the tokens, the id, the email and the name it returns are all
    non-empty, the name falling back to the email, and the picture is never
    [null]. *)
Theorem google_client_masks_errors :
  (forall reply now e,
      getTokensFromCode reply now = inl e ->
      e = AuthenticationError "Failed to authenticate with Google")
  /\ (forall reply now accessToken refreshToken expiresIn,
        getTokensFromCode reply now = inr (accessToken, refreshToken, expiresIn)
        <-> exists tokens,
              reply = Some tokens
              /\ accessToken = access_token tokens
              /\ refreshToken = refresh_token tokens
              /\ JS.ToBoolean accessToken = true
              /\ JS.ToBoolean refreshToken = true
              /\ expiresIn = JS.or_else (expiry_date tokens)
                               (JS.JSNumber (JS.of_Z (now + 3600 * 1000))))
  /\ (forall reply e,
        getUserInfo reply = inl e ->
        e = AuthenticationError "Failed to retrieve user information")
  /\ (forall reply info,
        getUserInfo reply = inr info ->
        JS.ToBoolean (info_id info) = true
        /\ JS.ToBoolean (info_email info) = true
        /\ JS.ToBoolean (info_name info) = true
        /\ info_picture info <> JS.JSNull).
Proof.
  split; [|split; [|split]].
  - intros reply now e. unfold getTokensFromCode.
    destruct (getTokensFromCode_try reply now); [|discriminate]. now intros [= <-].
  - intros reply now a r x. unfold getTokensFromCode, getTokensFromCode_try.
    destruct reply as [tokens|].
    + destruct (JS.ToBoolean (access_token tokens)) eqn:Ea; cbn [negb].
      * destruct (JS.ToBoolean (refresh_token tokens)) eqn:Er; cbn [negb].
        -- split.
           ++ intros [= <- <- <-]. exists tokens. repeat split; auto.
           ++ intros (t & [= <-] & -> & -> & _ & _ & ->). reflexivity.
        -- split; [discriminate|].
           intros (t & [= <-] & _ & -> & _ & Hr & _). congruence.
      * split; [discriminate|].
        intros (t & [= <-] & -> & _ & Ha & _). congruence.
    + split; [discriminate|]. intros (t & Ht & _). discriminate.
  - intros reply e. unfold getUserInfo.
    destruct (getUserInfo_try reply); [|discriminate]. now intros [= <-].
  - intros reply info. unfold getUserInfo, getUserInfo_try.
    destruct reply as [data|]; [|discriminate].
    destruct (JS.ToBoolean (google_id data)) eqn:Ei; [|discriminate].
    destruct (JS.ToBoolean (google_email data)) eqn:Ee; [|discriminate].
    cbn [negb orb]. intros [= <-]. cbn.
    split; [exact Ei|]. split; [exact Ee|]. split.
    + unfold JS.or_else. now destruct (JS.ToBoolean (google_name data)) eqn:En.
    + now destruct (google_picture data).
Qed.

End ErrorHandling.

(* ===================================================================== *)
(** * The read-through cache *)
(* ===================================================================== *)

Section ReadThrough.
Context {config : Config}.

(** X26: the cache that [getSession] fills is transparent to later reads.
    Whatever [getSession] of a session did to the cache, a [getSession] of
    the same session at that instant or later returns what it would have
    returned without the earlier call; and the earlier call changes no
    table. *)
Theorem getSession_cache_transparent (sid : string) (now now' : Z) (st : State) :
  now <= now' ->
  fst (getSession sid now' (snd (getSession sid now st)))
  = fst (getSession sid now' st)
  /\ sessions (snd (getSession sid now st)) = sessions st
  /\ users (snd (getSession sid now st)) = users st.
Proof.
  intros Hnow. split; [|split; [apply sessions_getSession|apply users_getSession]].
  unfold getSession at 2.
  destruct (getCachedSession sid now st) as [c|] eqn:Ec; [reflexivity|].
  destruct (find_session sid (sessions st)) as [row|] eqn:Erow; [|reflexivity].
  cbn [snd].
  assert (Hmiss : getCachedSession sid now' st = None).
  { revert Ec. unfold getCachedSession, redis_get.
    destruct (reachable (redis st)); [|reflexivity].
    unfold live. destruct (strings_db (redis st) !! session_key sid) as [e|];
      [|reflexivity].
    destruct (now <? deadline e) eqn:E; [discriminate|].
    now replace (now' <? deadline e) with false by lia. }
  unfold getSession. rewrite Hmiss, sessions_cacheSession, Erow.
  destruct (getCachedSession sid now' (cacheSession sid _ now st)) as [c|] eqn:Ec';
    [|reflexivity].
  cbn [fst]. f_equal.
  destruct (reachable (redis st)) eqn:Hup.
  - apply getCachedSession_cacheSession in Ec'; [exact Ec'| |exact Hup].
    cbn. now apply find_session_id in Erow.
  - rewrite redis_cacheSession_unreachable in Ec' by exact Hup.
    rewrite getCachedSession_unreachable in Ec' by exact Hup. discriminate.
Qed.

End ReadThrough.

(* ===================================================================== *)
(** * The calendar of [toISOString] *)
(* ===================================================================== *)

Section Calendar.

Lemma civil_of_days_shift (day k : Z) :
  civil_of_days (day + 146097 * k)
  = let '(y, m, d) := civil_of_days day in (y + 400 * k, m, d).
Proof.
  unfold civil_of_days.
  replace (day + 146097 * k + 719468) with (day + 719468 + k * 146097) by lia.
  rewrite Z.div_add by lia.
  replace (day + 719468 + k * 146097 - ((day + 719468) / 146097 + k) * 146097)
    with (day + 719468 - (day + 719468) / 146097 * 146097) by lia.
  set (doe := day + 719468 - (day + 719468) / 146097 * 146097).
  set (yoe := (doe - doe / 1460 + doe / 36524 - doe / 146096) / 365).
  set (doy := doe - (365 * yoe + yoe / 4 - yoe / 100)).
  set (mp := (5 * doy + 2) / 153).
  destruct ((if mp <? 10 then mp + 3 else mp - 9) <=? 2); f_equal; f_equal; lia.
Qed.

Lemma DayFromYear_shift (y k : Z) :
  DayFromYear (y + 400 * k) = DayFromYear y + 146097 * k.
Proof.
  unfold DayFromYear.
  replace (y + 400 * k - 1969) with (y - 1969 + (100 * k) * 4) by lia.
  replace (y + 400 * k - 1901) with (y - 1901 + (4 * k) * 100) by lia.
  replace (y + 400 * k - 1601) with (y - 1601 + k * 400) by lia.
  rewrite !Z.div_add by lia. lia.
Qed.

Lemma InLeapYear_shift (y k : Z) : InLeapYear (y + 400 * k) = InLeapYear y.
Proof.
  unfold InLeapYear.
  replace (y + 400 * k) with (y + (100 * k) * 4) at 1 by lia.
  replace (y + 400 * k) with (y + (4 * k) * 100) at 1 by lia.
  replace (y + 400 * k) with (y + k * 400) by lia.
  now rewrite !Z.mod_add by lia.
Qed.

Lemma civil_ok_shift (day k : Z) : civil_ok (day + 146097 * k) = civil_ok day.
Proof.
  unfold civil_ok. rewrite civil_of_days_shift.
  destruct (civil_of_days day) as [[y m] d].
  assert (Hb : days_before_month (y + 400 * k) m = days_before_month y m)
    by (unfold days_before_month; now rewrite InLeapYear_shift).
  assert (Hi : days_in_month (y + 400 * k) m = days_in_month y m)
    by (unfold days_in_month; now rewrite InLeapYear_shift).
  unfold days_of_civil. rewrite Hb, Hi, DayFromYear_shift. f_equal.
  destruct (Z.eqb_spec (DayFromYear y + days_before_month y m + (d - 1)) day);
    [apply Z.eqb_eq|apply Z.eqb_neq]; lia.
Qed.

Lemma civil_ok_from_spec (n : nat) (day j : Z) :
  civil_ok_from n day = true -> 0 <= j < Z.of_nat n -> civil_ok (day + j) = true.
Proof.
  revert day j. induction n as [|n IH]; intros day j H Hj; [lia|].
  cbn [civil_ok_from] in H. apply andb_prop in H as [H0 H1].
  destruct (Z.eq_dec j 0) as [->|Hne]; [now rewrite Z.add_0_r|].
  replace (day + j) with (day + 1 + (j - 1)) by lia. apply IH; [exact H1|lia].
Qed.

(** The 146097 days of one cycle of 400 years. *)
Lemma civil_ok_era : civil_ok_from (Z.to_nat 146097) 0 = true.
Proof. vm_compute. reflexivity. Qed.

(** [civil_of_days] agrees with the day numbering of ECMAScript: the date
    it gives is a date of the calendar, and [DayFromYear], the lengths of
    the months and the day of the month give the day number back. *)
Lemma civil_of_days_correct (day : Z) : civil_ok day = true.
Proof.
  pose proof (Z.div_mod day 146097 ltac:(lia)) as Hd.
  pose proof (Z.mod_pos_bound day 146097 ltac:(lia)) as Hm.
  replace day with (day mod 146097 + 146097 * (day / 146097)) by lia.
  rewrite civil_ok_shift.
  apply (civil_ok_from_spec (Z.to_nat 146097) 0 (day mod 146097) civil_ok_era).
  lia.
Qed.

(** [toISOString] at the epoch, on a leap day, before the epoch, at the
    first year of five digits, before year zero, and at the two ends of
    the range of dates. *)
Example toISOString_examples :
  toISOString 0 = Some "1970-01-01T00:00:00.000Z"
  /\ toISOString 1709251199999 = Some "2024-02-29T23:59:59.999Z"
  /\ toISOString (-1) = Some "1969-12-31T23:59:59.999Z"
  /\ toISOString 253402300800000 = Some "+010000-01-01T00:00:00.000Z"
  /\ toISOString (-62198755200000) = Some "-000001-01-01T00:00:00.000Z"
  /\ toISOString 8640000000000000 = Some "+275760-09-13T00:00:00.000Z"
  /\ toISOString (-8640000000000000) = Some "-271821-04-20T00:00:00.000Z"
  /\ toISOString 8640000000000001 = None.
Proof. vm_compute. repeat split. Qed.

End Calendar.

(* ===================================================================== *)
(** * The theorems above at concrete inputs *)
(* ===================================================================== *)


Lemma deleteAllUserSessions_removes_all_witness :
  strings_db
    (redis (snd (deleteAllUserSessions Scenario.U Scenario.logged_in)))
  !! @session_key Scenario.A = None.
Proof.
  apply (proj1 (proj2 (proj2
           (deleteAllUserSessions_removes_all Scenario.U Scenario.logged_in)))
           eq_refl
           (with_tokens Scenario.access0 Scenario.refresh0
              (Scenario.t0 + Scenario.week) Scenario.t0
              {| session_id := Scenario.A; session_userId := Scenario.U;
                 session_accessToken := "google-access";
                 session_refreshToken := "google-refresh";
                 session_deviceId := None; session_userAgent := None;
                 session_ipAddress := None;
                 session_expiresAt := Scenario.t0 + Scenario.week;
                 session_createdAt := Scenario.t0;
                 session_updatedAt := Scenario.t0 |})).
  - vm_compute. left. reflexivity.
  - reflexivity.
Defined.

Lemma createSession_then_getSession_witness :
  find_session Scenario.A (sessions Scenario.start) = None
  /\ fst (@getSession default_config Scenario.A 90000000
            (snd (@createSession default_config (Scenario.login 1000)
                    Scenario.A 1000 Scenario.start)))
     = Some {| data_id := Scenario.A;
               data_userId := Scenario.U;
               data_accessToken := "google-access";
               data_refreshToken := "google-refresh";
               data_expiresAt := 1000 + Scenario.week |}.
Proof.
  split; [reflexivity|].
  apply (@createSession_then_getSession default_config (Scenario.login 1000)
           Scenario.A 1000 90000000 Scenario.start).
  reflexivity.
Defined.



Lemma five_calls_sorted : Sorted.StronglySorted Z.le (map fst five_calls).
Proof.
  cbn.
  repeat match goal with
         | |- Sorted.StronglySorted _ [] => apply Sorted.SSorted_nil
         | |- Sorted.StronglySorted _ (_ :: _) => apply Sorted.SSorted_cons
         | |- Forall _ [] => constructor
         | |- Forall _ (_ :: _) => constructor
         | |- _ <= _ => lia
         end.
Defined.

Lemma five_calls_distinct :
  NoDup (map (fun c => marker (fst c) (snd c)) five_calls).
Proof. apply (bool_decide_unpack _). vm_compute. exact I. Defined.

Lemma checkRateLimit_calls_sliding_window_witness :
  map allowed
    (fst (checkRateLimit_calls "ip:203.0.113.7" 3 60000 five_calls Scenario.start))
  = [true; true; true; false; false].
Proof.
  rewrite (checkRateLimit_calls_sliding_window "ip:203.0.113.7" 3 60000
             five_calls Scenario.start eq_refl eq_refl five_calls_sorted
             five_calls_distinct).
  reflexivity.
Defined.

Lemma checkRateLimit_calls_window_bound_witness :
  Z.of_nat
    (length
       (allowed_in_window 60000 60000 five_calls
          (fst (checkRateLimit_calls "ip:203.0.113.7" 3 60000 five_calls
                  Scenario.start))))
  <= Z.max 0 3.
Proof.
  apply (checkRateLimit_calls_window_bound "ip:203.0.113.7" 3 60000 60000
           five_calls Scenario.start eq_refl eq_refl five_calls_sorted
           five_calls_distinct).
Defined.


Lemma refresh_token_round_trip_witness :
  @verifyRefreshToken PlainCodec.jose default_config
    (@generateRefreshToken PlainCodec.jose default_config "u" "s" 1999) 5000
  = inr ("u", "s").
Proof.
  apply (proj1 (@refresh_token_round_trip PlainCodec.jose default_config
                  PlainCodec_correct "u" "s" 1999 5000)).
  reflexivity.
Defined.

Lemma token_kinds_told_apart_by_secret_witness :
  @verifyRefreshToken PlainCodec.jose config_one_secret
    (@generateAccessToken PlainCodec.jose config_one_secret "u" "s" "owner" 1999)
    5000
  = inr ("u", "s")
  /\ exists message,
       @verifyRefreshToken PlainCodec.jose default_config
         (@generateAccessToken PlainCodec.jose default_config "u" "s" "owner" 1999)
         5000
       = inl (AuthenticationError message).
Proof.
  split.
  - apply (proj2 (proj1 (@token_kinds_told_apart_by_secret PlainCodec.jose
                           config_one_secret "u" "s" "owner" 1999 5000)
                    PlainCodec_correct eq_refl)).
    reflexivity.
  - apply (proj2 (proj2 (@token_kinds_told_apart_by_secret PlainCodec.jose
                           default_config "u" "s" "owner" 1999 5000)
                    PlainCodec_keyed ltac:(discriminate))).
Defined.

Lemma decodeToken_reads_payload_part_only_witness :
  decodeToken "not-a-token" = JS.JSNull
  /\ isTokenExpired "forged.eyJleHAiOjk5OTk5OTk5OTl9.nothing" 1700000000000
     = isTokenExpired "e30.eyJleHAiOjk5OTk5OTk5OTl9.sig" 1700000000000.
Proof.
  split.
  - apply (proj1 (decodeToken_reads_payload_part_only 0) "not-a-token").
    vm_compute. discriminate.
  - apply (proj2 (proj2 (decodeToken_reads_payload_part_only 1700000000000))
             "forged" "e30" "eyJleHAiOjk5OTk5OTk5OTl9" "nothing" "sig");
      vm_compute; intuition discriminate.
Defined.

Lemma getRemainingRequests_predicts_checkRateLimit_witness :
  checkRateLimit "ip:203.0.113.7" 3 60000 2000 "0.5"
    (snd (getRemainingRequests "ip:203.0.113.7" 3 60000 1000 Scenario.start))
  = checkRateLimit "ip:203.0.113.7" 3 60000 2000 "0.5" Scenario.start.
Proof.
  apply (proj1 (proj2 (getRemainingRequests_predicts_checkRateLimit
                         "ip:203.0.113.7" 3 60000 1000 Scenario.start))).
  lia.
Defined.

Lemma resetRateLimit_clears_one_window_witness :
  fst (checkRateLimit "ip:203.0.113.7" 3 60000 5000 "0.5"
         (resetRateLimit "ip:203.0.113.7"
            (snd (checkRateLimit_calls "ip:203.0.113.7" 3 60000 five_calls
                    Scenario.start))))
  = {| allowed := true; remaining := 2; resetAt := 65000 |}.
Proof.
  apply (proj1 (@resetRateLimit_clears_one_window default_config "ip:203.0.113.7"
                  (snd (checkRateLimit_calls "ip:203.0.113.7" 3 60000 five_calls
                          Scenario.start)))
           eq_refl 3 60000 5000 "0.5").
Defined.


Lemma six_requests_one_client :
  Forall (fun q => client_ip q = "203.0.113.7") six_requests.
Proof. repeat constructor. Defined.

Lemma six_requests_dates :
  Forall (fun q => toISOString (clock q + RATE_LIMIT_WINDOW_MS) <> None)
    six_requests.
Proof. repeat (constructor; [vm_compute; discriminate|]). constructor. Defined.

Lemma six_requests_sorted : Sorted.StronglySorted Z.le (map clock six_requests).
Proof.
  cbn.
  repeat match goal with
         | |- Sorted.StronglySorted _ [] => apply Sorted.SSorted_nil
         | |- Sorted.StronglySorted _ (_ :: _) => apply Sorted.SSorted_cons
         | |- Forall _ [] => constructor
         | |- Forall _ (_ :: _) => constructor
         | |- _ <= _ => lia
         end.
Defined.

Lemma six_requests_distinct :
  NoDup (map (fun q => marker (clock q) (draw q)) six_requests).
Proof. apply (bool_decide_unpack _). vm_compute. exact I. Defined.

Lemma rateLimitByIP_same_client_sliding_window_witness :
  map outcome
    (fst (rateLimitByIP_requests RATE_LIMIT_MAX_AUTH_REQUESTS RATE_LIMIT_WINDOW_MS
            six_requests Scenario.start))
  = [CalledNext; CalledNext; CalledNext; CalledNext; CalledNext;
     Threw (RateLimitError "Too many requests, please try again later")].
Proof.
  rewrite (rateLimitByIP_same_client_sliding_window RATE_LIMIT_MAX_AUTH_REQUESTS
             RATE_LIMIT_WINDOW_MS "203.0.113.7" six_requests Scenario.start
             eq_refl eq_refl six_requests_one_client six_requests_dates
             six_requests_sorted six_requests_distinct).
  reflexivity.
Defined.

Lemma rotating_requests_distinct : NoDup (map client_ip rotating_requests).
Proof. apply (bool_decide_unpack _). vm_compute. exact I. Defined.

Lemma rotating_requests_fresh :
  Forall (fun q => zsets_db (redis Scenario.start)
                   !! ratelimit_key ("ip:" +:+ client_ip q) = None)
    rotating_requests.
Proof. repeat constructor. Defined.

Lemma rateLimitByIP_fresh_address_never_refused_witness :
  Forall (fun reply => outcome reply = CalledNext)
    (fst (rateLimitByIP_requests 1 RATE_LIMIT_WINDOW_MS rotating_requests
            Scenario.start)).
Proof.
  apply (rateLimitByIP_fresh_address_never_refused 1 RATE_LIMIT_WINDOW_MS
           rotating_requests Scenario.start ltac:(lia) eq_refl
           rotating_requests_distinct rotating_requests_fresh).
Defined.


Lemma optionalAuth_skips_token_comparison_witness :
  fst (@authenticate PlainCodec.jose default_config
         (Some ("Bearer " +:+ Scenario.access0)) (Scenario.t0 + 60000)
         Scenario.rotated)
  = inl (AuthenticationError "Invalid token")
  /\ exists ctx,
       fst (@optionalAuth PlainCodec.jose default_config
              (Some ("Bearer " +:+ Scenario.access0)) (Scenario.t0 + 60000)
              Scenario.rotated)
       = Some ctx.
Proof.
  assert (H : fst (@authenticate PlainCodec.jose default_config
                     (Some ("Bearer " +:+ Scenario.access0)) (Scenario.t0 + 60000)
                     Scenario.rotated)
              = inl (AuthenticationError "Invalid token"))
    by (vm_compute; reflexivity).
  split; [exact H|].
  apply (proj1 (proj2 (@optionalAuth_skips_token_comparison PlainCodec.jose
                         default_config (Some ("Bearer " +:+ Scenario.access0))
                         (Scenario.t0 + 60000) Scenario.rotated)) H).
Defined.




Lemma google_client_masks_errors_witness :
  getTokensFromCode
    (Some {| access_token := JS.JSString "ya29.token";
             refresh_token := JS.JSString "1//refresh";
             expiry_date := JS.JSUndefined |}) 1000
  = inr (JS.JSString "ya29.token", JS.JSString "1//refresh",
         JS.JSNumber (JS.of_Z 3601000)).
Proof.
  apply (proj2 (proj1 (proj2 google_client_masks_errors)
                  (Some {| access_token := JS.JSString "ya29.token";
                           refresh_token := JS.JSString "1//refresh";
                           expiry_date := JS.JSUndefined |}) 1000 _ _ _)).
  eexists. repeat split.
Defined.

Lemma getSession_cache_transparent_witness :
  fst (@getSession default_config Scenario.A 7000
         (snd (@getSession default_config Scenario.A 6000 Scenario.with_expired)))
  = fst (@getSession default_config Scenario.A 7000 Scenario.with_expired).
Proof.
  apply (proj1 (@getSession_cache_transparent default_config Scenario.A 6000 7000
                  Scenario.with_expired ltac:(lia))).
Defined.

Lemma authenticate_deletes_only_expired_witness :
  sessions
    (snd (@authenticate PlainCodec.jose default_config
            (Some ("Bearer " +:+ Scenario.access0)) (Scenario.t0 + 60000)
            Scenario.rotated))
  = sessions Scenario.rotated.
Proof.
  apply (proj1 (proj2 (@authenticate_deletes_only_expired PlainCodec.jose
                         default_config (Some ("Bearer " +:+ Scenario.access0))
                         (Scenario.t0 + 60000) Scenario.rotated))).
  vm_compute. discriminate.
Defined.
